(** * four-in-a-row: board engine, search agent, matchmaking and session hub

    A shallow embedding of the Go packages [game], [bot], [matchmaking],
    [websocket] (the hub registries) and of the handlers of [cmd/server],
    followed by the properties of the specification and further properties
    of the code.

    Go's [int] is 64 bits wide on the targets of this program.  Every
    integer the modelled code computes is a board index, a player number,
    a small counter or a heuristic score of magnitude below 2^31, so the
    integers are modelled as [Z] without wrap-around. *)

From Stdlib Require Import ZArith Lia Bool List Sorted.
From stdpp Require Import base option list gmap strings.

Open Scope Z_scope.

(** ** Package game *)

Module game.

Definition Rows : Z := 6.
Definition Columns : Z := 7.
Definition Empty : Z := 0.
Definition Player1 : Z := 1.
Definition Player2 : Z := 2.

(** [type Board [Rows][Columns]int]: a list of rows, each a list of cells.
    The Go type fixes the shape; [wf_board] states it. *)
Abbreviation BoardT := (list (list Z)).

Definition wf_boardb (b : BoardT) : bool :=
  (length b =? 6)%nat && forallb (fun row => (length row =? 7)%nat) b.

Definition wf_board (b : BoardT) : Prop := wf_boardb b = true.

(** The zero value [Board{}]. *)
Definition zero_board : BoardT := replicate 6 (replicate 7 0).

Definition in_range (r c : Z) : bool :=
  (0 <=? r) && (r <? Rows) && (0 <=? c) && (c <? Columns).

(** [b[r][c]].  Go panics on an index outside the array; every access of the
    modelled functions is guarded by its loop bounds, and the model reads 0
    outside the grid. *)
Definition cell (b : BoardT) (r c : Z) : Z :=
  if in_range r c
  then default 0 (b !! Z.to_nat r ≫= fun row => row !! Z.to_nat c)
  else 0.

(** [b[r][c] = v]. *)
Definition set_cell (b : BoardT) (r c v : Z) : BoardT :=
  if in_range r c
  then alter (fun row => <[Z.to_nat c := v]> row) (Z.to_nat r) b
  else b.

Record Move : Type := mkMove { Player : Z; Column : Z; Row : Z }.

(** [type Game struct].  The record is parametric in the representation of
    the [Moves] field: a [list Move] for the value-level model, a slice
    header for the store model of [Clone]. *)
Record GameOf (M : Type) : Type := mkGame {
  ID : string;
  Board : BoardT;
  CurrentPlayer : Z;
  Player1ID : string;
  Player2ID : string;
  Player1Name : string;
  Player2Name : string;
  IsBot : bool;
  Winner : Z;
  IsOver : bool;
  IsDraw : bool;
  Moves : M;
  StartTime : Z;
  EndTime : Z
}.

Arguments mkGame {M}.
Arguments ID {M}.
Arguments Board {M}.
Arguments CurrentPlayer {M}.
Arguments Player1ID {M}.
Arguments Player2ID {M}.
Arguments Player1Name {M}.
Arguments Player2Name {M}.
Arguments IsBot {M}.
Arguments Winner {M}.
Arguments IsOver {M}.
Arguments IsDraw {M}.
Arguments Moves {M}.
Arguments StartTime {M}.
Arguments EndTime {M}.

Definition Game : Type := GameOf (list Move).

Section Setters.
Context {M : Type}.

Definition with_Board (g : GameOf M) (b : BoardT) : GameOf M :=
  mkGame (ID g) b (CurrentPlayer g) (Player1ID g) (Player2ID g)
         (Player1Name g) (Player2Name g) (IsBot g) (Winner g) (IsOver g)
         (IsDraw g) (Moves g) (StartTime g) (EndTime g).

Definition with_CurrentPlayer (g : GameOf M) (p : Z) : GameOf M :=
  mkGame (ID g) (Board g) p (Player1ID g) (Player2ID g)
         (Player1Name g) (Player2Name g) (IsBot g) (Winner g) (IsOver g)
         (IsDraw g) (Moves g) (StartTime g) (EndTime g).

Definition with_Winner (g : GameOf M) (w : Z) : GameOf M :=
  mkGame (ID g) (Board g) (CurrentPlayer g) (Player1ID g) (Player2ID g)
         (Player1Name g) (Player2Name g) (IsBot g) w (IsOver g)
         (IsDraw g) (Moves g) (StartTime g) (EndTime g).

Definition with_IsOver (g : GameOf M) (o : bool) : GameOf M :=
  mkGame (ID g) (Board g) (CurrentPlayer g) (Player1ID g) (Player2ID g)
         (Player1Name g) (Player2Name g) (IsBot g) (Winner g) o
         (IsDraw g) (Moves g) (StartTime g) (EndTime g).

Definition with_IsDraw (g : GameOf M) (d : bool) : GameOf M :=
  mkGame (ID g) (Board g) (CurrentPlayer g) (Player1ID g) (Player2ID g)
         (Player1Name g) (Player2Name g) (IsBot g) (Winner g) (IsOver g)
         d (Moves g) (StartTime g) (EndTime g).

Definition with_StartTime (g : GameOf M) (t : Z) : GameOf M :=
  mkGame (ID g) (Board g) (CurrentPlayer g) (Player1ID g) (Player2ID g)
         (Player1Name g) (Player2Name g) (IsBot g) (Winner g) (IsOver g)
         (IsDraw g) (Moves g) t (EndTime g).

Definition with_EndTime (g : GameOf M) (t : Z) : GameOf M :=
  mkGame (ID g) (Board g) (CurrentPlayer g) (Player1ID g) (Player2ID g)
         (Player1Name g) (Player2Name g) (IsBot g) (Winner g) (IsOver g)
         (IsDraw g) (Moves g) (StartTime g) t.

End Setters.

Definition with_Moves {M N : Type} (g : GameOf M) (ms : N) : GameOf N :=
  mkGame (ID g) (Board g) (CurrentPlayer g) (Player1ID g) (Player2ID g)
         (Player1Name g) (Player2Name g) (IsBot g) (Winner g) (IsOver g)
         (IsDraw g) ms (StartTime g) (EndTime g).

(** [func NewGame(id, p1ID, p1Name, p2ID, p2Name string, isBot bool) *Game] *)
Definition NewGame (id p1ID p1Name p2ID p2Name : string) (isBot : bool) : Game :=
  {| ID := id;
     Board := zero_board;
     CurrentPlayer := Player1;
     Player1ID := p1ID;
     Player2ID := p2ID;
     Player1Name := p1Name;
     Player2Name := p2Name;
     IsBot := isBot;
     Winner := 0;
     IsOver := false;
     IsDraw := false;
     Moves := [];
     StartTime := 0;
     EndTime := 0 |}.

(** The row search of [MakeMove]:
    [row := -1; for r := Rows - 1; r >= 0; r-- { if g.Board[r][column] == Empty { row = r; break } }].
    [lowest_empty b column n] runs the loop from [r = n - 1] down to 0. *)
Fixpoint lowest_empty (b : BoardT) (column : Z) (n : nat) : Z :=
  match n with
  | O => -1
  | S r =>
      if cell b (Z.of_nat r) column =? Empty then Z.of_nat r
      else lowest_empty b column r
  end.

(** The counting loop shared by the four scans of [CheckWin]:
    [if v == player { count++; if count >= 4 { return true } } else { count = 0 }]
    over the cells [vs] of one line, starting with [count]. *)
Fixpoint scan_line (player : Z) (vs : list Z) (count : Z) : bool :=
  match vs with
  | [] => false
  | v :: rest =>
      if v =? player
      then (if count + 1 >=? 4 then true else scan_line player rest (count + 1))
      else scan_line player rest 0
  end.

(** [for startRow > 0 && startCol > 0 { startRow--; startCol-- }].
    The loop ends after at most [startRow] rounds, the fuel it is given. *)
Fixpoint diag_start (fuel : nat) (startRow startCol : Z) : Z * Z :=
  match fuel with
  | O => (startRow, startCol)
  | S fuel' =>
      if (startRow >? 0) && (startCol >? 0)
      then diag_start fuel' (startRow - 1) (startCol - 1)
      else (startRow, startCol)
  end.

(** [for startRow > 0 && startCol < Columns-1 { startRow--; startCol++ }] *)
Fixpoint anti_start (fuel : nat) (startRow startCol : Z) : Z * Z :=
  match fuel with
  | O => (startRow, startCol)
  | S fuel' =>
      if (startRow >? 0) && (startCol <? Columns - 1)
      then anti_start fuel' (startRow - 1) (startCol + 1)
      else (startRow, startCol)
  end.

(** [for startRow < Rows && startCol < Columns { ...; startRow++; startCol++ }]
    with the counting body of [scan_line]; at most [Rows - startRow] rounds. *)
Fixpoint diag_scan (b : BoardT) (player : Z) (fuel : nat)
    (startRow startCol count : Z) : bool :=
  match fuel with
  | O => false
  | S fuel' =>
      if (startRow <? Rows) && (startCol <? Columns)
      then
        if cell b startRow startCol =? player
        then (if count + 1 >=? 4 then true
              else diag_scan b player fuel' (startRow + 1) (startCol + 1) (count + 1))
        else diag_scan b player fuel' (startRow + 1) (startCol + 1) 0
      else false
  end.

(** [for startRow < Rows && startCol >= 0 { ...; startRow++; startCol-- }] *)
Fixpoint anti_scan (b : BoardT) (player : Z) (fuel : nat)
    (startRow startCol count : Z) : bool :=
  match fuel with
  | O => false
  | S fuel' =>
      if (startRow <? Rows) && (startCol >=? 0)
      then
        if cell b startRow startCol =? player
        then (if count + 1 >=? 4 then true
              else anti_scan b player fuel' (startRow + 1) (startCol - 1) (count + 1))
        else anti_scan b player fuel' (startRow + 1) (startCol - 1) 0
      else false
  end.

Section Methods.
Context {M : Type}.

(** [func (g *Game) CheckWin(row, col int) bool], for [row], [col] inside the
    grid (the only calls are those of [MakeMove]). *)
Definition CheckWin (g : GameOf M) (row col : Z) : bool :=
  let b := Board g in
  let player := cell b row col in
  if scan_line player (map (fun c => cell b row (Z.of_nat c)) (seq 0 7)) 0 then true
  else if scan_line player (map (fun r => cell b (Z.of_nat r) col) (seq 0 6)) 0 then true
  else
    let '(sr, sc) := diag_start (Z.to_nat row) row col in
    if diag_scan b player (Z.to_nat (Rows - sr)) sr sc 0 then true
    else
      let '(sr, sc) := anti_start (Z.to_nat row) row col in
      if anti_scan b player (Z.to_nat (Rows - sr)) sr sc 0 then true
      else false.

(** [func (g *Game) IsBoardFull() bool] *)
Definition IsBoardFull (g : GameOf M) : bool :=
  forallb (fun c => negb (cell (Board g) 0 (Z.of_nat c) =? Empty)) (seq 0 7).

(** [func (g *Game) GetValidMoves() []int] *)
Definition GetValidMoves (g : GameOf M) : list Z :=
  map Z.of_nat
      (filter (fun c => cell (Board g) 0 (Z.of_nat c) = Empty) (seq 0 7)).

(** The board copy of [Clone]:
    [for r ... { for c ... { clone.Board[r][c] = g.Board[r][c] } }]
    into the zero value of the fresh struct. *)
Definition copy_board (src : BoardT) : BoardT :=
  fold_left
    (fun dst r =>
       fold_left
         (fun dst c => set_cell dst (Z.of_nat r) (Z.of_nat c)
                                (cell src (Z.of_nat r) (Z.of_nat c)))
         (seq 0 7) dst)
    (seq 0 6) zero_board.

End Methods.

(** [func (g *Game) MakeMove(column int) (int, bool)]: the result pair and
    the state of [*g] after the call. *)
Definition MakeMove (g : Game) (column : Z) : Z * bool * Game :=
  if (column <? 0) || (column >=? Columns) then (-1, false, g)
  else
    let row := lowest_empty (Board g) column (Z.to_nat Rows) in
    if row =? -1 then (-1, false, g)
    else
      let g := with_Board g (set_cell (Board g) row column (CurrentPlayer g)) in
      let move := {| Player := CurrentPlayer g; Column := column; Row := row |} in
      let g := with_Moves g (Moves g ++ [move]) in
      if CheckWin g row column
      then (row, true, with_IsOver (with_Winner g (CurrentPlayer g)) true)
      else if IsBoardFull g
      then (row, true, with_IsOver (with_IsDraw g true) true)
      else
        let g := if CurrentPlayer g =? Player1
                 then with_CurrentPlayer g Player2
                 else with_CurrentPlayer g Player1 in
        (row, true, g).

(** [func (g *Game) Clone() *Game] on values: the fields are copied, the
    grid cell by cell, the move list element by element. *)
Definition Clone (g : Game) : Game :=
  {| ID := ID g;
     Board := copy_board (Board g);
     CurrentPlayer := CurrentPlayer g;
     Player1ID := Player1ID g;
     Player2ID := Player2ID g;
     Player1Name := Player1Name g;
     Player2Name := Player2Name g;
     IsBot := IsBot g;
     Winner := Winner g;
     IsOver := IsOver g;
     IsDraw := IsDraw g;
     Moves := Moves g;
     StartTime := StartTime g;
     EndTime := EndTime g |}.

(** A run of [MakeMove] calls that all succeed. *)
Fixpoint play (g : Game) (cols : list Z) : option Game :=
  match cols with
  | [] => Some g
  | c :: rest =>
      let '(_, ok, g') := MakeMove g c in
      if ok then play g' rest else None
  end.

Definition ok_of (r : Z * bool * Game) : bool := snd (fst r).
Definition row_of (r : Z * bool * Game) : Z := fst (fst r).
Definition game_of (r : Z * bool * Game) : Game := snd r.

End game.

Import game.

(** ** Predicates on boards and games *)

Definition column_full (b : BoardT) (c : Z) : Prop :=
  ∀ r, 0 <= r < Rows → cell b r c ≠ Empty.

(** No floating disc: below a disc there are only discs. *)
Definition no_floating (b : BoardT) : Prop :=
  ∀ r c, 0 <= r < Rows → 0 <= c < Columns → cell b r c ≠ Empty →
         ∀ r', r < r' < Rows → cell b r' c ≠ Empty.

(** The four cells from [(r0, c0)] in direction [(dr, dc)] are cells of the
    grid and hold [p]. *)
Definition four_at (b : BoardT) (p r0 c0 dr dc : Z) : Prop :=
  ∀ i, 0 <= i < 4 →
       in_range (r0 + i * dr) (c0 + i * dc) = true ∧
       cell b (r0 + i * dr) (c0 + i * dc) = p.

(** Along a row, down a column, down the diagonal, down the anti-diagonal. *)
Definition directions : list (Z * Z) := [(0, 1); (1, 0); (1, 1); (1, -1)].

(** Four in a row of [p] that contains the cell [(row, col)]. *)
Definition four_through (b : BoardT) (p row col : Z) : Prop :=
  ∃ dr dc k, (dr, dc) ∈ directions ∧ 0 <= k < 4 ∧
             four_at b p (row - k * dr) (col - k * dc) dr dc.

(** Four in a row of [p] somewhere on the board. *)
Definition four_somewhere (b : BoardT) (p : Z) : Prop :=
  ∃ r0 c0 dr dc, (dr, dc) ∈ directions ∧ four_at b p r0 c0 dr dc.

(** Some four cells in a row hold the same non-Empty value: the search over
    all starts and directions. *)
Definition any_four (b : BoardT) : bool :=
  existsb
    (fun r0 =>
       existsb
         (fun c0 =>
            existsb
              (fun '(dr, dc) =>
                 negb (cell b r0 c0 =? Empty) &&
                 forallb
                   (fun i => in_range (r0 + i * dr) (c0 + i * dc) &&
                             (cell b (r0 + i * dr) (c0 + i * dc) =? cell b r0 c0))
                   (seqZ 0 4))
              directions)
         (seqZ 0 Columns))
    (seqZ 0 Rows).

(** A run of four [p] in a list starts at index [i]. *)
Definition run4 (p : Z) (vs : list Z) (i : nat) : Prop :=
  ∀ j, (j < 4)%nat → vs !! (i + j)%nat = Some p.

(** The cells the diagonal scan of [CheckWin] visits, in order. *)
Fixpoint diag_cells (b : BoardT) (fuel : nat) (startRow startCol : Z) : list Z :=
  match fuel with
  | O => []
  | S fuel' =>
      if (startRow <? Rows) && (startCol <? Columns)
      then cell b startRow startCol :: diag_cells b fuel' (startRow + 1) (startCol + 1)
      else []
  end.

(** The cells the anti-diagonal scan of [CheckWin] visits, in order. *)
Fixpoint anti_cells (b : BoardT) (fuel : nat) (startRow startCol : Z) : list Z :=
  match fuel with
  | O => []
  | S fuel' =>
      if (startRow <? Rows) && (startCol >=? 0)
      then cell b startRow startCol :: anti_cells b fuel' (startRow + 1) (startCol - 1)
      else []
  end.

(** The struct after the disc is written and the move record appended. *)
Definition placed (g : Game) (row column : Z) : Game :=
  with_Moves
    (with_Board g (set_cell (Board g) row column (CurrentPlayer g)))
    (Moves g ++ [mkMove (CurrentPlayer g) column row]).

Definition switch_turn (g : Game) : Game :=
  if CurrentPlayer g =? Player1
  then with_CurrentPlayer g Player2
  else with_CurrentPlayer g Player1.

Inductive MakeMove_cases (g : Game) (column : Z) : Z * bool * Game → Prop :=
  | mm_out_of_range :
      column < 0 ∨ column >= Columns →
      MakeMove_cases g column (-1, false, g)
  | mm_column_full :
      0 <= column < Columns → column_full (Board g) column →
      MakeMove_cases g column (-1, false, g)
  | mm_win row :
      0 <= column < Columns → row = lowest_empty (Board g) column 6 →
      row ≠ -1 → CheckWin (placed g row column) row column = true →
      MakeMove_cases g column
        (row, true, with_IsOver (with_Winner (placed g row column) (CurrentPlayer g)) true)
  | mm_draw row :
      0 <= column < Columns → row = lowest_empty (Board g) column 6 →
      row ≠ -1 → CheckWin (placed g row column) row column = false →
      IsBoardFull (placed g row column) = true →
      MakeMove_cases g column
        (row, true, with_IsOver (with_IsDraw (placed g row column) true) true)
  | mm_next row :
      0 <= column < Columns → row = lowest_empty (Board g) column 6 →
      row ≠ -1 → CheckWin (placed g row column) row column = false →
      IsBoardFull (placed g row column) = false →
      MakeMove_cases g column (row, true, switch_turn (placed g row column)).

(** A game is reachable when a run of successful [MakeMove] calls leads to it
    from a fresh [NewGame], whose start time may have been set as [startGame]
    does ([start = 0] is the game as [NewGame] returns it). *)
Definition reachable (g : Game) : Prop :=
  ∃ id p1ID p1Name p2ID p2Name isBot start cols,
    play (with_StartTime (NewGame id p1ID p1Name p2ID p2Name isBot) start) cols = Some g.

Record game_inv (g : Game) : Prop := {
  inv_wf : wf_board (Board g);
  inv_gravity : no_floating (Board g);
  inv_player : CurrentPlayer g = Player1 ∨ CurrentPlayer g = Player2;
  inv_draw : IsDraw g = true → IsBoardFull g = true;
  inv_live : IsOver g = false → Winner g = 0 ∧ IsDraw g = false;
  inv_no_four : IsOver g = false → ∀ p, p ≠ Empty → ¬ four_somewhere (Board g) p
}.


(** ** Package bot *)

Module bot.

Definition MaxDepth : Z := 6.
Definition WinScore : Z := 100000.
Definition BlockScore : Z := 90000.
Definition ThreeScore : Z := 100.
Definition TwoScore : Z := 10.
Definition CenterBonus : Z := 3.

Definition MinInt32 : Z := -2147483648.
Definition MaxInt32 : Z := 2147483647.

Record Bot : Type := mkBot { Player : Z }.

Definition abs (x : Z) : Z := if x <? 0 then - x else x.
Definition max (a b : Z) : Z := if a >? b then a else b.
Definition min (a b : Z) : Z := if a <? b then a else b.

(** [rand.Intn(n)] for [n > 0]: some index below [n].  The generator is
    outside the program; [seed] stands for its state, and every index below
    [n] is the outcome of some seed. *)
Definition rand_Intn (seed n : nat) : nat := (seed mod n)%nat.

(** The opponent computed at the head of [GetMove]. *)
Definition opponent_of (b : Bot) : Z :=
  if Player b =? Player1 then Player2 else Player1.

(** [clone := g.Clone(); clone.CurrentPlayer = p; row, valid := clone.MakeMove(col)] *)
Definition simulate (g : Game) (p col : Z) : Z * bool * Game :=
  MakeMove (with_CurrentPlayer (Clone g) p) col.

(** [func (b *Bot) evaluateWindow(g, startRow, startCol, rowDir, colDir, opponent) int] *)
Definition evaluateWindow (b : Bot) (g : Game)
    (startRow startCol rowDir colDir opponent : Z) : Z :=
  let '(botCount, oppCount, emptyCount) :=
    fold_left
      (fun '(botCount, oppCount, emptyCount) i =>
         let r := startRow + i * rowDir in
         let c := startCol + i * colDir in
         if cell (Board g) r c =? Player b then (botCount + 1, oppCount, emptyCount)
         else if cell (Board g) r c =? opponent then (botCount, oppCount + 1, emptyCount)
         else (botCount, oppCount, emptyCount + 1))
      (seqZ 0 4) (0, 0, 0) in
  if (botCount >? 0) && (oppCount >? 0) then 0
  else if (botCount =? 3) && (emptyCount =? 1) then ThreeScore
  else if (botCount =? 2) && (emptyCount =? 2) then TwoScore
  else if (oppCount =? 3) && (emptyCount =? 1) then - ThreeScore * 2
  else if (oppCount =? 2) && (emptyCount =? 2) then - TwoScore
  else 0.

(** [for x in outer { for y in inner { score += f x y } }] *)
Definition sum_loops (outer inner : list Z) (f : Z → Z → Z) (score : Z) : Z :=
  fold_left (fun score x => fold_left (fun score y => score + f x y) inner score)
            outer score.

(** [func (b *Bot) evaluateLines(g, opponent) int] *)
Definition evaluateLines (b : Bot) (g : Game) (opponent : Z) : Z :=
  let score := 0 in
  let score :=
    sum_loops (seqZ 0 Rows) (seqZ 0 (Columns - 4 + 1))
              (fun r c => evaluateWindow b g r c 0 1 opponent) score in
  let score :=
    sum_loops (seqZ 0 Columns) (seqZ 0 (Rows - 4 + 1))
              (fun c r => evaluateWindow b g r c 1 0 opponent) score in
  let score :=
    sum_loops (seqZ 0 (Rows - 4 + 1)) (seqZ 0 (Columns - 4 + 1))
              (fun r c => evaluateWindow b g r c 1 1 opponent) score in
  let score :=
    sum_loops (seqZ 0 (Rows - 4 + 1)) (seqZ 3 (Columns - 3))
              (fun r c => evaluateWindow b g r c 1 (-1) opponent) score in
  score.

(** [func (b *Bot) evaluate(g, opponent) int] *)
Definition evaluate (b : Bot) (g : Game) (opponent : Z) : Z :=
  if Winner g =? Player b then WinScore
  else if Winner g =? opponent then - WinScore
  else if IsDraw g then 0
  else
    let score :=
      fold_left
        (fun score c =>
           fold_left
             (fun score r =>
                if cell (Board g) r c =? Player b
                then score + (CenterBonus - abs (c - 3))
                else if cell (Board g) r c =? opponent
                then score - (CenterBonus - abs (c - 3))
                else score)
             (seqZ 0 Rows) score)
        (seqZ 0 Columns) 0 in
    score + evaluateLines b g opponent.

(** The maximizing loop of [minimax]; [rec] is the recursive call one ply
    deeper.  [break] ends the loop with the current [maxScore]. *)
Fixpoint max_loop (rec : Game → Z → Z → Z) (b : Bot) (g : Game)
    (validMoves : list Z) (alpha beta maxScore : Z) : Z :=
  match validMoves with
  | [] => maxScore
  | col :: rest =>
      let '(_, valid, clone) := simulate g (Player b) col in
      if negb valid then max_loop rec b g rest alpha beta maxScore
      else
        let score := rec clone alpha beta in
        let maxScore := max maxScore score in
        let alpha := max alpha score in
        if beta <=? alpha then maxScore
        else max_loop rec b g rest alpha beta maxScore
  end.

(** The minimizing loop of [minimax]. *)
Fixpoint min_loop (rec : Game → Z → Z → Z) (opponent : Z) (g : Game)
    (validMoves : list Z) (alpha beta minScore : Z) : Z :=
  match validMoves with
  | [] => minScore
  | col :: rest =>
      let '(_, valid, clone) := simulate g opponent col in
      if negb valid then min_loop rec opponent g rest alpha beta minScore
      else
        let score := rec clone alpha beta in
        let minScore := min minScore score in
        let beta := min beta score in
        if beta <=? alpha then minScore
        else min_loop rec opponent g rest alpha beta minScore
  end.

(** [func (b *Bot) minimax(g, depth, alpha, beta, isMaximizing, opponent) int];
    [depth] is a natural number: the calls start at [MaxDepth - 1] and go
    down by one. *)
Fixpoint minimax (b : Bot) (depth : nat) (g : Game) (alpha beta : Z)
    (isMaximizing : bool) (opponent : Z) : Z :=
  match depth with
  | O => evaluate b g opponent
  | S depth' =>
      if IsOver g then evaluate b g opponent
      else
        let validMoves := GetValidMoves g in
        if (length validMoves =? 0)%nat then 0
        else if isMaximizing
        then max_loop (fun clone alpha beta =>
                         minimax b depth' clone alpha beta false opponent)
                      b g validMoves alpha beta MinInt32
        else min_loop (fun clone alpha beta =>
                         minimax b depth' clone alpha beta true opponent)
                      opponent g validMoves alpha beta MaxInt32
  end.

(** The first two loops of [GetMove]: the first column of [cols] whose
    simulation for player [p] is valid and leaves [clone.Winner == p]. *)
Fixpoint first_winning (g : Game) (p : Z) (cols : list Z) : option Z :=
  match cols with
  | [] => None
  | col :: rest =>
      let '(_, valid, clone) := simulate g p col in
      if valid && (Winner clone =? p) then Some col
      else first_winning g p rest
  end.

(** The third loop of [GetMove]: the columns of best minimax score. *)
Fixpoint best_loop (b : Bot) (g : Game) (opponent : Z) (cols : list Z)
    (bestScore : Z) (bestMoves : list Z) : Z * list Z :=
  match cols with
  | [] => (bestScore, bestMoves)
  | col :: rest =>
      let '(_, valid, clone) := simulate g (Player b) col in
      if negb valid then best_loop b g opponent rest bestScore bestMoves
      else
        let score :=
          minimax b (Z.to_nat (MaxDepth - 1)) clone MinInt32 MaxInt32 false opponent in
        if score >? bestScore then best_loop b g opponent rest score [col]
        else if score =? bestScore
        then best_loop b g opponent rest bestScore (bestMoves ++ [col])
        else best_loop b g opponent rest bestScore bestMoves
  end.

(** The weighting loop at the end of [GetMove]. *)
Fixpoint centerPreference (bestMoves : list Z) (acc : list Z) : list Z :=
  match bestMoves with
  | [] => acc
  | col :: rest =>
      if col =? 3 then centerPreference rest (acc ++ [col; col; col])
      else if (col =? 2) || (col =? 4) then centerPreference rest (acc ++ [col; col])
      else centerPreference rest (acc ++ [col])
  end.

(** [func (b *Bot) GetMove(g *game.Game) int] *)
Definition GetMove (b : Bot) (g : Game) (seed : nat) : Z :=
  let opponent := opponent_of b in
  match first_winning g (Player b) (GetValidMoves g) with
  | Some col => col
  | None =>
      match first_winning g opponent (GetValidMoves g) with
      | Some col => col
      | None =>
          let '(_, bestMoves) :=
            best_loop b g opponent (GetValidMoves g) MinInt32 [] in
          if (length bestMoves =? 0)%nat
          then
            let validMoves := GetValidMoves g in
            if (0 <? length validMoves)%nat
            then nth (rand_Intn seed (length validMoves)) validMoves 0
            else 3
          else
            let cp := centerPreference bestMoves [] in
            nth (rand_Intn seed (length cp)) cp 0
      end
  end.

End bot.


(** ** Games behind pointers: the store model of [Clone]

    [Clone] returns a pointer to a new struct, and [Moves] is a slice: a
    header (pointer, length, capacity) over a backing array that several
    headers may share.  The store holds the [Game] structs and the backing
    arrays by address, so that sharing between a game and its clone is
    expressible. *)

Module mem.

Abbreviation loc := positive.

(** A slice header; [ptr = None] is the nil slice. *)
Record slice : Type := mkSlice { ptr : option loc; len : nat; cap : nat }.

Definition nil_slice : slice := mkSlice None 0 0.

Record heap : Type := mkHeap {
  games : gmap loc (GameOf slice);
  arrays : gmap loc (list Move)
}.

Definition zeroMove : Move := mkMove 0 0 0.

Definition array_of (h : heap) (s : slice) : list Move :=
  match ptr s with
  | Some l => default [] (arrays h !! l)
  | None => []
  end.

(** The elements [s[0], ..., s[len-1]]. *)
Definition elems (h : heap) (s : slice) : list Move := take (len s) (array_of h s).

Definition store (p : loc) (g : GameOf slice) (h : heap) : heap :=
  mkHeap (<[p := g]> (games h)) (arrays h).

Definition store_array (l : loc) (a : list Move) (h : heap) : heap :=
  mkHeap (games h) (<[l := a]> (arrays h)).

(** The value a [*Game] denotes: the struct with the elements of its slice. *)
Definition view (h : heap) (p : loc) : option Game :=
  g ← games h !! p; Some (with_Moves g (elems h (Moves g))).

(** The slices of the games of a store point to arrays of the store that
    are as long as their capacity: there is no dangling pointer. *)
Definition wf_slice (h : heap) (s : slice) : Prop :=
  (len s ≤ cap s)%nat ∧
  match ptr s with
  | Some l => ∃ a, arrays h !! l = Some a ∧ (cap s ≤ length a)%nat
  | None => cap s = 0%nat
  end.

Definition wf_heap (h : heap) : Prop :=
  ∀ p g, games h !! p = Some g → wf_slice h (Moves g).

Section Store.

(** The capacity [append] asks for when a slice of capacity [cap] is full.
    It is a policy of the Go runtime, not of this program; the model takes
    at least the capacity the new length needs. *)
Variable growcap : nat → nat.

(** [make([]Move, n)] *)
Definition make (n : nat) (h : heap) : slice * heap :=
  let l := fresh (dom (arrays h)) in
  (mkSlice (Some l) n n, store_array l (replicate n zeroMove) h).

(** [copy(dst, src)] *)
Definition copy (dst src : slice) (h : heap) : heap :=
  let n := Nat.min (len dst) (len src) in
  match ptr dst with
  | Some l => store_array l (take n (elems h src) ++ drop n (array_of h dst)) h
  | None => h
  end.

(** [append(s, m)]: in place when the capacity allows, else into a new array. *)
Definition append (s : slice) (m : Move) (h : heap) : slice * heap :=
  match ptr s with
  | Some l =>
      if (len s <? cap s)%nat
      then (mkSlice (Some l) (S (len s)) (cap s),
            store_array l (<[len s := m]> (array_of h s)) h)
      else
        let l' := fresh (dom (arrays h)) in
        let newcap := Nat.max (S (len s)) (growcap (cap s)) in
        (mkSlice (Some l') (S (len s)) newcap,
         store_array l' (elems h s ++ m :: replicate (newcap - S (len s)) zeroMove) h)
  | None =>
      let l' := fresh (dom (arrays h)) in
      let newcap := Nat.max 1 (growcap 0) in
      (mkSlice (Some l') 1 newcap,
       store_array l' (m :: replicate (newcap - 1) zeroMove) h)
  end.

(** [func (g *Game) Clone() *Game]: the new struct, the cell-by-cell copy of
    the grid, then [make] and [copy] for the moves.  [None] is the nil
    dereference. *)
Definition Clone (p : loc) (h : heap) : option (loc * heap) :=
  g ← games h !! p;
  let q := fresh (dom (games h)) in
  let clone :=
    {| ID := ID g; Board := zero_board; CurrentPlayer := CurrentPlayer g;
       Player1ID := Player1ID g; Player2ID := Player2ID g;
       Player1Name := Player1Name g; Player2Name := Player2Name g;
       IsBot := IsBot g; Winner := Winner g; IsOver := IsOver g;
       IsDraw := IsDraw g; Moves := nil_slice;
       StartTime := StartTime g; EndTime := EndTime g |} in
  let clone := with_Board clone (copy_board (Board g)) in
  let '(s, h) := make (len (Moves g)) h in
  let h := copy s (Moves g) h in
  Some (q, store q (with_Moves clone s) h).

(** [func (g *Game) MakeMove(column int) (int, bool)] through the pointer. *)
Definition MakeMove (p : loc) (column : Z) (h : heap) : option (Z * bool * heap) :=
  g ← games h !! p;
  if (column <? 0) || (column >=? Columns) then Some (-1, false, h)
  else
    let row := lowest_empty (Board g) column (Z.to_nat Rows) in
    if row =? -1 then Some (-1, false, h)
    else
      let g := with_Board g (set_cell (Board g) row column (CurrentPlayer g)) in
      let move := {| Player := CurrentPlayer g; Column := column; Row := row |} in
      let '(s, h) := append (Moves g) move h in
      let g := with_Moves g s in
      if CheckWin g row column
      then Some (row, true, store p (with_IsOver (with_Winner g (CurrentPlayer g)) true) h)
      else if IsBoardFull g
      then Some (row, true, store p (with_IsOver (with_IsDraw g true) true) h)
      else
        let g := if CurrentPlayer g =? Player1
                 then with_CurrentPlayer g Player2
                 else with_CurrentPlayer g Player1 in
        Some (row, true, store p g h).

(** What a holder of the clone's pointer can do to it. *)
Inductive op : Type :=
  | OpMakeMove (column : Z)            (* q.MakeMove(column) *)
  | OpSetCurrentPlayer (v : Z)         (* q.CurrentPlayer = v *)
  | OpSetCell (r c v : Z)              (* q.Board[r][c] = v *)
  | OpSetMove (i : nat) (m : Move)     (* q.Moves[i] = m *)
  | OpAppend (m : Move)                (* q.Moves = append(q.Moves, m) *)
  | OpReslice (n : nat).               (* q.Moves = q.Moves[:n] *)

(** One operation on the game at [q]; [None] is a run-time panic. *)
Definition exec (q : loc) (o : op) (h : heap) : option heap :=
  match o with
  | OpMakeMove column =>
      r ← MakeMove q column h; Some (snd r)
  | OpSetCurrentPlayer v =>
      g ← games h !! q; Some (store q (with_CurrentPlayer g v) h)
  | OpSetCell r c v =>
      g ← games h !! q;
      if in_range r c then Some (store q (with_Board g (set_cell (Board g) r c v)) h)
      else None
  | OpSetMove i m =>
      g ← games h !! q;
      match ptr (Moves g) with
      | Some l =>
          if (i <? len (Moves g))%nat
          then Some (store_array l (<[i := m]> (array_of h (Moves g))) h)
          else None
      | None => None
      end
  | OpAppend m =>
      g ← games h !! q;
      let '(s, h) := append (Moves g) m h in
      Some (store q (with_Moves g s) h)
  | OpReslice n =>
      g ← games h !! q;
      if (n <=? cap (Moves g))%nat
      then Some (store q (with_Moves g (mkSlice (ptr (Moves g)) n (cap (Moves g)))) h)
      else None
  end.

(** A sequence of operations; it ends at the first panic. *)
Fixpoint run (q : loc) (ops : list op) (h : heap) : heap :=
  match ops with
  | [] => h
  | o :: rest =>
      match exec q o h with
      | Some h' => run q rest h'
      | None => h
      end
  end.

(** The clone's array is not an array of the store [h0] the clone was taken
    in, and the games and arrays of [h0] are as they were. *)
Record frame (h0 h : heap) (q : loc) : Prop := {
  fr_new : games h0 !! q = None;
  fr_games : ∀ p, p ≠ q → games h !! p = games h0 !! p;
  fr_arrays : ∀ l a, arrays h0 !! l = Some a → arrays h !! l = Some a;
  fr_clone : ∃ g, games h !! q = Some g ∧ wf_slice h (Moves g) ∧
                  ∀ l, ptr (Moves g) = Some l → arrays h0 !! l = None
}.

End Store.

End mem.

(** ** Package websocket: clients and messages *)

Module ws.

Module Client.
(** [type Client struct]: the fields the handlers read and write.  The
    connection and the outbound channel are outside the model. *)
Record t : Type := mk { ID : string; Username : string; GameID : string }.
End Client.

Module Message.
(** [type Message struct] (without the raw [Data] field). *)
Record t : Type := mk {
  Type_ : string;
  GameID : string;
  Username : string;
  Column : Z;
  Row : Z;
  Player : Z;
  Board : option BoardT;
  Winner : string;
  Reason : string;
  Opponent : string;
  YourTurn : bool;
  Message : string;
  IsBot : bool
}.

(** The zero value [Message{}]. *)
Definition zero : t := mk EmptyString EmptyString EmptyString 0 0 0 None EmptyString EmptyString EmptyString false EmptyString false.
End Message.

End ws.

(** ** The hub, the matchmaker and the server handlers

    The handlers run one at a time here; the goroutines and locks of the
    program are outside the model.  The state holds the registries of
    [Hub], the queue of [MatchMaker], the bots of [Server], the [Client]
    structs by id, and two logs: the [SendToClient] calls that found their
    client registered, and the messages put on [Hub.Broadcast]. *)

Module server.

Import ws.

Record State : Type := mkState {
  clients : gmap string Client.t;
  Clients : gset string;
  Games : gmap string Game;
  PlayerToGame : gmap string string;
  DisconnectTimers : gset string;
  WaitingQueue : list string;
  BotPlayers : gmap string bot.Bot;
  Sent : list (string * Message.t);
  Broadcast : list Message.t
}.

(** [NewHub], [NewMatchMaker] and the empty [BotPlayers] of [main]. *)
Definition init : State := mkState ∅ ∅ ∅ ∅ ∅ [] ∅ [] [].

Definition with_clients (s : State) (x : gmap string Client.t) : State :=
  mkState x (Clients s) (Games s) (PlayerToGame s) (DisconnectTimers s)
          (WaitingQueue s) (BotPlayers s) (Sent s) (Broadcast s).
Definition with_Clients (s : State) (x : gset string) : State :=
  mkState (clients s) x (Games s) (PlayerToGame s) (DisconnectTimers s)
          (WaitingQueue s) (BotPlayers s) (Sent s) (Broadcast s).
Definition with_Games (s : State) (x : gmap string Game) : State :=
  mkState (clients s) (Clients s) x (PlayerToGame s) (DisconnectTimers s)
          (WaitingQueue s) (BotPlayers s) (Sent s) (Broadcast s).
Definition with_PlayerToGame (s : State) (x : gmap string string) : State :=
  mkState (clients s) (Clients s) (Games s) x (DisconnectTimers s)
          (WaitingQueue s) (BotPlayers s) (Sent s) (Broadcast s).
Definition with_DisconnectTimers (s : State) (x : gset string) : State :=
  mkState (clients s) (Clients s) (Games s) (PlayerToGame s) x
          (WaitingQueue s) (BotPlayers s) (Sent s) (Broadcast s).
Definition with_WaitingQueue (s : State) (x : list string) : State :=
  mkState (clients s) (Clients s) (Games s) (PlayerToGame s) (DisconnectTimers s)
          x (BotPlayers s) (Sent s) (Broadcast s).
Definition with_BotPlayers (s : State) (x : gmap string bot.Bot) : State :=
  mkState (clients s) (Clients s) (Games s) (PlayerToGame s) (DisconnectTimers s)
          (WaitingQueue s) x (Sent s) (Broadcast s).
Definition with_Sent (s : State) (x : list (string * Message.t)) : State :=
  mkState (clients s) (Clients s) (Games s) (PlayerToGame s) (DisconnectTimers s)
          (WaitingQueue s) (BotPlayers s) x (Broadcast s).
Definition with_Broadcast (s : State) (x : list Message.t) : State :=
  mkState (clients s) (Clients s) (Games s) (PlayerToGame s) (DisconnectTimers s)
          (WaitingQueue s) (BotPlayers s) (Sent s) x.

(** The struct behind a client pointer. *)
Definition client_at (s : State) (id : string) : Client.t :=
  default (Client.mk id EmptyString EmptyString) (clients s !! id).

(** [client.Username = name] and [client.GameID = gameID]. *)
Definition set_Username (id name : string) (s : State) : State :=
  let c := client_at s id in
  with_clients s (<[id := Client.mk (Client.ID c) name (Client.GameID c)]> (clients s)).
Definition set_GameID (id gameID : string) (s : State) : State :=
  let c := client_at s id in
  with_clients s (<[id := Client.mk (Client.ID c) (Client.Username c) gameID]> (clients s)).

(** *** Hub *)

(** [func (h *Hub) SendToClient(clientID string, msg *Message)]: nothing
    happens for a client that is not registered; the bounded channel of a
    registered client is not modelled. *)
Definition SendToClient (clientID : string) (msg : Message.t) (s : State) : State :=
  if decide (clientID ∈ Clients s)
  then with_Sent s (Sent s ++ [(clientID, msg)])
  else s.

(** [h.Broadcast <- msg] *)
Definition broadcast (msg : Message.t) (s : State) : State :=
  with_Broadcast s (Broadcast s ++ [msg]).

Definition GetGame (gameID : string) (s : State) : option Game := Games s !! gameID.

Definition SetGame (gameID : string) (g : Game) (s : State) : State :=
  with_Games s (<[gameID := g]> (Games s)).

(** [h.PlayerToGame[playerID]]: the empty string for a missing key. *)
Definition GetPlayerGame (playerID : string) (s : State) : string :=
  default EmptyString (PlayerToGame s !! playerID).

Definition SetPlayerGame (playerID gameID : string) (s : State) : State :=
  with_PlayerToGame s (<[playerID := gameID]> (PlayerToGame s)).

Definition RemovePlayerGame (playerID : string) (s : State) : State :=
  with_PlayerToGame s (delete playerID (PlayerToGame s)).

Definition CancelDisconnectTimer (clientID : string) (s : State) : State :=
  with_DisconnectTimers s (DisconnectTimers s ∖ {[clientID]}).

(** The [Register] and [Unregister] cases of [Hub.Run]. *)
Definition Register (id : string) (s : State) : State :=
  with_Clients s ({[id]} ∪ Clients s).
Definition Unregister (id : string) (s : State) : State :=
  with_Clients s (Clients s ∖ {[id]}).

(** *** Messages the handlers build *)

Definition msg_error (text : string) : Message.t :=
  Message.mk "error" EmptyString EmptyString 0 0 0 None EmptyString EmptyString EmptyString false text false.

Definition msg_waiting : Message.t :=
  Message.mk "waiting" EmptyString EmptyString 0 0 0 None EmptyString EmptyString EmptyString false "Looking for an opponent..." false.

Definition msg_game_start (gameID opponent : string) (yourTurn isBot : bool)
    (player : Z) : Message.t :=
  Message.mk "game_start" gameID EmptyString 0 0 player None EmptyString EmptyString opponent yourTurn EmptyString isBot.

Definition msg_game_reconnected (gameID : string) (board : BoardT)
    (opponent : string) (yourTurn : bool) (player : Z) (isBot : bool) : Message.t :=
  Message.mk "game_reconnected" gameID EmptyString 0 0 player (Some board) EmptyString EmptyString opponent
             yourTurn EmptyString isBot.

Definition msg_move (gameID : string) (column row player : Z) (board : BoardT) : Message.t :=
  Message.mk "move" gameID EmptyString column row player (Some board) EmptyString EmptyString EmptyString false EmptyString false.

Definition msg_game_end (gameID winner reason : string) : Message.t :=
  Message.mk "game_end" gameID EmptyString 0 0 0 None winner reason EmptyString false EmptyString false.

(** *** Server.onGameStart and MatchMaker *)

(** [func (s *Server) onGameStart(g, p1Client, p2Client)] (the Kafka event
    is outside the model). *)
Definition onGameStart (g : Game) (s : State) : State :=
  if IsBot g
  then with_BotPlayers s (<[ID g := bot.mkBot Player2]> (BotPlayers s))
  else s.

(** [func (m *MatchMaker) startGame(player1, player2 *ws.Client, isBot bool)];
    [gameID] is the value of [uuid.New().String()], [now] of
    [time.Now().Unix()], [player2 = None] the nil pointer. *)
Definition startGame (player1 : string) (player2 : option string) (isBot : bool)
    (gameID : string) (now : Z) (s : State) : State :=
  let p1 := client_at s player1 in
  let p2 := client_at s <$> player2 in
  let p2ID := match p2 with
              | Some c2 => Client.ID c2
              | None => "bot-" +:+ gameID
              end in
  let p2Name := match p2 with
                | Some c2 => Client.Username c2
                | None => "Bot"
                end in
  let newGame :=
    with_StartTime
      (NewGame gameID (Client.ID p1) (Client.Username p1) p2ID p2Name isBot) now in
  let s := SetGame gameID newGame s in
  let s := SetPlayerGame (Client.ID p1) gameID s in
  let s := set_GameID player1 gameID s in
  let s := match player2, p2 with
           | Some ptr2, Some c2 => set_GameID ptr2 gameID (SetPlayerGame (Client.ID c2) gameID s)
           | _, _ => s
           end in
  let s := SendToClient (Client.ID p1)
             (msg_game_start gameID p2Name true isBot Player1) s in
  let s := match p2 with
           | Some c2 =>
               SendToClient (Client.ID c2)
                 (msg_game_start gameID (Client.Username p1) false false Player2) s
           | None => s
           end in
  onGameStart newGame s.

(** The search of [AddPlayer]: the first waiting client with another id and
    another user name, and the queue without it. *)
Fixpoint pick_opponent (s : State) (client : string) (queue : list string)
  : option (string * list string) :=
  match queue with
  | [] => None
  | wp :: rest =>
      if negb (String.eqb (Client.ID (client_at s wp)) (Client.ID (client_at s client)))
         && negb (String.eqb (Client.Username (client_at s wp))
                             (Client.Username (client_at s client)))
      then Some (wp, rest)
      else
        match pick_opponent s client rest with
        | Some (found, rest') => Some (found, wp :: rest')
        | None => None
        end
  end.

(** [func (m *MatchMaker) AddPlayer(client *ws.Client)] *)
Definition AddPlayer (client : string) (gameID : string) (now : Z) (s : State) : State :=
  match pick_opponent s client (WaitingQueue s) with
  | Some (wp, rest) =>
      startGame wp (Some client) false gameID now (with_WaitingQueue s rest)
  | None =>
      let s := with_WaitingQueue s (WaitingQueue s ++ [client]) in
      SendToClient (Client.ID (client_at s client)) msg_waiting s
  end.

(** The first entry of the queue with the given client id, removed. *)
Fixpoint remove_waiting (s : State) (id : string) (queue : list string)
  : option (list string) :=
  match queue with
  | [] => None
  | wp :: rest =>
      if String.eqb (Client.ID (client_at s wp)) id then Some rest
      else option_map (cons wp) (remove_waiting s id rest)
  end.

(** [func (m *MatchMaker) handleTimeout(client *ws.Client)] *)
Definition handleTimeout (client : string) (gameID : string) (now : Z) (s : State) : State :=
  match remove_waiting s (Client.ID (client_at s client)) (WaitingQueue s) with
  | Some rest => startGame client None true gameID now (with_WaitingQueue s rest)
  | None => s
  end.

(** *** Server handlers *)

(** [func (s *Server) endGame(g *game.Game)] (Kafka and the database are
    outside the model); the game is the one stored under [g.ID]. *)
Definition endGame (g : Game) (now : Z) (s : State) : State :=
  let g := with_EndTime g now in
  let s := SetGame (ID g) g s in
  let '(winnerName, reason) :=
    if IsDraw g then (EmptyString, "draw")
    else if Winner g =? Player1 then (Player1Name g, "connect4")
    else if Winner g =? Player2 then (Player2Name g, "connect4")
    else (EmptyString, "connect4") in
  let s := broadcast (msg_game_end (ID g) winnerName reason) s in
  let s := with_BotPlayers s (delete (ID g) (BotPlayers s)) in
  let s := RemovePlayerGame (Player1ID g) s in
  if negb (IsBot g) then RemovePlayerGame (Player2ID g) s else s.

(** The turn flag and the opponent of a reconnecting user. *)
Definition your_turn (g : Game) (username : string) : bool :=
  ((CurrentPlayer g =? Player1) && String.eqb (Player1Name g) username)
  || ((CurrentPlayer g =? Player2) && String.eqb (Player2Name g) username).

Definition reconnected_for (gameID : string) (g : Game) (username : string) : Message.t :=
  let '(opponent, playerNum) :=
    if negb (String.eqb (Player1Name g) username)
    then (Player1Name g, Player2)
    else (Player2Name g, Player1) in
  msg_game_reconnected gameID (Board g) opponent (your_turn g username) playerNum (IsBot g).

(** [func (s *Server) handleJoin(client *ws.Client, msg ws.Message)] *)
Definition handleJoin (client : string) (msg : Message.t) (gameID : string) (now : Z)
    (s : State) : State :=
  if String.eqb (Message.Username msg) EmptyString
  then SendToClient (Client.ID (client_at s client)) (msg_error "Username is required") s
  else
    let s := set_Username client (Message.Username msg) s in
    let existingGameID := GetPlayerGame (Message.Username msg) s in
    let rejoin :=
      if negb (String.eqb existingGameID EmptyString)
      then match GetGame existingGameID s with
           | Some existingGame =>
               if negb (IsOver existingGame) then Some existingGame else None
           | None => None
           end
      else None in
    match rejoin with
    | Some existingGame =>
        let s := set_GameID client existingGameID s in
        let s := SetPlayerGame (Client.ID (client_at s client)) existingGameID s in
        let s := CancelDisconnectTimer (Message.Username msg) s in
        SendToClient (Client.ID (client_at s client))
          (reconnected_for existingGameID existingGame (Message.Username msg)) s
    | None => AddPlayer client gameID now s
    end.

(** [func (s *Server) handleMove(client *ws.Client, msg ws.Message)]; the
    bot's answer, started with [go s.makeBotMove(g)], is the event
    [BotMove] below. *)
Definition handleMove (client : string) (msg : Message.t) (now : Z) (s : State) : State :=
  let c := client_at s client in
  let gameID := Client.GameID c in
  if String.eqb gameID EmptyString
  then SendToClient (Client.ID c) (msg_error "Not in a game") s
  else
    match GetGame gameID s with
    | None => SendToClient (Client.ID c) (msg_error "Game not found or already over") s
    | Some g =>
        if IsOver g
        then SendToClient (Client.ID c) (msg_error "Game not found or already over") s
        else
          let isPlayer1 := String.eqb (Player1ID g) (Client.ID c)
                           || String.eqb (Player1Name g) (Client.Username c) in
          let isPlayer2 := String.eqb (Player2ID g) (Client.ID c)
                           || String.eqb (Player2Name g) (Client.Username c) in
          if negb isPlayer1 && negb isPlayer2
          then SendToClient (Client.ID c) (msg_error "You are not a player in this game") s
          else
            let expectedPlayer := if isPlayer2 then Player2 else Player1 in
            if negb (CurrentPlayer g =? expectedPlayer)
            then SendToClient (Client.ID c) (msg_error "Not your turn") s
            else
              let '(row, valid, g) := MakeMove g (Message.Column msg) in
              if negb valid
              then SendToClient (Client.ID c) (msg_error "Invalid move") s
              else
                let s := SetGame gameID g s in
                let s := broadcast (msg_move gameID (Message.Column msg) row
                                             expectedPlayer (Board g)) s in
                if IsOver g then endGame g now s else s
    end.

(** [func (s *Server) handleReconnect(client *ws.Client, msg ws.Message)] *)
Definition handleReconnect (client : string) (msg : Message.t) (s : State) : State :=
  let c := client_at s client in
  let gameID := Message.GameID msg in
  let username := Message.Username msg in
  if String.eqb gameID EmptyString || String.eqb username EmptyString
  then SendToClient (Client.ID c)
         (msg_error "Game ID and username are required for reconnection") s
  else
    match GetGame gameID s with
    | None => SendToClient (Client.ID c) (msg_error "Game not found") s
    | Some g =>
        if IsOver g then SendToClient (Client.ID c) (msg_error "Game is already over") s
        else if negb (String.eqb (Player1Name g) username)
                && negb (String.eqb (Player2Name g) username)
        then SendToClient (Client.ID c) (msg_error "You are not a player in this game") s
        else
          let s := CancelDisconnectTimer username s in
          let s := set_Username client username s in
          let s := set_GameID client gameID s in
          let s := SetPlayerGame (Client.ID c) gameID s in
          let s := SetPlayerGame username gameID s in
          SendToClient (Client.ID c) (reconnected_for gameID g username) s
    end.

(** [func (s *Server) handleMessage(client *ws.Client, data []byte)] on a
    parsed message. *)
Definition handleMessage (client : string) (msg : Message.t) (uuid : string) (now : Z)
    (s : State) : State :=
  if String.eqb (Message.Type_ msg) "join" then handleJoin client msg uuid now s
  else if String.eqb (Message.Type_ msg) "move" then handleMove client msg now s
  else if String.eqb (Message.Type_ msg) "reconnect" then handleReconnect client msg s
  else s.

(** [func (s *Server) makeBotMove(g *game.Game)] after its sleep; [seed]
    feeds the bot's random choice. *)
Definition makeBotMove (gameID : string) (seed : nat) (now : Z) (s : State) : State :=
  match GetGame gameID s with
  | None => s
  | Some g =>
      let '(botPlayer, s) :=
        match BotPlayers s !! ID g with
        | Some b => (b, s)
        | None =>
            (bot.mkBot Player2,
             with_BotPlayers s (<[ID g := bot.mkBot Player2]> (BotPlayers s)))
        end in
      let column := bot.GetMove botPlayer g seed in
      let '(row, valid, g) := MakeMove g column in
      if negb valid then s
      else
        let s := SetGame gameID g s in
        let s := broadcast (msg_move (ID g) column row Player2 (Board g)) s in
        if IsOver g then endGame g now s else s
  end.

(** *** Events *)

Inductive event : Type :=
  | Connect (id : string)
      (* handleWebSocket: a new Client with this uuid is registered *)
  | Disconnect (id : string)
      (* the read loop of the client ends: Unregister *)
  | Receive (id : string) (msg : Message.t) (uuid : string) (now : Z)
      (* handleMessage; uuid and now are what uuid.New and time.Now would give *)
  | MatchTimeout (id : string) (uuid : string) (now : Z)
      (* the matchmaking timer of a waiting client fires *)
  | BotMove (gameID : string) (seed : nat) (now : Z).
      (* the goroutine started by handleMove runs makeBotMove *)

(** One event.  Events that cannot happen leave the state as it is: a
    second connection with a known id, a message of an unknown client, a
    uuid already used for a game, a bot move nobody started. *)
Definition step (s : State) (e : event) : State :=
  match e with
  | Connect id =>
      match clients s !! id with
      | Some _ => s
      | None => Register id (with_clients s (<[id := Client.mk id EmptyString EmptyString]> (clients s)))
      end
  | Disconnect id => Unregister id s
  | Receive id msg uuid now =>
      match clients s !! id, Games s !! uuid with
      | Some _, None => handleMessage id msg uuid now s
      | _, _ => s
      end
  | MatchTimeout id uuid now =>
      match clients s !! id, Games s !! uuid with
      | Some _, None => handleTimeout id uuid now s
      | _, _ => s
      end
  | BotMove gameID seed now =>
      match Games s !! gameID with
      | Some g =>
          if IsBot g && negb (IsOver g) && (CurrentPlayer g =? Player2)
          then makeBotMove gameID seed now s
          else s
      | None => s
      end
  end.

Definition run (events : list event) (s : State) : State := fold_left step events s.

End server.

(** ** Concrete games used as examples *)

Definition fresh_game : Game := NewGame "g1" "c1" "alice" "c2" "bob" false.

(** A struct value with a disc in the top cell of column 3 and nothing
    under it. *)
Definition floating_game : Game :=
  with_Board fresh_game (set_cell zero_board 0 3 Player1).

(** Player 1 stacks column 0, player 2 column 1; the seventh move wins. *)
Definition three_stacked : list Z := [0; 1; 0; 1; 0; 1].

(** 41 moves without a win; a 42nd disc in column 5 fills the board and
    completes four in a row for player 2. *)
Definition fill_and_win_prefix : list Z :=
  [4; 6; 0; 2; 6; 5; 1; 2; 5; 2; 3; 4; 1; 1; 4; 0; 3; 5; 5; 6; 2;
   4; 3; 0; 1; 3; 1; 5; 0; 1; 3; 0; 2; 6; 2; 4; 3; 0; 4; 6; 6].

(** 41 moves without a win; a 42nd disc in column 0 fills the board without
    any four in a row. *)
Definition fill_and_draw_prefix : list Z :=
  [5; 4; 5; 0; 6; 2; 4; 5; 5; 0; 4; 1; 1; 0; 4; 5; 6; 5; 3; 1; 1;
   2; 2; 6; 2; 6; 6; 3; 6; 2; 0; 3; 0; 3; 3; 4; 3; 1; 4; 2; 1].

(** The game a list of columns leads to from [fresh_game] ([fresh_game]
    itself when a move of the list fails). *)
Definition after (cols : list Z) : Game := default fresh_game (play fresh_game cols).

(** The other player, as the turn switch of [MakeMove] computes it. *)
Definition other_player (p : Z) : Z := if p =? Player1 then Player2 else Player1.

(** ** Predicates on the bot's choice *)

(** Column [col], played by [p] on a clone of [g], is accepted and leaves
    the clone with [Winner == p]: the test of the first two loops of
    [GetMove]. *)
Definition wins_at (g : Game) (p col : Z) : Prop :=
  ok_of (bot.simulate g p col) = true ∧ Winner (game_of (bot.simulate g p col)) = p.

(** Dropping a disc of [p] into column [col] completes four in a row of [p]
    through the cell where the disc lands. *)
Definition completes_four (g : Game) (p col : Z) : Prop :=
  let row := lowest_empty (Board g) col 6 in
  four_through (set_cell (Board g) row col p) p row col.

(** [col] is the first legal column, in ascending order, that satisfies [P]. *)
Definition first_legal (g : Game) (P : Z → Prop) (col : Z) : Prop :=
  col ∈ GetValidMoves g ∧ P col ∧
  ∀ col', col' ∈ GetValidMoves g → col' < col → ¬ P col'.

(** The bot is player 2, as [onGameStart] creates it. *)
Definition the_bot : bot.Bot := bot.mkBot Player2.

(** Player 1 has three discs in column 0 and the bot three in column 1. *)
Definition both_threaten : list Z := [0; 1; 0; 1; 0; 1; 6].

(** Player 1 has three discs in column 0; the bot has no winning move. *)
Definition one_threat : list Z := [0; 1; 0; 2; 0].

(** ** A concrete store *)

(** One game at address 1 after the moves 3, 3; its slice has length 2 and
    capacity 4 over the array at address 1. *)
Definition store_game : GameOf mem.slice :=
  with_Moves (after [3; 3]) (mem.mkSlice (Some 1%positive) 2 4).

Definition one_game_store : mem.heap :=
  mem.mkHeap {[ 1%positive := store_game ]}
             {[ 1%positive := [mkMove 1 3 5; mkMove 2 3 4; mem.zeroMove; mem.zeroMove] ]}.

(** What the bot and a careless caller might do to a clone. *)
Definition clone_ops : list mem.op :=
  [mem.OpSetCurrentPlayer 2; mem.OpMakeMove 3; mem.OpSetMove 0 (mkMove 9 9 9);
   mem.OpAppend (mkMove 7 7 7); mem.OpSetCell 0 0 2; mem.OpReslice 1;
   mem.OpAppend (mkMove 8 8 8); mem.OpMakeMove 0].

(** A copy of the struct alone, which shares the backing array: not what
    [Clone] does, kept for contrast. *)
Definition struct_copy (p : positive) (h : mem.heap) : option (positive * mem.heap) :=
  g ← mem.games h !! p;
  let q := fresh (dom (mem.games h)) in
  Some (q, mem.store q g h).

(** The doubling policy, for running examples. *)
Definition double_cap (n : nat) : nat := (2 * n)%nat.

(** ** The player index, as the specification states it *)

(** A game of the registry that is not over has [n] as one of its two
    player names. *)
Definition plays_live_game (s : server.State) (n : string) : Prop :=
  ∃ gid g, server.Games s !! gid = Some g ∧ IsOver g = false ∧
           (Player1Name g = n ∨ Player2Name g = n).

(** The invariant of the specification, over the states the server reaches:
    the index has an entry keyed by a display name exactly when that name
    plays in a game that is not over. *)
Definition name_index_invariant : Prop :=
  ∀ (events : list server.event) (n : string),
    let s := server.run events server.init in
    is_Some (server.PlayerToGame s !! n) ↔ plays_live_game s n.

(** ** Concrete sessions *)

Definition join_msg (username : string) : ws.Message.t :=
  ws.Message.mk "join" EmptyString username 0 0 0 None EmptyString EmptyString EmptyString false EmptyString false.

Definition move_msg (column : Z) : ws.Message.t :=
  ws.Message.mk "move" EmptyString EmptyString column 0 0 None EmptyString EmptyString EmptyString false EmptyString false.

Definition reconnect_msg (gameID username : string) : ws.Message.t :=
  ws.Message.mk "reconnect" gameID username 0 0 0 None EmptyString EmptyString EmptyString false EmptyString false.

(** alice and bob connect and join; they are paired in game g1. *)
Definition two_joined : list server.event :=
  [server.Connect "c1"; server.Connect "c2";
   server.Receive "c1" (join_msg "alice") "u0" 100;
   server.Receive "c2" (join_msg "bob") "g1" 101].

(** alice reconnects to g1 on a new connection c3, then the game is played
    from the first connections until alice completes column 0. *)
Definition reconnect_then_win : list server.event :=
  two_joined ++
  [server.Connect "c3";
   server.Receive "c3" (reconnect_msg "g1" "alice") "u1" 102;
   server.Receive "c1" (move_msg 0) "u2" 103; server.Receive "c2" (move_msg 1) "u3" 104;
   server.Receive "c1" (move_msg 0) "u4" 105; server.Receive "c2" (move_msg 1) "u5" 106;
   server.Receive "c1" (move_msg 0) "u6" 107; server.Receive "c2" (move_msg 1) "u7" 108;
   server.Receive "c1" (move_msg 0) "u8" 109].

(** After the pairing alice opens a new connection c3 and joins again under
    her name, as the README describes a reconnection. *)
Definition rejoin_by_name : list server.event :=
  two_joined ++
  [server.Connect "c3"; server.Receive "c3" (join_msg "alice") "u1" 102].

(** carol connects and joins, and nobody else comes before her timer fires. *)
Definition lone_join : list server.event :=
  [server.Connect "c9"; server.Receive "c9" (join_msg "carol") "u0" 200;
   server.MatchTimeout "c9" "g2" 210].

(** ** The games of the registry *)

(** Every game of the registry is stored under its own id and, while it is
    not over, is a game reachable by play. *)
Definition registry_ok (s : server.State) : Prop :=
  ∀ gid g, server.Games s !! gid = Some g →
           ID g = gid ∧ (IsOver g = false → reachable g).

(** ** Further predicates on games *)

(** The cells of the grid. *)
Definition all_cells : list (Z * Z) := list_prod (seqZ 0 Rows) (seqZ 0 Columns).

(** The cell each record of the move history names. *)
Definition positions (g : Game) : list (Z * Z) :=
  (fun m => (Row m, Column m)) <$> Moves g.

(** The player of the move with index [i] when the players alternate from
    player 1. *)
Definition mover_of (i : nat) : Z := if Nat.even i then Player1 else Player2.

(** The move history and the board agree. *)
Record history_inv (g : Game) : Prop := {
  hist_cell : ∀ m, m ∈ Moves g →
      in_range (Row m) (Column m) = true ∧
      cell (Board g) (Row m) (Column m) = Player m ∧
      (Player m = Player1 ∨ Player m = Player2);
  hist_all : ∀ r c, cell (Board g) r c ≠ Empty →
      ∃ m, m ∈ Moves g ∧ Row m = r ∧ Column m = c;
  hist_nodup : NoDup (positions g)
}.

(** While a game is not over the players of the history alternate from
    player 1, and the current player is the one whose turn is next. *)
Definition alternates (g : Game) : Prop :=
  (∀ i m, Moves g !! i = Some m → Player m = mover_of i) ∧
  CurrentPlayer g = mover_of (length (Moves g)).

(** The terminal flags and the board agree. *)
Record flags_inv (g : Game) : Prop := {
  flags_full : IsBoardFull g = true → IsOver g = true;
  flags_over : IsOver g = true → Winner g ≠ 0 ∨ IsDraw g = true;
  flags_winner : Winner g ≠ 0 →
      IsOver g = true ∧ (Winner g = Player1 ∨ Winner g = Player2) ∧
      four_somewhere (Board g) (Winner g);
  flags_draw : IsDraw g = true → IsOver g = true ∧ IsBoardFull g = true
}.

(** ** The game tree without cuts *)

(** The maximizing loop of [minimax] with the alpha and beta bookkeeping
    and the [break] left out; [rec] is the value of a child. *)
Fixpoint plain_max (rec : Game → Z) (b : bot.Bot) (g : Game)
    (validMoves : list Z) (maxScore : Z) : Z :=
  match validMoves with
  | [] => maxScore
  | col :: rest =>
      let '(_, valid, clone) := bot.simulate g (bot.Player b) col in
      if negb valid then plain_max rec b g rest maxScore
      else plain_max rec b g rest (bot.max maxScore (rec clone))
  end.

Fixpoint plain_min (rec : Game → Z) (opponent : Z) (g : Game)
    (validMoves : list Z) (minScore : Z) : Z :=
  match validMoves with
  | [] => minScore
  | col :: rest =>
      let '(_, valid, clone) := bot.simulate g opponent col in
      if negb valid then plain_min rec opponent g rest minScore
      else plain_min rec opponent g rest (bot.min minScore (rec clone))
  end.

(** [minimax] searching every child: the value the cuts are meant to
    preserve. *)
Fixpoint full_search (b : bot.Bot) (depth : nat) (g : Game)
    (isMaximizing : bool) (opponent : Z) : Z :=
  match depth with
  | O => bot.evaluate b g opponent
  | S depth' =>
      if IsOver g then bot.evaluate b g opponent
      else
        let validMoves := GetValidMoves g in
        if (length validMoves =? 0)%nat then 0
        else if isMaximizing
        then plain_max (fun clone => full_search b depth' clone false opponent)
                       b g validMoves bot.MinInt32
        else plain_min (fun clone => full_search b depth' clone true opponent)
                       opponent g validMoves bot.MaxInt32
  end.

(** What a search with the window [(alpha, beta)] tells about the value
    [v] when it returns [r]: the value itself inside the window, an upper
    bound at or below [alpha], a lower bound at or above [beta]. *)
Definition within (alpha beta r v : Z) : Prop :=
  (r <= alpha → v <= r) ∧ (beta <= r → r <= v) ∧ (alpha < r < beta → v = r).

(** The score the third loop of [GetMove] gives a column: the search value
    of the position after the bot's disc in that column. *)
Definition score_of (b : bot.Bot) (g : Game) (col : Z) : Z :=
  full_search b (Z.to_nat (bot.MaxDepth - 1)) (game_of (bot.simulate g (bot.Player b) col))
              false (bot.opponent_of b).

(** How often the weighting loop of [GetMove] repeats a column. *)
Definition weight (col : Z) : nat :=
  if col =? 3 then 3%nat else if (col =? 2) || (col =? 4) then 2%nat else 1%nat.

(** [col] is a legal column of best score. *)
Definition best_column (b : bot.Bot) (g : Game) (col : Z) : Prop :=
  col ∈ GetValidMoves g ∧
  ∀ col', col' ∈ GetValidMoves g → score_of b g col' <= score_of b g col.

(** Neither the bot nor its opponent wins at once: the first two loops of
    [GetMove] find nothing. *)
Definition no_immediate_win (b : bot.Bot) (g : Game) : Prop :=
  ∀ col, col ∈ GetValidMoves g →
         ¬ wins_at g (bot.Player b) col ∧ ¬ wins_at g (bot.opponent_of b) col.

(** ** The games of the registry, again *)

(** A game as the handlers leave it: a game reachable by play, or such a
    game that is over with the end time [endGame] stamps on it. *)
Definition played (g : Game) : Prop :=
  ∃ g0, reachable g0 ∧ (g = g0 ∨ ∃ t, IsOver g0 = true ∧ g = with_EndTime g0 t).

(** Every game of the registry satisfies [P], a property of a game and the
    key it is stored under. *)
Definition registry_all (P : string → Game → Prop) (s : server.State) : Prop :=
  ∀ gid g, server.Games s !! gid = Some g → P gid g.

(** ** The tests of [handleMove] *)

(** [isPlayer1] and [isPlayer2] of [handleMove]. *)
Definition isPlayer1 (g : Game) (c : ws.Client.t) : bool :=
  String.eqb (Player1ID g) (ws.Client.ID c) ||
  String.eqb (Player1Name g) (ws.Client.Username c).

Definition isPlayer2 (g : Game) (c : ws.Client.t) : bool :=
  String.eqb (Player2ID g) (ws.Client.ID c) ||
  String.eqb (Player2Name g) (ws.Client.Username c).

(** [expectedPlayer] of [handleMove]. *)
Definition expectedPlayer (g : Game) (c : ws.Client.t) : Z :=
  if isPlayer2 g c then Player2 else Player1.

(** The tests a move message has to pass: the sender's [GameID] names a
    registered game [g] that is not over, the sender is one of its players,
    it is the sender's turn, and [MakeMove] accepts the column. *)
Definition move_accepted (s : server.State) (client : string) (msg : ws.Message.t)
    (g : Game) : Prop :=
  let c := server.client_at s client in
  ws.Client.GameID c ≠ EmptyString ∧
  server.Games s !! ws.Client.GameID c = Some g ∧
  IsOver g = false ∧
  (isPlayer1 g c = true ∨ isPlayer2 g c = true) ∧
  CurrentPlayer g = expectedPlayer g c ∧
  ok_of (MakeMove g (ws.Message.Column msg)) = true.

(** The state after a move [handleMove] or [makeBotMove] has played. *)
Definition after_move (gid : string) (g' : Game) (m : ws.Message.t) (now : Z)
    (s : server.State) : server.State :=
  let s := server.broadcast m (server.SetGame gid g' s) in
  if IsOver g' then server.endGame g' now s else s.

(** The winner and the reason [endGame] announces. *)
Definition announced (g : Game) : string * string :=
  if IsDraw g then (EmptyString, "draw")
  else if Winner g =? Player1 then (Player1Name g, "connect4")
  else if Winner g =? Player2 then (Player2Name g, "connect4")
  else (EmptyString, "connect4").

(** ** The search of [AddPlayer] *)

(** The test of the loop of [AddPlayer]: the waiting client [wp] has
    another id and another user name than [client]. *)
Definition eligible (s : server.State) (client wp : string) : Prop :=
  ws.Client.ID (server.client_at s wp) ≠ ws.Client.ID (server.client_at s client) ∧
  ws.Client.Username (server.client_at s wp) ≠
    ws.Client.Username (server.client_at s client).

(** The tests of [handleReconnect]: both strings are given, the game is
    registered and not over, and the user name is one of its two names. *)
Definition reconnect_accepted (s : server.State) (msg : ws.Message.t) (g : Game) : Prop :=
  ws.Message.GameID msg ≠ EmptyString ∧ ws.Message.Username msg ≠ EmptyString ∧
  server.Games s !! ws.Message.GameID msg = Some g ∧
  IsOver g = false ∧
  (Player1Name g = ws.Message.Username msg ∨ Player2Name g = ws.Message.Username msg).

(** The session up to alice's last move. *)
Definition before_the_win : list server.event := take 12 reconnect_then_win.

(** ** Package websocket: the loop of the hub and the channels of the clients

    [Hub.Run] is one goroutine: it alone writes [h.Clients] and closes
    channels.  The other goroutines act on a client's channel by single
    operations, which are events here: a handler sends with
    [SendToClient], the client's [WritePump] receives.  An operation that
    panics at run time ends the run with a fault. *)

Module hub.

(** The capacity of [Client.Send]: [make(chan []byte, 256)] in
    [handleWebSocket]. *)
Definition capacity : nat := 256.

(** A buffered channel: what is queued, oldest first, and whether the
    channel is closed.  The bytes on the channel are the JSON encoding of a
    [Message]; the model queues the message. *)
Record chan : Type := mkChan { queue : list ws.Message.t; closed : bool }.

Definition make : chan := mkChan [] false.

(** The run-time panics of the channel operations. *)
Inductive fault : Type := CloseOfClosed | SendOnClosed.

(** [select { case ch <- data: ...; default: ... }]: the channel after it
    and whether the send was taken. *)
Definition try_send (ch : chan) (data : ws.Message.t) : fault + chan * bool :=
  if closed ch then inl SendOnClosed
  else if (length (queue ch) <? capacity)%nat
  then inr (mkChan (queue ch ++ [data]) false, true)
  else inr (ch, false).

(** [close(ch)] *)
Definition close (ch : chan) : fault + chan :=
  if closed ch then inl CloseOfClosed else inr (mkChan (queue ch) true).

(** [message, ok := <-ch] in [WritePump]; nothing is taken from an empty
    channel. *)
Definition receive (ch : chan) : chan := mkChan (tail (queue ch)) (closed ch).

(** The fields of [Client] the hub uses. *)
Record Client : Type := mkClient { GameID : string; Send : chan }.

(** The [Client] structs by id, the keys of [h.Clients] and the keys of
    [h.Games]. *)
Record State : Type := mkState {
  objects : gmap string Client;
  Clients : gset string;
  Games : gset string
}.

Definition NewHub : State := mkState ∅ ∅ ∅.

Definition set_object (id : string) (c : Client) (s : State) : State :=
  mkState (<[id := c]> (objects s)) (Clients s) (Games s).

(** [delete(h.Clients, id)] *)
Definition delete_client (id : string) (s : State) : State :=
  mkState (objects s) (Clients s ∖ {[id]}) (Games s).

(** The body of the loop of [broadcastToGame] for one client. *)
Definition deliver (msg : ws.Message.t) (s : State) (id : string) : fault + State :=
  match objects s !! id with
  | None => inr s
  | Some c =>
      if String.eqb (GameID c) (ws.Message.GameID msg)
      then match try_send (Send c) msg with
           | inl f => inl f
           | inr (ch, true) => inr (set_object id (mkClient (GameID c) ch) s)
           | inr (_, false) =>
               match close (Send c) with
               | inl f => inl f
               | inr ch => inr (delete_client id (set_object id (mkClient (GameID c) ch) s))
               end
           end
      else inr s
  end.

(** [for _, client := range h.Clients { ... }].  Go leaves the order of
    the iteration open; the ids are visited in the order of [ids]. *)
Fixpoint for_each (f : State → string → fault + State) (ids : list string) (s : State)
  : fault + State :=
  match ids with
  | [] => inr s
  | id :: rest =>
      match f s id with
      | inl e => inl e
      | inr s' => for_each f rest s'
      end
  end.

(** [func (h *Hub) broadcastToGame(msg *Message)] *)
Definition broadcastToGame (msg : ws.Message.t) (s : State) : fault + State :=
  if decide (ws.Message.GameID msg ∈ Games s)
  then for_each (deliver msg) (elements (Clients s)) s
  else inr s.

(** The send at the end of [SendToClient], on the channel of the client
    the lookup has found. *)
Definition send_on (id : string) (msg : ws.Message.t) (s : State) : fault + State :=
  match objects s !! id with
  | None => inr s
  | Some c =>
      match try_send (Send c) msg with
      | inl f => inl f
      | inr (ch, _) => inr (set_object id (mkClient (GameID c) ch) s)
      end
  end.

(** [func (h *Hub) SendToClient(clientID string, msg *Message)], lookup
    and send in one step. *)
Definition SendToClient (clientID : string) (msg : ws.Message.t) (s : State)
  : fault + State :=
  if decide (clientID ∈ Clients s) then send_on clientID msg s else inr s.

(** The [Register] case of [Run], with the creation of the struct in
    [handleWebSocket]; ids are fresh uuids, and a known id changes
    nothing. *)
Definition Register (id : string) (s : State) : State :=
  match objects s !! id with
  | Some _ => s
  | None =>
      mkState (<[id := mkClient EmptyString make]> (objects s)) ({[id]} ∪ Clients s)
              (Games s)
  end.

(** The [Unregister] case of [Run]. *)
Definition Unregister (id : string) (s : State) : fault + State :=
  if decide (id ∈ Clients s)
  then
    let s := delete_client id s in
    match objects s !! id with
    | None => inr s
    | Some c =>
        match close (Send c) with
        | inl f => inl f
        | inr ch => inr (set_object id (mkClient (GameID c) ch) s)
        end
    end
  else inr s.

Inductive event : Type :=
  | EvRegister (id : string)
  | EvUnregister (id : string)
      (* the read loop of the client has ended *)
  | EvBroadcast (msg : ws.Message.t)
      (* Run takes msg from h.Broadcast *)
  | EvSendToClient (id : string) (msg : ws.Message.t)
      (* a handler calls SendToClient; lookup and send are not interrupted *)
  | EvLateSend (id : string) (msg : ws.Message.t)
      (* the send of a SendToClient call whose lookup was made earlier *)
  | EvReceive (id : string)
      (* WritePump takes a message from the channel *)
  | EvSetGameID (id gameID : string)
      (* a handler writes client.GameID *)
  | EvSetGame (gameID : string).
      (* SetGame stores a game under this id *)

Definition step (s : State) (e : event) : fault + State :=
  match e with
  | EvRegister id => inr (Register id s)
  | EvUnregister id => Unregister id s
  | EvBroadcast msg => broadcastToGame msg s
  | EvSendToClient id msg => SendToClient id msg s
  | EvLateSend id msg => send_on id msg s
  | EvReceive id =>
      match objects s !! id with
      | Some c => inr (set_object id (mkClient (GameID c) (receive (Send c))) s)
      | None => inr s
      end
  | EvSetGameID id gameID =>
      match objects s !! id with
      | Some c => inr (set_object id (mkClient gameID (Send c)) s)
      | None => inr s
      end
  | EvSetGame gameID => inr (mkState (objects s) (Clients s) ({[gameID]} ∪ Games s))
  end.

Fixpoint run (events : list event) (s : State) : fault + State :=
  match events with
  | [] => inr s
  | e :: rest =>
      match step s e with
      | inl f => inl f
      | inr s' => run rest s'
      end
  end.

End hub.

(** Every registered client has a struct whose channel is open, and no
    channel holds more than its capacity. *)
Definition channels_ok (s : hub.State) : Prop :=
  (∀ id, id ∈ hub.Clients s →
         ∃ c, hub.objects s !! id = Some c ∧ hub.closed (hub.Send c) = false) ∧
  (∀ id c, hub.objects s !! id = Some c →
           (length (hub.queue (hub.Send c)) ≤ hub.capacity)%nat).

(** What [broadcastToGame] does to a client of the game of the message:
    the struct afterwards, and whether the client stays registered. *)
Definition delivered (msg : ws.Message.t) (c : hub.Client) : hub.Client * bool :=
  if String.eqb (hub.GameID c) (ws.Message.GameID msg)
  then if (length (hub.queue (hub.Send c)) <? hub.capacity)%nat
       then (hub.mkClient (hub.GameID c)
               (hub.mkChan (hub.queue (hub.Send c) ++ [msg]) false), true)
       else (hub.mkClient (hub.GameID c) (hub.mkChan (hub.queue (hub.Send c)) true),
             false)
  else (c, true).

Definition is_late_send (e : hub.event) : bool :=
  match e with hub.EvLateSend _ _ => true | _ => false end.

(** A session of the hub: two clients of game g1 and one without a game. *)
Definition hub_session : list hub.event :=
  [hub.EvRegister "c1"; hub.EvRegister "c2"; hub.EvRegister "c3";
   hub.EvSetGame "g1"; hub.EvSetGameID "c1" "g1"; hub.EvSetGameID "c2" "g1"].

Definition hub_example : hub.State :=
  match hub.run hub_session hub.NewHub with
  | inr s => s
  | inl _ => hub.NewHub
  end.

(** The events that play a disc: a move message and a bot move. *)
Definition plays_a_disc (e : server.event) : bool :=
  match e with
  | server.Receive _ msg _ _ => String.eqb (ws.Message.Type_ msg) "move"
  | server.BotMove _ _ _ => true
  | _ => false
  end.
(** * Properties *)


(** ** Facts about the grid *)

Section BoardFacts.

Lemma wf_board_spec (b : BoardT) :
  wf_board b ↔ length b = 6%nat ∧ Forall (fun row => length row = 7%nat) b.
Proof.
  unfold wf_board, wf_boardb. rewrite andb_true_iff, Nat.eqb_eq, forallb_forall.
  rewrite Forall_forall. split; intros [H1 H2]; split; auto; intros row Hrow.
  - apply Nat.eqb_eq, H2. by apply list_elem_of_In.
  - apply Nat.eqb_eq, H2. by apply list_elem_of_In.
Qed.

Lemma wf_board_row (b : BoardT) (i : nat) :
  wf_board b → (i < 6)%nat → ∃ row, b !! i = Some row ∧ length row = 7%nat.
Proof.
  rewrite wf_board_spec. intros [Hlen Hrows] Hi.
  destruct (lookup_lt_is_Some_2 b i) as [row Hrow]; [lia|].
  exists row. split; [done|].
  rewrite Forall_forall in Hrows. apply Hrows.
  apply list_elem_of_lookup. eauto.
Qed.

Lemma in_range_spec (r c : Z) :
  in_range r c = true ↔ 0 <= r < 6 ∧ 0 <= c < 7.
Proof. unfold in_range, Rows, Columns. rewrite !andb_true_iff. lia. Qed.

Lemma in_range_false (r c : Z) :
  in_range r c = false ↔ ¬ (0 <= r < 6 ∧ 0 <= c < 7).
Proof. rewrite <- in_range_spec. destruct (in_range r c); split; congruence. Qed.

Lemma cell_out_of_range (b : BoardT) (r c : Z) :
  in_range r c = false → cell b r c = 0.
Proof. intros H. unfold cell. by rewrite H. Qed.

Lemma wf_set_cell (b : BoardT) (r c v : Z) :
  wf_board b → wf_board (set_cell b r c v).
Proof.
  rewrite !wf_board_spec. intros [Hlen Hrows]. unfold set_cell.
  destruct (in_range r c); [|done]. split.
  - by rewrite length_alter.
  - apply Forall_alter; [done|]. intros row _ Hrow. by rewrite length_insert.
Qed.

Lemma cell_set_cell_eq (b : BoardT) (r c v : Z) :
  wf_board b → in_range r c = true → cell (set_cell b r c v) r c = v.
Proof.
  intros Hwf Hin. unfold cell, set_cell. rewrite Hin.
  apply in_range_spec in Hin.
  destruct (wf_board_row b (Z.to_nat r) Hwf) as [row [Hrow Hlen]]; [lia|].
  rewrite list_lookup_alter_eq, Hrow. simpl.
  rewrite list_lookup_insert_eq; [done | lia].
Qed.

Lemma cell_set_cell_ne (b : BoardT) (r c v r' c' : Z) :
  (r', c') ≠ (r, c) → cell (set_cell b r c v) r' c' = cell b r' c'.
Proof.
  intros Hne. unfold cell, set_cell.
  destruct (in_range r c) eqn:Hin; [|done].
  destruct (in_range r' c') eqn:Hin'; [|done].
  apply in_range_spec in Hin, Hin'.
  destruct (decide (r' = r)) as [->|Hr].
  - rewrite list_lookup_alter_eq.
    destruct (b !! Z.to_nat r) as [row|]; [|done]. simpl.
    rewrite list_lookup_insert_ne; [done|].
    intros Heq. apply Hne. f_equal. lia.
  - rewrite list_lookup_alter_ne; [done | lia].
Qed.

Lemma cell_set_cell (b : BoardT) (r c v r' c' : Z) :
  wf_board b → in_range r c = true →
  cell (set_cell b r c v) r' c' =
    if decide ((r', c') = (r, c)) then v else cell b r' c'.
Proof.
  intros Hwf Hin. case_decide as Heq.
  - injection Heq as -> ->. by apply cell_set_cell_eq.
  - by apply cell_set_cell_ne.
Qed.

Lemma wf_zero_board : wf_board zero_board.
Proof. reflexivity. Qed.

Lemma cell_zero_board (r c : Z) : cell zero_board r c = 0.
Proof.
  unfold cell. destruct (in_range r c) eqn:Hin; [|done].
  apply in_range_spec in Hin.
  assert (Hr : ∃ i, Z.to_nat r = i ∧ (i < 6)%nat) by (eexists; split; [done|lia]).
  assert (Hc : ∃ j, Z.to_nat c = j ∧ (j < 7)%nat) by (eexists; split; [done|lia]).
  destruct Hr as (i & -> & Hi), Hc as (j & -> & Hj).
  do 6 (destruct i as [|i]; [do 7 (destruct j as [|j]; [reflexivity|]); lia|]). lia.
Qed.

End BoardFacts.

Lemma lowest_empty_none (b : BoardT) (c : Z) (n : nat) :
  lowest_empty b c n = -1 ↔ ∀ r, 0 <= r < Z.of_nat n → cell b r c ≠ Empty.
Proof.
  induction n as [|n IH]; simpl.
  - split; [intros _ r Hr; lia | done].
  - destruct (cell b (Z.of_nat n) c =? Empty) eqn:Hc.
    + apply Z.eqb_eq in Hc. split; [lia|].
      intros H. exfalso. apply (H (Z.of_nat n)); [lia | done].
    + apply Z.eqb_neq in Hc. rewrite IH. split; intros H r Hr.
      * destruct (decide (r = Z.of_nat n)) as [->|]; [done | apply H; lia].
      * apply H. lia.
Qed.

Lemma lowest_empty_some (b : BoardT) (c : Z) (n : nat) (row : Z) :
  lowest_empty b c n = row → row ≠ -1 →
  0 <= row < Z.of_nat n ∧ cell b row c = Empty ∧
  ∀ r, row < r < Z.of_nat n → cell b r c ≠ Empty.
Proof.
  revert row. induction n as [|n IH]; simpl; intros row Hrow Hne; [congruence|].
  destruct (cell b (Z.of_nat n) c =? Empty) eqn:Hc.
  - apply Z.eqb_eq in Hc. subst row. repeat split; [lia | lia | done | intros; lia].
  - apply Z.eqb_neq in Hc. destruct (IH row Hrow Hne) as (Hr & He & Hbelow).
    repeat split; [lia | lia | done |].
    intros r Hr'. destruct (decide (r = Z.of_nat n)) as [->|]; [done | apply Hbelow; lia].
Qed.

Lemma lowest_empty_range (b : BoardT) (c : Z) (n : nat) :
  -1 <= lowest_empty b c n < Z.of_nat n.
Proof.
  induction n as [|n IH]; simpl; [lia|].
  destruct (cell b (Z.of_nat n) c =? Empty); lia.
Qed.

(** ** Unfolding [MakeMove] *)

Lemma MakeMove_eq (g : Game) (column : Z) :
  MakeMove g column =
    if (column <? 0) || (column >=? Columns) then (-1, false, g)
    else
      let row := lowest_empty (Board g) column 6 in
      if row =? -1 then (-1, false, g)
      else
        let g1 := placed g row column in
        if CheckWin g1 row column
        then (row, true, with_IsOver (with_Winner g1 (CurrentPlayer g)) true)
        else if IsBoardFull g1
        then (row, true, with_IsOver (with_IsDraw g1 true) true)
        else (row, true, switch_turn g1).
Proof. reflexivity. Qed.

Lemma MakeMove_inv (g : Game) (column : Z) :
  MakeMove_cases g column (MakeMove g column).
Proof.
  rewrite MakeMove_eq.
  destruct ((column <? 0) || (column >=? Columns)) eqn:Hrange.
  { apply mm_out_of_range. apply orb_true_iff in Hrange. unfold Columns in *. lia. }
  apply orb_false_iff in Hrange.
  assert (0 <= column < Columns) by (unfold Columns in *; lia).
  cbv zeta. destruct (lowest_empty (Board g) column 6 =? -1) eqn:Hrow.
  { apply mm_column_full; [done|]. apply Z.eqb_eq in Hrow.
    intros r Hr. eapply lowest_empty_none; [exact Hrow | unfold Rows in *; lia]. }
  apply Z.eqb_neq in Hrow.
  destruct (CheckWin _ _ _) eqn:Hwin; [by apply mm_win|].
  destruct (IsBoardFull _) eqn:Hfull; [by apply mm_draw | by apply mm_next].
Qed.


(** ** The win check *)

Lemma scan_line_spec (p : Z) (vs : list Z) (k : Z) :
  0 <= k < 4 →
  scan_line p vs k = true ↔
    (∃ i, run4 p vs i) ∨
    (0 < k ∧ ∀ j, (j < Z.to_nat (4 - k))%nat → vs !! j = Some p).
Proof.
  revert k. induction vs as [|v rest IH]; intros k Hk; simpl.
  - split; [done|]. intros [[i Hrun]|[Hpos Hfirst]].
    + specialize (Hrun 0%nat). rewrite lookup_nil in Hrun. discriminate Hrun. lia.
    + specialize (Hfirst 0%nat). rewrite lookup_nil in Hfirst. discriminate Hfirst. lia.
  - destruct (v =? p) eqn:Hv.
    + apply Z.eqb_eq in Hv. subst v.
      destruct (k + 1 >=? 4) eqn:Hlast.
      * split; [|done]. intros _. right. split; [lia|].
        intros j Hj. assert (j = 0%nat) as -> by lia. done.
      * rewrite IH by lia. split.
        -- intros [[i Hrun]|[_ Hfirst]].
           ++ left. exists (S i). intros j Hj. by apply Hrun.
           ++ destruct (decide (k = 0)) as [->|Hk0].
              ** left. exists 0%nat. intros [|j] Hj; [done|].
                 simpl. apply Hfirst. lia.
              ** right. split; [lia|]. intros [|j] Hj; [done|].
                 simpl. apply Hfirst. lia.
        -- intros [[i Hrun]|[Hpos Hfirst]].
           ++ destruct i as [|i].
              ** right. split; [lia|]. intros j Hj. apply (Hrun (S j)). lia.
              ** left. exists i. intros j Hj. by apply (Hrun j).
           ++ right. split; [lia|]. intros j Hj. apply (Hfirst (S j)). lia.
    + apply Z.eqb_neq in Hv. rewrite IH by lia. split.
      * intros [[i Hrun]|[Hpos _]]; [|lia]. left. exists (S i).
        intros j Hj. by apply Hrun.
      * intros [[i Hrun]|[Hpos Hfirst]].
        -- destruct i as [|i].
           ++ specialize (Hrun 0%nat). simpl in Hrun. exfalso. apply Hv.
              assert (Some v = Some p) as [= ->] by (apply Hrun; lia). done.
           ++ left. exists i. intros j Hj. by apply (Hrun j).
        -- specialize (Hfirst 0%nat). simpl in Hfirst. exfalso. apply Hv.
           assert (Some v = Some p) as [= ->] by (apply Hfirst; lia). done.
Qed.

Lemma scan_line_run4 (p : Z) (vs : list Z) :
  scan_line p vs 0 = true ↔ ∃ i, run4 p vs i.
Proof.
  rewrite scan_line_spec by lia. split; [|by left].
  intros [H|[Hpos _]]; [done | lia].
Qed.

(** The two diagonal scans are [scan_line] over the cells they visit. *)
Lemma diag_scan_cells (b : BoardT) (p : Z) (fuel : nat) (sr sc k : Z) :
  diag_scan b p fuel sr sc k = scan_line p (diag_cells b fuel sr sc) k.
Proof.
  revert sr sc k. induction fuel as [|fuel IH]; intros sr sc k; simpl; [done|].
  destruct ((sr <? Rows) && (sc <? Columns)); [|done]. simpl.
  destruct (cell b sr sc =? p); [destruct (k + 1 >=? 4); [done|]|]; apply IH.
Qed.

Lemma anti_scan_cells (b : BoardT) (p : Z) (fuel : nat) (sr sc k : Z) :
  anti_scan b p fuel sr sc k = scan_line p (anti_cells b fuel sr sc) k.
Proof.
  revert sr sc k. induction fuel as [|fuel IH]; intros sr sc k; simpl; [done|].
  destruct ((sr <? Rows) && (sc >=? 0)); [|done]. simpl.
  destruct (cell b sr sc =? p); [destruct (k + 1 >=? 4); [done|]|]; apply IH.
Qed.

Lemma diag_cells_lookup (b : BoardT) (fuel : nat) (sr sc : Z) (n : nat) :
  diag_cells b fuel sr sc !! n =
    if (n <? fuel)%nat && (sr + Z.of_nat n <? Rows) && (sc + Z.of_nat n <? Columns)
    then Some (cell b (sr + Z.of_nat n) (sc + Z.of_nat n))
    else None.
Proof.
  revert sr sc n. induction fuel as [|fuel IH]; intros sr sc n; simpl.
  - by rewrite lookup_nil.
  - destruct ((sr <? Rows) && (sc <? Columns)) eqn:Hin.
    + destruct n as [|n]; simpl.
      * rewrite !Z.add_0_r. by rewrite Hin.
      * rewrite IH. replace (sr + 1 + Z.of_nat n) with (sr + Z.pos (Pos.of_succ_nat n)) by lia.
        replace (sc + 1 + Z.of_nat n) with (sc + Z.pos (Pos.of_succ_nat n)) by lia.
        done.
    + rewrite lookup_nil.
      destruct (_ && _ && _) eqn:Hc; [|done]. exfalso.
      apply andb_false_iff in Hin. rewrite !andb_true_iff in Hc.
      rewrite !Z.ltb_lt in Hc. rewrite !Z.ltb_ge in Hin. lia.
Qed.

Lemma anti_cells_lookup (b : BoardT) (fuel : nat) (sr sc : Z) (n : nat) :
  anti_cells b fuel sr sc !! n =
    if (n <? fuel)%nat && (sr + Z.of_nat n <? Rows) && (sc - Z.of_nat n >=? 0)
    then Some (cell b (sr + Z.of_nat n) (sc - Z.of_nat n))
    else None.
Proof.
  revert sr sc n. induction fuel as [|fuel IH]; intros sr sc n; simpl.
  - by rewrite lookup_nil.
  - destruct ((sr <? Rows) && (sc >=? 0)) eqn:Hin.
    + destruct n as [|n]; simpl.
      * rewrite Z.add_0_r, Z.sub_0_r. by rewrite Hin.
      * rewrite IH. replace (sr + 1 + Z.of_nat n) with (sr + Z.pos (Pos.of_succ_nat n)) by lia.
        replace (sc - 1 - Z.of_nat n) with (sc - Z.pos (Pos.of_succ_nat n)) by lia.
        done.
    + rewrite lookup_nil.
      destruct (_ && _ && _) eqn:Hc; [|done]. exfalso.
      apply andb_false_iff in Hin. rewrite !andb_true_iff in Hc.
      rewrite Z.ltb_lt, Z.geb_le in Hc. rewrite Z.ltb_ge in Hin.
      destruct Hin as [Hin|Hin]; [lia|].
      assert (sc < 0) by (destruct (sc >=? 0) eqn:E; [done | rewrite Z.geb_leb in E; lia]).
      lia.
Qed.

(** The walks back to the edge end where the loop condition fails: the
    fuel [Z.to_nat row] is enough. *)
Lemma diag_start_spec (n : nat) (r c : Z) :
  0 <= r → 0 <= c → r <= Z.of_nat n →
  diag_start n r c = (r - Z.min r c, c - Z.min r c).
Proof.
  revert r c. induction n as [|n IH]; intros r c Hr Hc Hn; simpl.
  - f_equal; lia.
  - destruct ((r >? 0) && (c >? 0)) eqn:Hgo.
    + apply andb_true_iff in Hgo as [H1 H2]. rewrite IH by lia. f_equal; lia.
    + apply andb_false_iff in Hgo. f_equal; lia.
Qed.

Lemma anti_start_spec (n : nat) (r c : Z) :
  0 <= r → c <= 6 → r <= Z.of_nat n →
  anti_start n r c = (r - Z.min r (6 - c), c + Z.min r (6 - c)).
Proof.
  revert r c. induction n as [|n IH]; intros r c Hr Hc Hn; simpl.
  - f_equal; lia.
  - unfold Columns. destruct ((r >? 0) && (c <? 7 - 1)) eqn:Hgo.
    + apply andb_true_iff in Hgo as [H1 H2]. rewrite IH by lia. f_equal; lia.
    + apply andb_false_iff in Hgo. f_equal; lia.
Qed.

(** The scans end where their loop condition fails: more fuel than
    [Rows - startRow] changes nothing. *)
Lemma diag_scan_fuel (b : BoardT) (p : Z) (n : nat) (sr sc k : Z) :
  (Z.to_nat (Rows - sr) ≤ n)%nat →
  diag_scan b p n sr sc k = diag_scan b p (Z.to_nat (Rows - sr)) sr sc k.
Proof.
  intros Hn. rewrite !diag_scan_cells. f_equal. apply list_eq. intros i.
  rewrite !diag_cells_lookup. unfold Rows in *.
  destruct (sr + Z.of_nat i <? 6) eqn:Hr.
  - apply Z.ltb_lt in Hr.
    replace (i <? n)%nat with true by (symmetry; apply Nat.ltb_lt; lia).
    replace (i <? Z.to_nat (6 - sr))%nat with true by (symmetry; apply Nat.ltb_lt; lia).
    done.
  - by rewrite !andb_false_r.
Qed.

Lemma anti_scan_fuel (b : BoardT) (p : Z) (n : nat) (sr sc k : Z) :
  (Z.to_nat (Rows - sr) ≤ n)%nat →
  anti_scan b p n sr sc k = anti_scan b p (Z.to_nat (Rows - sr)) sr sc k.
Proof.
  intros Hn. rewrite !anti_scan_cells. f_equal. apply list_eq. intros i.
  rewrite !anti_cells_lookup. unfold Rows in *.
  destruct (sr + Z.of_nat i <? 6) eqn:Hr.
  - apply Z.ltb_lt in Hr.
    replace (i <? n)%nat with true by (symmetry; apply Nat.ltb_lt; lia).
    replace (i <? Z.to_nat (6 - sr))%nat with true by (symmetry; apply Nat.ltb_lt; lia).
    done.
  - by rewrite !andb_false_r.
Qed.

(** The walks back end where their loop condition fails. *)
Lemma diag_start_fuel (n : nat) (r c : Z) :
  0 <= r → 0 <= c → (Z.to_nat r ≤ n)%nat →
  diag_start n r c = diag_start (Z.to_nat r) r c.
Proof. intros Hr Hc Hn. rewrite !diag_start_spec by lia. done. Qed.

Lemma anti_start_fuel (n : nat) (r c : Z) :
  0 <= r → c <= 6 → (Z.to_nat r ≤ n)%nat →
  anti_start n r c = anti_start (Z.to_nat r) r c.
Proof. intros Hr Hc Hn. rewrite !anti_start_spec by lia. done. Qed.

Lemma CheckWin_eq {M} (g : GameOf M) (row col : Z) :
  0 <= row < 6 → 0 <= col < 7 →
  let b := Board g in
  let p := cell b row col in
  let m := Z.min row col in
  let m' := Z.min row (6 - col) in
  CheckWin g row col =
    scan_line p (map (fun c => cell b row (Z.of_nat c)) (seq 0 7)) 0
    || scan_line p (map (fun r => cell b (Z.of_nat r) col) (seq 0 6)) 0
    || scan_line p (diag_cells b (Z.to_nat (6 - (row - m))) (row - m) (col - m)) 0
    || scan_line p (anti_cells b (Z.to_nat (6 - (row - m'))) (row - m') (col + m')) 0.
Proof.
  intros Hr Hc. cbv zeta. unfold CheckWin.
  rewrite diag_start_spec, anti_start_spec by lia.
  rewrite diag_scan_cells, anti_scan_cells. unfold Rows.
  repeat match goal with |- context [if ?x then true else _] => destruct x end; done.
Qed.

Lemma row_cells_lookup (b : BoardT) (row : Z) (n : nat) :
  map (fun c => cell b row (Z.of_nat c)) (seq 0 7) !! n =
    if (n <? 7)%nat then Some (cell b row (Z.of_nat n)) else None.
Proof.
  change (map ?f ?l) with (f <$> l). rewrite list_lookup_fmap.
  destruct (n <? 7)%nat eqn:Hn.
  - apply Nat.ltb_lt in Hn. by rewrite lookup_seq_lt.
  - apply Nat.ltb_ge in Hn. by rewrite lookup_seq_ge.
Qed.

Lemma col_cells_lookup (b : BoardT) (col : Z) (n : nat) :
  map (fun r => cell b (Z.of_nat r) col) (seq 0 6) !! n =
    if (n <? 6)%nat then Some (cell b (Z.of_nat n) col) else None.
Proof.
  change (map ?f ?l) with (f <$> l). rewrite list_lookup_fmap.
  destruct (n <? 6)%nat eqn:Hn.
  - apply Nat.ltb_lt in Hn. by rewrite lookup_seq_lt.
  - apply Nat.ltb_ge in Hn. by rewrite lookup_seq_ge.
Qed.

Lemma elem_of_directions (dr dc : Z) :
  (dr, dc) ∈ directions →
  (dr = 0 ∧ dc = 1) ∨ (dr = 1 ∧ dc = 0) ∨ (dr = 1 ∧ dc = 1) ∨ (dr = 1 ∧ dc = -1).
Proof.
  unfold directions. intros H.
  repeat (apply elem_of_cons in H as [[= -> ->]|H]; [tauto|]).
  by apply elem_of_nil in H.
Qed.

(** The win check finds every four in a row through the cell just played. *)
Lemma CheckWin_complete {M} (g : GameOf M) (row col : Z) :
  0 <= row < 6 → 0 <= col < 7 →
  four_through (Board g) (cell (Board g) row col) row col →
  CheckWin g row col = true.
Proof.
  intros Hr Hc (dr & dc & k & Hdir & Hk & Hfour).
  rewrite CheckWin_eq by done. cbv zeta. rewrite !orb_true_iff.
  set (b := Board g) in *. set (p := cell b row col) in *.
  assert (Hcells : ∀ j, (j < 4)%nat →
            (0 <= row - k * dr + Z.of_nat j * dr < 6 ∧
             0 <= col - k * dc + Z.of_nat j * dc < 7) ∧
            cell b (row - k * dr + Z.of_nat j * dr) (col - k * dc + Z.of_nat j * dc) = p).
  { intros j Hj. destruct (Hfour (Z.of_nat j)) as [Hin Hcell]; [lia|].
    apply in_range_spec in Hin. done. }
  apply elem_of_directions in Hdir as [[-> ->]|[[-> ->]|[[-> ->]|[-> ->]]]].
  - left. left. left. apply scan_line_run4. exists (Z.to_nat (col - k)).
    destruct (Hcells 0%nat) as [[_ Hin0] _]; [lia|].
    intros j Hj. destruct (Hcells j Hj) as [[_ Hin] Hcell].
    rewrite row_cells_lookup.
    destruct (_ <? 7)%nat eqn:Hlt; [|apply Nat.ltb_ge in Hlt; lia].
    rewrite <- Hcell. do 2 f_equal; lia.
  - left. left. right. apply scan_line_run4. exists (Z.to_nat (row - k)).
    destruct (Hcells 0%nat) as [[Hin0 _] _]; [lia|].
    intros j Hj. destruct (Hcells j Hj) as [[Hin _] Hcell].
    rewrite col_cells_lookup.
    destruct (_ <? 6)%nat eqn:Hlt; [|apply Nat.ltb_ge in Hlt; lia].
    rewrite <- Hcell. do 2 f_equal; lia.
  - left. right. apply scan_line_run4.
    destruct (Hcells 0%nat) as [[Hin0 Hin0'] _]; [lia|].
    exists (Z.to_nat (Z.min row col - k)).
    intros j Hj. destruct (Hcells j Hj) as [[Hin Hin'] Hcell].
    rewrite diag_cells_lookup. unfold Rows, Columns.
    destruct (_ && _ && _) eqn:Hcond.
    + rewrite <- Hcell. do 2 f_equal; lia.
    + exfalso. rewrite !andb_false_iff, Nat.ltb_ge, !Z.ltb_ge in Hcond. lia.
  - right. apply scan_line_run4.
    destruct (Hcells 0%nat) as [[Hin0 Hin0'] _]; [lia|].
    exists (Z.to_nat (Z.min row (6 - col) - k)).
    intros j Hj. destruct (Hcells j Hj) as [[Hin Hin'] Hcell].
    rewrite anti_cells_lookup. unfold Rows.
    destruct (_ && _ && _) eqn:Hcond.
    + rewrite <- Hcell. do 2 f_equal; lia.
    + exfalso. rewrite !andb_false_iff, Nat.ltb_ge, Z.ltb_ge in Hcond.
      destruct Hcond as [[Hcond|Hcond]|Hcond]; [lia | lia |].
      rewrite Z.geb_leb in Hcond. apply Z.leb_gt in Hcond. lia.
Qed.

(** When the win check succeeds there are four in a row of the colour of
    the cell just played. *)
Lemma CheckWin_sound {M} (g : GameOf M) (row col : Z) :
  0 <= row < 6 → 0 <= col < 7 →
  CheckWin g row col = true →
  four_somewhere (Board g) (cell (Board g) row col).
Proof.
  intros Hr Hc. rewrite CheckWin_eq by done. cbv zeta. rewrite !orb_true_iff.
  set (b := Board g) in *. set (p := cell b row col) in *.
  intros [[[Hscan|Hscan]|Hscan]|Hscan]; apply scan_line_run4 in Hscan as [i Hrun].
  - exists row, (Z.of_nat i), 0, 1. split; [apply list_elem_of_In; simpl; tauto|].
    intros z Hz. specialize (Hrun (Z.to_nat z)). rewrite row_cells_lookup in Hrun.
    destruct (_ <? 7)%nat eqn:Hlt; [|by discriminate Hrun; lia].
    apply Nat.ltb_lt in Hlt. injection Hrun as Hcell; [|lia].
    split; [apply in_range_spec; lia|]. rewrite <- Hcell. f_equal; lia.
  - exists (Z.of_nat i), col, 1, 0. split; [apply list_elem_of_In; simpl; tauto|].
    intros z Hz. specialize (Hrun (Z.to_nat z)). rewrite col_cells_lookup in Hrun.
    destruct (_ <? 6)%nat eqn:Hlt; [|by discriminate Hrun; lia].
    apply Nat.ltb_lt in Hlt. injection Hrun as Hcell; [|lia].
    split; [apply in_range_spec; lia|]. rewrite <- Hcell. f_equal; lia.
  - exists (row - Z.min row col + Z.of_nat i), (col - Z.min row col + Z.of_nat i), 1, 1.
    split; [apply list_elem_of_In; simpl; tauto|].
    intros z Hz. specialize (Hrun (Z.to_nat z)). rewrite diag_cells_lookup in Hrun.
    destruct (_ && _ && _) eqn:Hcond; [|by discriminate Hrun; lia].
    unfold Rows, Columns in Hcond. rewrite !andb_true_iff, !Z.ltb_lt in Hcond.
    injection Hrun as Hcell; [|lia].
    split; [apply in_range_spec; lia|]. rewrite <- Hcell. f_equal; lia.
  - exists (row - Z.min row (6 - col) + Z.of_nat i),
           (col + Z.min row (6 - col) - Z.of_nat i), 1, (-1).
    split; [apply list_elem_of_In; simpl; tauto|].
    intros z Hz. specialize (Hrun (Z.to_nat z)). rewrite anti_cells_lookup in Hrun.
    destruct (_ && _ && _) eqn:Hcond; [|by discriminate Hrun; lia].
    unfold Rows in Hcond. rewrite !andb_true_iff, Z.ltb_lt, Z.geb_leb, Z.leb_le in Hcond.
    injection Hrun as Hcell; [|lia].
    split; [apply in_range_spec; lia|]. rewrite <- Hcell. f_equal; lia.
Qed.

Lemma four_somewhere_any_four (b : BoardT) (p : Z) :
  p ≠ Empty → four_somewhere b p → any_four b = true.
Proof.
  intros Hp (r0 & c0 & dr & dc & Hdir & Hfour).
  destruct (Hfour 0) as [Hin0 Hcell0]; [lia|].
  rewrite !Z.mul_0_l, !Z.add_0_r in Hin0, Hcell0.
  apply in_range_spec in Hin0 as [Hr0 Hc0].
  unfold any_four. apply existsb_exists. exists r0.
  split; [apply list_elem_of_In, elem_of_seqZ; unfold Rows; lia|].
  apply existsb_exists. exists c0.
  split; [apply list_elem_of_In, elem_of_seqZ; unfold Columns; lia|].
  apply existsb_exists. exists (dr, dc).
  split; [by apply list_elem_of_In|].
  rewrite Hcell0. apply andb_true_iff. split.
  - apply negb_true_iff, Z.eqb_neq. done.
  - apply forallb_forall. intros i Hi.
    apply list_elem_of_In, elem_of_seqZ in Hi.
    destruct (Hfour i) as [Hin Hcell]; [lia|].
    rewrite Hin, Hcell, Z.eqb_refl. done.
Qed.

(** ** Invariants of the games reachable by play *)

Lemma IsBoardFull_spec {M} (g : GameOf M) :
  IsBoardFull g = true ↔ ∀ c, 0 <= c < Columns → cell (Board g) 0 c ≠ Empty.
Proof.
  unfold IsBoardFull. rewrite forallb_forall. split.
  - intros H c Hc. specialize (H (Z.to_nat c)).
    rewrite Z2Nat.id in H by lia.
    apply negb_true_iff, Z.eqb_neq in H; [done|].
    apply in_seq. unfold Columns in Hc. lia.
  - intros H n Hn. apply in_seq in Hn.
    apply negb_true_iff, Z.eqb_neq, H. unfold Columns. lia.
Qed.

Lemma GetValidMoves_spec {M} (g : GameOf M) (c : Z) :
  c ∈ GetValidMoves g ↔ 0 <= c < Columns ∧ cell (Board g) 0 c = Empty.
Proof.
  unfold GetValidMoves. rewrite list_elem_of_fmap. split.
  - intros (n & -> & Hn). apply list_elem_of_filter in Hn as [Hcell Hn].
    apply list_elem_of_In, in_seq in Hn. unfold Columns. split; [lia | done].
  - intros [Hc Hcell]. exists (Z.to_nat c). rewrite Z2Nat.id by lia.
    split; [done|]. apply list_elem_of_filter.
    split; [by rewrite Z2Nat.id by lia|].
    apply list_elem_of_In, in_seq. unfold Columns in Hc. lia.
Qed.

Lemma full_column_of_top (b : BoardT) (c : Z) :
  no_floating b → 0 <= c < Columns → cell b 0 c ≠ Empty → column_full b c.
Proof.
  intros Hg Hc Htop r Hr. destruct (decide (r = 0)) as [->|]; [done|].
  apply (Hg 0 c); unfold Rows in *; [lia | done | done | lia].
Qed.

Lemma no_floating_placed (b : BoardT) (c v : Z) :
  wf_board b → no_floating b → 0 <= c < Columns →
  lowest_empty b c 6 ≠ -1 →
  no_floating (set_cell b (lowest_empty b c 6) c v).
Proof.
  intros Hwf Hg Hc Hrow.
  destruct (lowest_empty_some b c 6 _ eq_refl Hrow) as (Hr & Hempty & Hbelow).
  set (row := lowest_empty b c 6) in *.
  assert (Hin : in_range row c = true)
    by (apply in_range_spec; unfold Columns in *; lia).
  intros r k Hr' Hk Hcell r' Hr''.
  rewrite cell_set_cell in Hcell |- * by done.
  case_decide as Hd.
  - injection Hd as -> ->.
    case_decide as Hd'; [injection Hd' as ->; lia|].
    apply Hbelow. unfold Rows in *. lia.
  - case_decide as Hd'.
    + injection Hd' as -> ->. exfalso.
      apply (Hg r c Hr' Hk Hcell row); [lia | done].
    + by apply (Hg r k).
Qed.

Lemma window_meets_cell (r0 c0 dr dc row c : Z) :
  (∃ k, 0 <= k < 4 ∧ r0 + k * dr = row ∧ c0 + k * dc = c) ∨
  (∀ i, 0 <= i < 4 → (r0 + i * dr, c0 + i * dc) ≠ (row, c)).
Proof.
  destruct (decide (r0 + 0 * dr = row ∧ c0 + 0 * dc = c)) as [H0|H0]; [left; exists 0; lia|].
  destruct (decide (r0 + 1 * dr = row ∧ c0 + 1 * dc = c)) as [H1|H1]; [left; exists 1; lia|].
  destruct (decide (r0 + 2 * dr = row ∧ c0 + 2 * dc = c)) as [H2|H2]; [left; exists 2; lia|].
  destruct (decide (r0 + 3 * dr = row ∧ c0 + 3 * dc = c)) as [H3|H3]; [left; exists 3; lia|].
  right. intros i Hi [= Hr Hc].
  assert (Hcases : i = 0 ∨ i = 1 ∨ i = 2 ∨ i = 3) by lia.
  destruct Hcases as [-> | [-> | [-> | ->]]]; tauto.
Qed.

(** A disc that does not pass the win check creates no four in a row. *)
Lemma no_four_placed {M} (g' : GameOf M) (b : BoardT) (row c v : Z) :
  wf_board b → 0 <= row < 6 → 0 <= c < 7 →
  Board g' = set_cell b row c v →
  (∀ p, p ≠ Empty → ¬ four_somewhere b p) →
  CheckWin g' row c = false →
  ∀ p, p ≠ Empty → ¬ four_somewhere (Board g') p.
Proof.
  intros Hwf Hrow Hc Hb Hnone Hcheck p Hp (r0 & c0 & dr & dc & Hdir & Hfour).
  assert (Hin : in_range row c = true) by (apply in_range_spec; lia).
  destruct (window_meets_cell r0 c0 dr dc row c) as [(k & Hk & Hr0 & Hc0)|Hmiss].
  - assert (Hcell : cell (Board g') row c = p).
    { destruct (Hfour k Hk) as [_ Hcell]. by rewrite Hr0, Hc0 in Hcell. }
    assert (Htrue : CheckWin g' row c = true); [|congruence].
    apply CheckWin_complete; [done | done |]. rewrite Hcell.
    exists dr, dc, k. split; [done|]. split; [done|].
    replace (row - k * dr) with r0 by lia. replace (c - k * dc) with c0 by lia. done.
  - apply (Hnone p Hp). exists r0, c0, dr, dc. split; [done|].
    intros i Hi. destruct (Hfour i Hi) as [Hrange Hcell]. split; [done|].
    rewrite Hb, cell_set_cell_ne in Hcell; [done | by apply Hmiss].
Qed.

Lemma game_inv_NewGame id p1ID p1Name p2ID p2Name isBot start :
  game_inv (with_StartTime (NewGame id p1ID p1Name p2ID p2Name isBot) start).
Proof.
  split; simpl; [apply wf_zero_board | | by left | done | done |].
  - intros r c _ _ Hcell. by rewrite cell_zero_board in Hcell.
  - intros _ p Hp (r0 & c0 & dr & dc & _ & Hfour).
    destruct (Hfour 0) as [_ Hcell]; [lia|]. by rewrite cell_zero_board in Hcell.
Qed.

Lemma MakeMove_needs_room (g : Game) (c : Z) :
  no_floating (Board g) → ok_of (MakeMove g c) = true → IsBoardFull g = false.
Proof.
  intros Hg Hok. destruct (IsBoardFull g) eqn:Hfull; [|done]. exfalso.
  rewrite IsBoardFull_spec in Hfull.
  destruct (MakeMove_inv g c) as [ | |row Hc -> Hrow _|row Hc -> Hrow _ _|row Hc -> Hrow _ _];
    simpl in Hok; try done;
    destruct (lowest_empty_some _ _ _ _ eq_refl Hrow) as (Hr & Hempty & _);
    apply (full_column_of_top _ c Hg Hc (Hfull c Hc) (lowest_empty (Board g) c 6));
    unfold Rows; (lia || done).
Qed.

Lemma game_inv_MakeMove (g : Game) (c : Z) :
  game_inv g → ok_of (MakeMove g c) = true → game_inv (game_of (MakeMove g c)).
Proof.
  intros Hinv Hok.
  pose proof (MakeMove_needs_room g c (inv_gravity g Hinv) Hok) as Hroom.
  assert (Hnodraw : IsDraw g = false).
  { destruct (IsDraw g) eqn:Hd; [|done].
    rewrite (inv_draw g Hinv Hd) in Hroom. done. }
  destruct Hinv as [Hwf Hgrav Hpl Hdraw Hlive Hfour].
  destruct (MakeMove_inv g c) as [ | |row Hc Heq Hrow Hwin|row Hc Heq Hrow Hwin Hfull
                                  |row Hc Heq Hrow Hwin Hfull];
    simpl in Hok; try done; unfold game_of; simpl.
  - subst row. split; simpl;
      [by apply wf_set_cell | by apply no_floating_placed | done | congruence | done | done].
  - subst row. split; simpl;
      [by apply wf_set_cell | by apply no_floating_placed | done | done | done | done].
  - assert (Hnew : IsOver g = false → ∀ p, p ≠ Empty →
              ¬ four_somewhere (set_cell (Board g) row c (CurrentPlayer g)) p).
    { intros Hover.
      destruct (lowest_empty_some _ _ _ _ (eq_sym Heq) Hrow) as (Hr & _ & _).
      apply (no_four_placed (placed g row c) (Board g) row c (CurrentPlayer g));
        unfold Columns in *; try done; try lia.
      by apply Hfour. }
    subst row. unfold switch_turn. simpl.
    destruct (CurrentPlayer g =? Player1); split; simpl;
      [by apply wf_set_cell | by apply no_floating_placed | by right | congruence | done | done
      |by apply wf_set_cell | by apply no_floating_placed | by left | congruence | done | done].
Qed.

Lemma game_inv_play (cols : list Z) (g g' : Game) :
  game_inv g → play g cols = Some g' → game_inv g'.
Proof.
  revert g. induction cols as [|c cols IH]; simpl; intros g Hinv Hplay.
  - by injection Hplay as <-.
  - pose proof (game_inv_MakeMove g c Hinv) as Hstep.
    destruct (MakeMove g c) as [[row ok] g1] eqn:Hmm. unfold ok_of, game_of in Hstep.
    simpl in Hstep. destruct ok; [|done]. by apply (IH g1); [apply Hstep|].
Qed.

Lemma reachable_inv (g : Game) : reachable g → game_inv g.
Proof.
  intros (id & p1ID & p1Name & p2ID & p2Name & isBot & start & cols & Hplay).
  eapply game_inv_play; [apply game_inv_NewGame | exact Hplay].
Qed.

(** ** Failure of [MakeMove] *)

Lemma column_full_no_row (b : BoardT) (c : Z) :
  column_full b c ↔ lowest_empty b c 6 = -1.
Proof.
  rewrite lowest_empty_none. unfold column_full, Rows.
  split; intros H r Hr; apply H; lia.
Qed.

Lemma MakeMove_ok_iff (g : Game) (c : Z) :
  ok_of (MakeMove g c) = true ↔ 0 <= c < Columns ∧ ¬ column_full (Board g) c.
Proof.
  destruct (MakeMove_inv g c) as [Hc|Hc Hfull|row Hc -> Hrow _|row Hc -> Hrow _ _
                                 |row Hc -> Hrow _ _]; unfold ok_of; simpl.
  - split; [done | lia].
  - split; [done | tauto].
  - rewrite column_full_no_row. tauto.
  - rewrite column_full_no_row. tauto.
  - rewrite column_full_no_row. tauto.
Qed.

Lemma MakeMove_fail_same (g : Game) (c : Z) :
  ok_of (MakeMove g c) = false → MakeMove g c = (-1, false, g).
Proof.
  destruct (MakeMove_inv g c); unfold ok_of; simpl; done.
Qed.

(** C1.  [MakeMove] returns [ok = false] exactly when the column is out of
    range or the column is full, and a failing call returns [(-1, false)]
    and leaves the whole struct as it was: board, move history, current
    player and terminal flags.  A column is full when none of its six cells
    is Empty; in every game reachable by play, and on every board without
    floating discs, that is the case exactly when its top cell is
    non-Empty. *)
Theorem MakeMove_fails_iff (g : Game) (c : Z) :
  (ok_of (MakeMove g c) = false ↔
     (c < 0 ∨ c >= Columns) ∨ column_full (Board g) c) ∧
  (ok_of (MakeMove g c) = false →
     MakeMove g c = (-1, false, g) ∧
     Board (game_of (MakeMove g c)) = Board g ∧
     Moves (game_of (MakeMove g c)) = Moves g ∧
     CurrentPlayer (game_of (MakeMove g c)) = CurrentPlayer g ∧
     Winner (game_of (MakeMove g c)) = Winner g ∧
     IsOver (game_of (MakeMove g c)) = IsOver g ∧
     IsDraw (game_of (MakeMove g c)) = IsDraw g) ∧
  (no_floating (Board g) →
     (ok_of (MakeMove g c) = false ↔
        (c < 0 ∨ c >= Columns) ∨ cell (Board g) 0 c ≠ Empty)) ∧
  (reachable g →
     (ok_of (MakeMove g c) = false ↔
        (c < 0 ∨ c >= Columns) ∨ cell (Board g) 0 c ≠ Empty)).
Proof.
  pose proof (MakeMove_ok_iff g c) as Hok.
  assert (Hfull_iff : ok_of (MakeMove g c) = false ↔
            (c < 0 ∨ c >= Columns) ∨ column_full (Board g) c).
  { destruct (ok_of (MakeMove g c)).
    - split; [done|]. intros [Hc|Hfull]; [lia | tauto].
    - split; [|done]. intros _.
      destruct (decide (0 <= c < Columns)) as [Hc|Hc]; [|left; lia].
      right. destruct (decide (lowest_empty (Board g) c 6 = -1)) as [Hr|Hr].
      + by apply column_full_no_row.
      + exfalso. rewrite <- column_full_no_row in Hr.
        assert (false = true) by (apply Hok; tauto). done. }
  assert (Htop_iff : no_floating (Board g) →
            (ok_of (MakeMove g c) = false ↔
               (c < 0 ∨ c >= Columns) ∨ cell (Board g) 0 c ≠ Empty)).
  { intros Hgrav. rewrite Hfull_iff. split.
    - intros [Hc|Hfull]; [by left|]. right. apply Hfull. unfold Rows. lia.
    - intros [Hc|Hcell]; [by left|].
      destruct (decide (0 <= c < Columns)) as [Hc|Hc]; [|left; lia].
      right. by apply full_column_of_top. }
  split; [exact Hfull_iff|]. split; [|split; [exact Htop_iff|]].
  - intros Hfail. by rewrite (MakeMove_fail_same g c Hfail).
  - intros Hreach. apply Htop_iff. apply (inv_gravity g). by apply reachable_inv.
Qed.

Lemma no_floating_after (cols : list Z) : no_floating (Board (after cols)).
Proof.
  unfold after. destruct (play fresh_game cols) as [g|] eqn:Hplay; simpl.
  - apply (inv_gravity g). eapply game_inv_play; [|exact Hplay].
    apply (game_inv_NewGame "g1" "c1" "alice" "c2" "bob" false 0).
  - apply (inv_gravity fresh_game).
    apply (game_inv_NewGame "g1" "c1" "alice" "c2" "bob" false 0).
Qed.

(** With column 3 filled by six moves, a game reachable by play, a seventh
    call fails and changes nothing, and the top cell of the column is
    non-Empty. *)
Lemma MakeMove_fails_iff_witness :
  MakeMove (after [3; 3; 3; 3; 3; 3]) 3 = (-1, false, after [3; 3; 3; 3; 3; 3]) ∧
  (ok_of (MakeMove (after [3; 3; 3; 3; 3; 3]) 3) = false ↔
     (3 < 0 ∨ 3 >= Columns) ∨ cell (Board (after [3; 3; 3; 3; 3; 3])) 0 3 ≠ Empty).
Proof.
  destruct (MakeMove_fails_iff (after [3; 3; 3; 3; 3; 3]) 3)
    as (_ & Hsame & _ & Hreach).
  split.
  - destruct Hsame as [Heq _]; [vm_compute; reflexivity|]. exact Heq.
  - apply Hreach.
    exists "g1", "c1", "alice", "c2", "bob", false, 0, [3; 3; 3; 3; 3; 3].
    vm_compute. reflexivity.
Defined.

(** The test of the top cell alone rests on the stacking of the discs.  On
    a struct value with a disc in the top cell of column 3 and nothing under
    it, a board that neither [MakeMove] nor [Clone] produces, the top cell is
    non-Empty and [MakeMove 3] succeeds (at row 5). *)
Example top_cell_test_needs_stacking :
  cell (Board floating_game) 0 3 ≠ Empty ∧
  ¬ no_floating (Board floating_game) ∧
  MakeMove floating_game 3 =
    (5, true,
     switch_turn (placed floating_game 5 3)).
Proof.
  split; [vm_compute; discriminate|]. split; [|vm_compute; reflexivity].
  intros Hgrav.
  assert (Hcell : cell (Board floating_game) 5 3 ≠ Empty).
  { apply (full_column_of_top _ 3 Hgrav); [unfold Columns; lia | | unfold Rows; lia].
    vm_compute. discriminate. }
  apply Hcell. vm_compute. reflexivity.
Qed.

(** ** Success of [MakeMove] *)

Lemma MakeMove_ok_cases (g : Game) (c : Z) :
  ok_of (MakeMove g c) = true →
  let row := lowest_empty (Board g) c 6 in
  let g1 := placed g row c in
  0 <= c < Columns ∧ row ≠ -1 ∧ row_of (MakeMove g c) = row ∧
  ((CheckWin g1 row c = true ∧
    game_of (MakeMove g c) = with_IsOver (with_Winner g1 (CurrentPlayer g)) true) ∨
   (CheckWin g1 row c = false ∧ IsBoardFull g1 = true ∧
    game_of (MakeMove g c) = with_IsOver (with_IsDraw g1 true) true) ∨
   (CheckWin g1 row c = false ∧ IsBoardFull g1 = false ∧
    game_of (MakeMove g c) = switch_turn g1)).
Proof.
  intros Hok.
  destruct (MakeMove_inv g c) as [Hc|Hc Hfull|row Hc -> Hrow Hwin|row Hc -> Hrow Hwin Hfull
                                 |row Hc -> Hrow Hwin Hfull];
    unfold ok_of, row_of, game_of in *; simpl in *; try done;
    (split; [done|]; split; [done|]; split; [done|]); eauto 6.
Qed.

Lemma CheckWin_board {M N} (g : GameOf M) (g' : GameOf N) (row col : Z) :
  Board g = Board g' → CheckWin g row col = CheckWin g' row col.
Proof. unfold CheckWin. by intros ->. Qed.

Lemma IsBoardFull_board {M N} (g : GameOf M) (g' : GameOf N) :
  Board g = Board g' → IsBoardFull g = IsBoardFull g'.
Proof. unfold IsBoardFull. by intros ->. Qed.

Lemma Board_switch_turn (g : Game) : Board (switch_turn g) = Board g.
Proof. unfold switch_turn. by destruct (CurrentPlayer g =? Player1). Qed.

Lemma Moves_switch_turn (g : Game) : Moves (switch_turn g) = Moves g.
Proof. unfold switch_turn. by destruct (CurrentPlayer g =? Player1). Qed.

(** What a successful [MakeMove] does to the struct. *)
Lemma MakeMove_ok_effect (g : Game) (c : Z) :
  wf_board (Board g) →
  ok_of (MakeMove g c) = true →
  let row := row_of (MakeMove g c) in
  let g' := game_of (MakeMove g c) in
  (0 <= c < Columns ∧ 0 <= row < Rows ∧
   cell (Board g) row c = Empty ∧
   ∀ r, row < r < Rows → cell (Board g) r c ≠ Empty) ∧
  (cell (Board g') row c = CurrentPlayer g ∧
   ∀ r k, (r, k) ≠ (row, c) → cell (Board g') r k = cell (Board g) r k) ∧
  Moves g' = Moves g ++ [mkMove (CurrentPlayer g) c row] ∧
  CurrentPlayer g' =
    (if CheckWin g' row c || IsBoardFull g'
     then CurrentPlayer g
     else other_player (CurrentPlayer g)).
Proof.
  intros Hwf Hok.
  destruct (MakeMove_ok_cases g c Hok) as (Hc & Hrow & Hr & Hcases).
  destruct (lowest_empty_some _ _ _ _ eq_refl Hrow) as (Hrange & Hempty & Hbelow).
  cbv zeta. rewrite Hr.
  set (row := lowest_empty (Board g) c 6) in *.
  assert (Hin : in_range row c = true)
    by (apply in_range_spec; unfold Columns in *; lia).
  assert (Hb : Board (game_of (MakeMove g c)) =
               set_cell (Board g) row c (CurrentPlayer g)).
  { destruct Hcases as [[_ ->]|[(_ & _ & ->)|(_ & _ & ->)]];
      [done | done | by rewrite Board_switch_turn]. }
  split; [|split; [|split]].
  - unfold Rows. repeat split; try lia; try done.
  - rewrite Hb. split; [by apply cell_set_cell_eq|].
    intros r k Hne. by apply cell_set_cell_ne.
  - destruct Hcases as [[_ ->]|[(_ & _ & ->)|(_ & _ & ->)]];
      [done | done | by rewrite Moves_switch_turn].
  - rewrite (CheckWin_board _ (placed g row c) row c Hb).
    rewrite (IsBoardFull_board _ (placed g row c) Hb).
    destruct Hcases as [[-> ->]|[(-> & -> & ->)|(-> & -> & ->)]]; [done | done |].
    unfold switch_turn, other_player. simpl.
    by destruct (CurrentPlayer g =? Player1).
Qed.

(** C4 (as the code has it).  A successful [MakeMove c] writes the mover's
    number into the lowest Empty cell of column [c] and into no other cell,
    returns that row, and appends the one record (mover, column, row).  The
    current player is switched when the move neither wins nor fills the
    board; after a winning or board-filling move it is left as it was. *)
Theorem MakeMove_places_and_records (g : Game) (c : Z) :
  wf_board (Board g) →
  ok_of (MakeMove g c) = true →
  let row := row_of (MakeMove g c) in
  let g' := game_of (MakeMove g c) in
  (0 <= c < Columns ∧ 0 <= row < Rows ∧
   cell (Board g) row c = Empty ∧
   ∀ r, row < r < Rows → cell (Board g) r c ≠ Empty) ∧
  (cell (Board g') row c = CurrentPlayer g ∧
   ∀ r k, (r, k) ≠ (row, c) → cell (Board g') r k = cell (Board g) r k) ∧
  Moves g' = Moves g ++ [mkMove (CurrentPlayer g) c row] ∧
  CurrentPlayer g' =
    (if CheckWin g' row c || IsBoardFull g'
     then CurrentPlayer g
     else other_player (CurrentPlayer g)).
Proof. apply MakeMove_ok_effect. Qed.

Lemma wf_after (cols : list Z) : wf_board (Board (after cols)).
Proof.
  unfold after. destruct (play fresh_game cols) as [g|] eqn:Hplay; simpl.
  - apply (inv_wf g). eapply game_inv_play; [|exact Hplay].
    apply (game_inv_NewGame "g1" "c1" "alice" "c2" "bob" false 0).
  - apply wf_zero_board.
Qed.

(** The second move of a game: player 2 lands on top of player 1's disc in
    column 3 and the turn goes back to player 1. *)
Lemma MakeMove_places_and_records_witness :
  cell (Board (game_of (MakeMove (after [3]) 3))) 4 3 = Player2 ∧
  Moves (game_of (MakeMove (after [3]) 3)) = [mkMove 1 3 5; mkMove 2 3 4] ∧
  CurrentPlayer (game_of (MakeMove (after [3]) 3)) = Player1.
Proof.
  destruct (MakeMove_places_and_records (after [3]) 3) as (_ & [Hcell _] & Hmoves & Hturn).
  - vm_compute. reflexivity.
  - vm_compute. reflexivity.
  - split; [exact Hcell | split; [exact Hmoves | exact Hturn]].
Defined.

(** C4 as stated fails on a winning move: after three discs each in columns
    0 and 1, player 1 completes column 0, the call succeeds, and the current
    player is still player 1. *)
Lemma MakeMove_turn_counterexample :
  ¬ (ok_of (MakeMove (after three_stacked) 0) = true →
     CurrentPlayer (game_of (MakeMove (after three_stacked) 0)) =
       other_player (CurrentPlayer (after three_stacked))).
Proof.
  intros H. assert (Hok : ok_of (MakeMove (after three_stacked) 0) = true)
    by (vm_compute; reflexivity).
  apply H in Hok. vm_compute in Hok. discriminate.
Qed.

(** ** Reachable games *)

Lemma reachable_MakeMove (g : Game) (c : Z) :
  reachable g → ok_of (MakeMove g c) = true → reachable (game_of (MakeMove g c)).
Proof.
  intros (id & p1ID & p1Name & p2ID & p2Name & isBot & start & cols & Hplay) Hok.
  exists id, p1ID, p1Name, p2ID, p2Name, isBot, start, (cols ++ [c]).
  revert Hplay.
  generalize (with_StartTime (NewGame id p1ID p1Name p2ID p2Name isBot) start).
  induction cols as [|c0 cols IH]; simpl; intros g0 Hplay.
  - injection Hplay as ->.
    destruct (MakeMove g c) as [[row ok] g1]. unfold ok_of, game_of in *.
    simpl in *. by rewrite Hok.
  - destruct (MakeMove g0 c0) as [[row ok] g1]. destruct ok; [|done]. by apply IH.
Qed.

(** C2.  In a game reached from [NewGame] by successful moves, every disc
    rests on the floor or on a disc (below a non-Empty cell of a column all
    cells are non-Empty), and a further successful move writes into a cell
    that was Empty, keeps every non-Empty cell as it was, and leads to a
    reachable game again. *)
Theorem reachable_no_gap_no_overwrite (g : Game) :
  reachable g →
  (∀ r c, 0 <= r < Rows → 0 <= c < Columns → cell (Board g) r c ≠ Empty →
          ∀ r', r < r' < Rows → cell (Board g) r' c ≠ Empty) ∧
  (∀ c, ok_of (MakeMove g c) = true →
        cell (Board g) (row_of (MakeMove g c)) c = Empty ∧
        (∀ r k, cell (Board g) r k ≠ Empty →
                cell (Board (game_of (MakeMove g c))) r k = cell (Board g) r k) ∧
        reachable (game_of (MakeMove g c))).
Proof.
  intros Hreach. pose proof (reachable_inv g Hreach) as Hinv. split.
  - apply (inv_gravity g Hinv).
  - intros c Hok.
    destruct (MakeMove_ok_effect g c (inv_wf g Hinv) Hok)
      as ((_ & _ & Hempty & _) & (_ & Hother) & _).
    split; [done|]. split; [|by apply reachable_MakeMove].
    intros r k Hcell. apply Hother. intros Heq. injection Heq as -> ->. done.
Qed.

Lemma reachable_after (cols : list Z) :
  play fresh_game cols ≠ None → reachable (after cols).
Proof.
  intros Hplay. exists "g1", "c1", "alice", "c2", "bob", false, 0, cols.
  change (with_StartTime (NewGame "g1" "c1" "alice" "c2" "bob" false) 0) with fresh_game.
  unfold after. by destruct (play fresh_game cols).
Qed.

(** Four discs in column 3 and one in column 2: the stack has no gap, and
    a fifth disc in column 3 goes to the Empty cell of row 1. *)
Lemma reachable_no_gap_no_overwrite_witness :
  cell (Board (after [3; 3; 3; 2; 3])) 3 3 ≠ Empty ∧
  cell (Board (after [3; 3; 3; 2; 3])) (row_of (MakeMove (after [3; 3; 3; 2; 3]) 3)) 3 = Empty.
Proof.
  destruct (reachable_no_gap_no_overwrite (after [3; 3; 3; 2; 3])) as [Hgap Hmove].
  - apply reachable_after. vm_compute. discriminate.
  - split.
    + refine (Hgap 2 3 _ _ _ 3 _);
        [unfold Rows; lia | unfold Columns; lia
        | vm_compute; intros H; discriminate H | unfold Rows; lia].
    + destruct (Hmove 3) as [Hempty _]; [vm_compute; reflexivity | exact Hempty].
Defined.

(** ** Terminal evaluation *)

(** The outcome of a successful move, by the result of the two checks. *)
Lemma terminal_cases (g : Game) (c : Z) :
  ok_of (MakeMove g c) = true →
  let row := row_of (MakeMove g c) in
  let g' := game_of (MakeMove g c) in
  (CheckWin g' row c = true →
     Winner g' = CurrentPlayer g ∧ IsOver g' = true ∧ IsDraw g' = IsDraw g) ∧
  (CheckWin g' row c = false → IsBoardFull g' = true →
     IsDraw g' = true ∧ IsOver g' = true ∧ Winner g' = Winner g).
Proof.
  intros Hok.
  destruct (MakeMove_ok_cases g c Hok) as (Hc & Hrow & Hr & Hcases).
  cbv zeta in *. rewrite Hr in *.
  set (row := lowest_empty (Board g) c 6) in *.
  assert (Hb : Board (game_of (MakeMove g c)) = Board (placed g row c)).
  { destruct Hcases as [[_ ->]|[(_ & _ & ->)|(_ & _ & ->)]];
      [done | done | by rewrite Board_switch_turn]. }
  rewrite (CheckWin_board _ (placed g row c) row c Hb).
  rewrite (IsBoardFull_board _ (placed g row c) Hb).
  destruct Hcases as [[Hwin Hg']|[(Hwin & Hfull & Hg')|(Hwin & Hfull & Hg')]];
    rewrite Hg' in *; rewrite Hwin, ?Hfull; (split; [intros ?|intros ? ?]); done.
Qed.

(** C3.  After a successful move the win check decides before the
    full-board check: when [CheckWin] holds at the cell just played the
    mover becomes the winner and the game is over, and the draw flag is not
    touched, whether or not the move filled the board; when [CheckWin]
    fails and the board is full the game is over as a draw and the winner
    field is not touched.  In a game reachable by play, a move that
    completes four in a row through the cell just played leaves
    [Winner = mover], [IsOver = true] and [IsDraw = false] even when it
    fills the board, and a move that fills the board while no player has
    four in a row anywhere leaves [IsDraw = true] and [IsOver = true] and
    sets no winner. *)
Theorem win_check_before_full_check (g : Game) (c : Z) :
  ok_of (MakeMove g c) = true →
  let row := row_of (MakeMove g c) in
  let g' := game_of (MakeMove g c) in
  let mover := CurrentPlayer g in
  ((CheckWin g' row c = true →
      Winner g' = mover ∧ IsOver g' = true ∧ IsDraw g' = IsDraw g) ∧
   (CheckWin g' row c = false → IsBoardFull g' = true →
      IsDraw g' = true ∧ IsOver g' = true ∧ Winner g' = Winner g)) ∧
  (reachable g →
   (four_through (Board g') mover row c →
      Winner g' = mover ∧ IsOver g' = true ∧ IsDraw g' = false) ∧
   (IsBoardFull g' = true →
    (∀ p, p ≠ Empty → ¬ four_somewhere (Board g') p) →
      IsDraw g' = true ∧ IsOver g' = true ∧ Winner g' = Winner g ∧
      (IsOver g = false → Winner g' = 0))).
Proof.
  intros Hok. destruct (terminal_cases g c Hok) as [Hwin Hdraw].
  split; [by split|]. intros Hreach.
  pose proof (reachable_inv g Hreach) as Hinv.
  pose proof (MakeMove_needs_room g c (inv_gravity g Hinv) Hok) as Hroom.
  assert (Hnodraw : IsDraw g = false).
  { destruct (IsDraw g) eqn:Hd; [|done].
    rewrite (inv_draw g Hinv Hd) in Hroom. done. }
  destruct (MakeMove_ok_effect g c (inv_wf g Hinv) Hok)
    as ((Hc & Hrow & _) & (Hcell & _) & _).
  cbv zeta in *. unfold Rows, Columns in *.
  set (row := row_of (MakeMove g c)) in *. set (g' := game_of (MakeMove g c)) in *.
  split.
  - intros Hfour. rewrite <- Hcell in Hfour.
    apply CheckWin_complete in Hfour; [|done|done].
    destruct (Hwin Hfour) as (? & ? & Hd). by rewrite Hd.
  - intros Hfull Hnone.
    assert (Hcheck : CheckWin g' row c = false).
    { destruct (CheckWin g' row c) eqn:Hcheck; [|done]. exfalso.
      apply CheckWin_sound in Hcheck; [|done|done]. rewrite Hcell in Hcheck.
      apply (Hnone (CurrentPlayer g)); [|done].
      destruct (inv_player g Hinv) as [-> | ->]; done. }
    destruct (Hdraw Hcheck Hfull) as (? & ? & Hw).
    split; [done|]. split; [done|]. split; [done|].
    intros Hlive. rewrite Hw. by apply (inv_live g Hinv).
Qed.

(** The 42nd move of a game without an earlier win, into column 5, fills the
    board and completes four in a row for player 2 down the anti-diagonal
    from the top cell of column 5: it is a win, not a draw.  The 42nd move
    of another game, into column 0, fills the board without four in a row
    anywhere: a draw, and no winner. *)
Lemma win_check_before_full_check_witness :
  (IsBoardFull (game_of (MakeMove (after fill_and_win_prefix) 5)) = true ∧
   Winner (game_of (MakeMove (after fill_and_win_prefix) 5)) = Player2 ∧
   IsOver (game_of (MakeMove (after fill_and_win_prefix) 5)) = true ∧
   IsDraw (game_of (MakeMove (after fill_and_win_prefix) 5)) = false) ∧
  (IsDraw (game_of (MakeMove (after fill_and_draw_prefix) 0)) = true ∧
   IsOver (game_of (MakeMove (after fill_and_draw_prefix) 0)) = true ∧
   Winner (game_of (MakeMove (after fill_and_draw_prefix) 0)) = 0).
Proof.
  split.
  - destruct (win_check_before_full_check (after fill_and_win_prefix) 5)
      as [_ Hplay]; [vm_compute; reflexivity|].
    destruct Hplay as [Hwin _]; [apply reachable_after; vm_compute; discriminate|].
    destruct Hwin as (Hw & Ho & Hd).
    + exists 1, (-1), 0. split; [apply list_elem_of_In; simpl; tauto|].
      split; [lia|]. intros i Hi.
      assert (Hcases : i = 0 ∨ i = 1 ∨ i = 2 ∨ i = 3) by lia.
      destruct Hcases as [-> | [-> | [-> | ->]]]; vm_compute; split; reflexivity.
    + split; [vm_compute; reflexivity|]. split; [|split; [exact Ho | exact Hd]].
      rewrite Hw. vm_compute. reflexivity.
  - destruct (win_check_before_full_check (after fill_and_draw_prefix) 0)
      as [_ Hplay]; [vm_compute; reflexivity|].
    destruct Hplay as [_ Hdraw]; [apply reachable_after; vm_compute; discriminate|].
    destruct Hdraw as (Hd & Ho & _ & Hw).
    + vm_compute. reflexivity.
    + intros p Hp Hfour. apply (four_somewhere_any_four _ p Hp) in Hfour.
      vm_compute in Hfour. discriminate Hfour.
    + split; [exact Hd|]. split; [exact Ho|]. apply Hw. vm_compute. reflexivity.
Defined.

(** ** The column-3 scenario *)

(** C8 (as the code has it).  From a fresh game, six moves into column 3
    succeed, at rows 5, 4, 3, 2, 1 and 0; the discs alternate, no move wins
    or ends the game, and only the seventh call on column 3, when the column
    holds six discs, fails and leaves the game as it was. *)
Theorem column3_fills_after_six (id p1ID p1Name p2ID p2Name : string) (isBot : bool) :
  let g0 := NewGame id p1ID p1Name p2ID p2Name isBot in
  ∃ g6, play g0 [3; 3; 3; 3; 3; 3] = Some g6 ∧
    (∀ k g, (k ≤ 6)%nat → play g0 (replicate k 3) = Some g →
            Winner g = 0 ∧ IsOver g = false ∧ IsDraw g = false) ∧
    Moves g6 = [mkMove 1 3 5; mkMove 2 3 4; mkMove 1 3 3;
                mkMove 2 3 2; mkMove 1 3 1; mkMove 2 3 0] ∧
    map (fun r => cell (Board g6) r 3) [5; 4; 3; 2; 1; 0] = [1; 2; 1; 2; 1; 2] ∧
    MakeMove g6 3 = (-1, false, g6).
Proof.
  cbv zeta. eexists. split; [vm_compute; reflexivity|].
  split; [|repeat split].
  intros k g Hk.
  do 7 (destruct k as [|k]; [vm_compute; intros [= <-]; done|]). lia.
Qed.

(** C8 as stated fails: after four moves into column 3 the fifth call
    succeeds (at row 1). *)
Lemma column3_fifth_move_counterexample :
  ¬ (ok_of (MakeMove (after [3; 3; 3; 3]) 3) = false).
Proof. vm_compute. discriminate. Qed.

(** ** The value-level [Clone] *)

Lemma copy_board_id (b : BoardT) : wf_board b → copy_board b = b.
Proof.
  intros Hwf. apply wf_board_spec in Hwf as [Hlen Hrows].
  do 7 (destruct b as [|? b]; try discriminate Hlen).
  repeat match goal with
         | H : Forall _ (_ :: _) |- _ => apply Forall_cons in H as [? H]
         end.
  repeat match goal with
         | H : length ?row = 7%nat |- _ =>
             do 8 (destruct row as [|? row]; try discriminate H); clear H
         end.
  reflexivity.
Qed.

Lemma Clone_id (g : Game) : wf_board (Board g) → Clone g = g.
Proof. intros Hwf. unfold Clone. rewrite copy_board_id by done. by destruct g. Qed.

(** ** The first two loops of [GetMove] *)

Lemma first_winning_cons (g : Game) (p col : Z) (rest : list Z) :
  bot.first_winning g p (col :: rest) =
    if ok_of (bot.simulate g p col) && (Winner (game_of (bot.simulate g p col)) =? p)
    then Some col else bot.first_winning g p rest.
Proof.
  simpl. by destruct (bot.simulate g p col) as [[row valid] clone].
Qed.

Lemma wins_at_test (g : Game) (p col : Z) :
  ok_of (bot.simulate g p col) && (Winner (game_of (bot.simulate g p col)) =? p) = true
  ↔ wins_at g p col.
Proof. unfold wins_at. rewrite andb_true_iff, Z.eqb_eq. done. Qed.

Lemma first_winning_None (g : Game) (p : Z) (cols : list Z) :
  bot.first_winning g p cols = None ↔ ∀ col, col ∈ cols → ¬ wins_at g p col.
Proof.
  induction cols as [|c cols IH].
  - split; [intros _ col Hin; by apply elem_of_nil in Hin | done].
  - rewrite first_winning_cons.
    destruct (_ && _) eqn:Htest.
    + split; [done|]. intros H. exfalso. apply (H c); [left | by apply wins_at_test].
    + rewrite IH. split.
      * intros H col Hin. apply elem_of_cons in Hin as [->|Hin]; [|by apply H].
        rewrite <- wins_at_test. by rewrite Htest.
      * intros H col Hin. apply H. by right.
Qed.

Lemma first_winning_Some_in (g : Game) (p : Z) (cols : list Z) (col : Z) :
  bot.first_winning g p cols = Some col → col ∈ cols ∧ wins_at g p col.
Proof.
  induction cols as [|c cols IH]; [done|].
  rewrite first_winning_cons. destruct (_ && _) eqn:Htest.
  - intros [= <-]. split; [left | by apply wins_at_test].
  - intros H. destruct (IH H). split; [by right | done].
Qed.

(** On the ascending enumeration of a range the first hit is the least. *)
Lemma first_winning_least (g : Game) (p : Z) (P : nat → Prop)
    `{∀ n, Decision (P n)} (a n : nat) (col : Z) :
  bot.first_winning g p (Z.of_nat <$> filter P (seq a n)) = Some col →
  ∀ col', col' ∈ (Z.of_nat <$> filter P (seq a n)) → col' < col → ¬ wins_at g p col'.
Proof.
  revert a. induction n as [|n IH]; intros a; [done|].
  simpl. rewrite filter_cons. destruct (decide (P a)) as [HP|HP]; [|apply IH].
  rewrite fmap_cons, first_winning_cons. destruct (_ && _) eqn:Htest.
  - intros [= <-] col' Hin Hlt. exfalso.
    apply elem_of_cons in Hin as [->|Hin]; [lia|].
    apply list_elem_of_fmap in Hin as (k & -> & Hk).
    apply list_elem_of_filter in Hk as [_ Hk]. apply elem_of_seq in Hk. lia.
  - intros Hfirst col' Hin Hlt. apply elem_of_cons in Hin as [->|Hin].
    + rewrite <- wins_at_test. by rewrite Htest.
    + by apply (IH (S a)).
Qed.

Lemma first_winning_first_legal (g : Game) (p col : Z) :
  bot.first_winning g p (GetValidMoves g) = Some col → first_legal g (wins_at g p) col.
Proof.
  intros Hfirst. destruct (first_winning_Some_in _ _ _ _ Hfirst) as [Hin Hwin].
  split; [done|]. split; [done|].
  unfold GetValidMoves in *. by apply first_winning_least.
Qed.

Lemma first_winning_exists (g : Game) (p : Z) (cols : list Z) :
  (∃ col, col ∈ cols ∧ wins_at g p col) → ∃ col, bot.first_winning g p cols = Some col.
Proof.
  intros (col & Hin & Hwin).
  destruct (bot.first_winning g p cols) as [c|] eqn:Hfirst; [eauto|].
  exfalso. by apply (proj1 (first_winning_None g p cols) Hfirst col).
Qed.

(** When the snapshot is not already won by [p], the test of the loops is
    the win check of the simulated move. *)
Lemma wins_at_CheckWin (g : Game) (p col : Z) :
  wf_board (Board g) → Winner g ≠ p →
  let g1 := with_CurrentPlayer g p in
  let row := lowest_empty (Board g) col 6 in
  wins_at g p col ↔
    ok_of (MakeMove g1 col) = true ∧ CheckWin (placed g1 row col) row col = true.
Proof.
  intros Hwf Hw. cbv zeta. unfold wins_at, bot.simulate. rewrite Clone_id by done.
  split.
  - intros [Hok Hwin]. split; [done|].
    destruct (MakeMove_ok_cases _ col Hok) as (_ & _ & _ & Hcases).
    change (Board (with_CurrentPlayer g p)) with (Board g) in Hcases.
    destruct Hcases as [[Hc _]|[(_ & _ & Hg)|(_ & _ & Hg)]]; [done| |];
      rewrite Hg in Hwin; [done|].
    unfold switch_turn in Hwin. simpl in Hwin. by destruct (p =? Player1).
  - intros [Hok Hwin]. split; [done|].
    destruct (MakeMove_ok_cases _ col Hok) as (_ & _ & _ & Hcases).
    change (Board (with_CurrentPlayer g p)) with (Board g) in Hcases.
    destruct Hcases as [[_ ->]|[(Hc & _)|(Hc & _)]]; [done | congruence | congruence].
Qed.

Lemma valid_move_accepted (g : Game) (col : Z) :
  col ∈ GetValidMoves g → ok_of (MakeMove g col) = true.
Proof.
  intros Hin. apply GetValidMoves_spec in Hin as [Hc Hcell].
  apply MakeMove_ok_iff. split; [done|]. intros Hfull.
  apply (Hfull 0); [unfold Rows; lia | done].
Qed.

(** In a game that is reachable and not over, the test of the loops holds
    for a legal column exactly when the disc completes four in a row. *)
Lemma wins_at_completes_four (g : Game) (p col : Z) :
  reachable g → IsOver g = false → p ≠ Empty → col ∈ GetValidMoves g →
  wins_at g p col ↔ completes_four g p col.
Proof.
  intros Hreach Hlive Hp Hlegal. pose proof (reachable_inv g Hreach) as Hinv.
  destruct (inv_live g Hinv Hlive) as [Hw _].
  rewrite wins_at_CheckWin; [|by apply (inv_wf g Hinv) | by rewrite Hw].
  cbv zeta. unfold completes_four.
  pose proof (valid_move_accepted (with_CurrentPlayer g p) col Hlegal) as Hok.
  apply MakeMove_ok_iff in Hok as Hroom. destruct Hroom as [Hc Hroom].
  rewrite column_full_no_row in Hroom.
  change (Board (with_CurrentPlayer g p)) with (Board g) in Hroom.
  destruct (lowest_empty_some _ _ _ _ eq_refl Hroom) as (Hr & _ & _).
  set (row := lowest_empty (Board g) col 6) in *.
  set (g1 := placed (with_CurrentPlayer g p) row col).
  assert (Hin : in_range row col = true)
    by (apply in_range_spec; unfold Columns in *; lia).
  assert (Hcell : cell (Board g1) row col = p)
    by (apply cell_set_cell_eq; [apply (inv_wf g Hinv) | done]).
  change (set_cell (Board g) row col p) with (Board g1).
  unfold Columns in *. split.
  - intros [_ Hcheck].
    apply CheckWin_sound in Hcheck; [|lia|lia]. rewrite Hcell in Hcheck.
    destruct Hcheck as (r0 & c0 & dr & dc & Hdir & Hfour).
    destruct (window_meets_cell r0 c0 dr dc row col) as [(k & Hk & Hr0 & Hc0)|Hmiss].
    + exists dr, dc, k. split; [done|]. split; [done|].
      replace (row - k * dr) with r0 by lia. replace (col - k * dc) with c0 by lia. done.
    + exfalso. apply (inv_no_four g Hinv Hlive p Hp).
      exists r0, c0, dr, dc. split; [done|].
      intros i Hi. destruct (Hfour i Hi) as [Hrange Hv]. split; [done|].
      change (Board g1) with (set_cell (Board g) row col p) in Hv.
      rewrite cell_set_cell_ne in Hv; [done | by apply Hmiss].
  - intros Hfour. split; [done|]. apply CheckWin_complete; [lia | lia |].
    by rewrite Hcell.
Qed.

Lemma first_legal_iff (g : Game) (P Q : Z → Prop) (col : Z) :
  (∀ c, c ∈ GetValidMoves g → (P c ↔ Q c)) →
  first_legal g P col → first_legal g Q col.
Proof.
  intros HPQ (Hin & HP & Hleast). split; [done|]. split; [by apply HPQ|].
  intros c Hc Hlt HQ. apply (Hleast c Hc Hlt). by apply HPQ.
Qed.

Lemma opponent_of_not_Empty (b : bot.Bot) : bot.opponent_of b ≠ Empty.
Proof. unfold bot.opponent_of. by destruct (bot.Player b =? Player1). Qed.

(** The priority of the two loops, for the test the code makes. *)
Lemma GetMove_first_winning (b : bot.Bot) (g : Game) (seed : nat) :
  ((∃ col, col ∈ GetValidMoves g ∧ wins_at g (bot.Player b) col) →
   first_legal g (wins_at g (bot.Player b)) (bot.GetMove b g seed)) ∧
  ((∀ col, col ∈ GetValidMoves g → ¬ wins_at g (bot.Player b) col) →
   (∃ col, col ∈ GetValidMoves g ∧ wins_at g (bot.opponent_of b) col) →
   first_legal g (wins_at g (bot.opponent_of b)) (bot.GetMove b g seed)).
Proof.
  split.
  - intros Hex. apply first_winning_exists in Hex as [col Hfirst].
    unfold bot.GetMove. rewrite Hfirst. by apply first_winning_first_legal.
  - intros Hnone Hex. apply first_winning_None in Hnone.
    apply first_winning_exists in Hex as [col Hfirst].
    unfold bot.GetMove. rewrite Hnone, Hfirst. by apply first_winning_first_legal.
Qed.

(** C6.  A column yields an immediate win for a player when the move
    simulated on a clone is accepted and leaves that player as the clone's
    winner.  If some legal column yields an immediate win for the bot,
    [GetMove] returns the first such column in ascending order; otherwise,
    if some legal column yields an immediate win for the opponent, it
    returns the first such column.  No minimax score and no random choice
    enters either case.  On a snapshot that is reachable by play and not
    over, a legal column yields an immediate win exactly when the disc
    completes four in a row through the cell where it lands, and the same
    priority holds in these terms. *)
Theorem GetMove_win_then_block (b : bot.Bot) (g : Game) (seed : nat) :
  let me := bot.Player b in
  let opp := bot.opponent_of b in
  let col := bot.GetMove b g seed in
  (((∃ c, c ∈ GetValidMoves g ∧ wins_at g me c) → first_legal g (wins_at g me) col) ∧
   ((∀ c, c ∈ GetValidMoves g → ¬ wins_at g me c) →
    (∃ c, c ∈ GetValidMoves g ∧ wins_at g opp c) →
    first_legal g (wins_at g opp) col)) ∧
  (reachable g → IsOver g = false → me ≠ Empty →
   ((∃ c, c ∈ GetValidMoves g ∧ completes_four g me c) →
    first_legal g (completes_four g me) col) ∧
   ((∀ c, c ∈ GetValidMoves g → ¬ completes_four g me c) →
    (∃ c, c ∈ GetValidMoves g ∧ completes_four g opp c) →
    first_legal g (completes_four g opp) col)).
Proof.
  cbv zeta. destruct (GetMove_first_winning b g seed) as [Hwin Hblock].
  split; [by split|]. intros Hreach Hlive Hme.
  assert (Hiff : ∀ p, p ≠ Empty → ∀ c, c ∈ GetValidMoves g →
                      (wins_at g p c ↔ completes_four g p c))
    by (intros p Hp c Hc; by apply wins_at_completes_four).
  split.
  - intros (c & Hc & Hfour).
    apply (first_legal_iff g (wins_at g (bot.Player b))); [by apply Hiff|].
    apply Hwin. exists c. split; [done|]. by apply Hiff.
  - intros Hnone (c & Hc & Hfour).
    apply (first_legal_iff g (wins_at g (bot.opponent_of b)));
      [apply Hiff, opponent_of_not_Empty|].
    apply Hblock.
    + intros c' Hc' Hw. apply (Hnone c' Hc'). by apply Hiff.
    + exists c. split; [done|]. apply Hiff; [apply opponent_of_not_Empty | done | done].
Qed.

(** With three discs each in columns 0 and 1 the bot completes its own
    column 1 although the opponent's column 0 comes first; with a threat in
    column 0 only, it blocks column 0. *)
Lemma GetMove_win_then_block_witness :
  first_legal (after both_threaten) (completes_four (after both_threaten) Player2)
              (bot.GetMove the_bot (after both_threaten) 0) ∧
  first_legal (after one_threat) (wins_at (after one_threat) Player1)
              (bot.GetMove the_bot (after one_threat) 0).
Proof.
  split.
  - destruct (GetMove_win_then_block the_bot (after both_threaten) 0) as [_ Hfour].
    destruct Hfour as [Hwin _].
    + apply reachable_after. vm_compute. discriminate.
    + vm_compute. reflexivity.
    + vm_compute. discriminate.
    + apply Hwin. exists 1. split; [apply (list_elem_of_lookup_2 _ 1%nat); reflexivity|].
      exists 1, 0, 0. split; [apply list_elem_of_In; simpl; tauto|].
      split; [lia|]. intros i Hi.
      assert (Hcases : i = 0 ∨ i = 1 ∨ i = 2 ∨ i = 3) by lia.
      destruct Hcases as [-> | [-> | [-> | ->]]]; vm_compute; split; reflexivity.
  - destruct (GetMove_win_then_block the_bot (after one_threat) 0) as [[_ Hblock] _].
    apply Hblock.
    + apply first_winning_None. vm_compute. reflexivity.
    + exists 0. split; [|split]; vm_compute; try reflexivity.
      apply (list_elem_of_lookup_2 _ 0%nat). reflexivity.
Defined.

Example GetMove_prefers_win : bot.GetMove the_bot (after both_threaten) 0 = 1.
Proof. vm_compute. reflexivity. Qed.

Example GetMove_blocks : bot.GetMove the_bot (after one_threat) 0 = 0.
Proof. vm_compute. reflexivity. Qed.

(** ** The column [GetMove] returns *)

Lemma best_loop_subset (b : bot.Bot) (g : Game) (opponent : Z) (cols : list Z)
    (bestScore : Z) (bestMoves : list Z) :
  ∀ col, col ∈ snd (bot.best_loop b g opponent cols bestScore bestMoves) →
         col ∈ cols ∨ col ∈ bestMoves.
Proof.
  revert bestScore bestMoves.
  induction cols as [|c cols IH]; intros bestScore bestMoves col; simpl; [by right|].
  destruct (bot.simulate g (bot.Player b) c) as [[row valid] clone].
  destruct valid; simpl.
  - destruct (_ >? bestScore); [|destruct (_ =? bestScore)]; intros Hin;
      apply IH in Hin as [Hin|Hin]; try (left; by right); try (by right).
    + apply list_elem_of_singleton in Hin as ->. left. by left.
    + apply elem_of_app in Hin as [Hin|Hin]; [by right|].
      apply list_elem_of_singleton in Hin as ->. left. by left.
  - intros Hin. apply IH in Hin as [Hin|Hin]; [left; by right | by right].
Qed.

Lemma centerPreference_subset (bestMoves acc : list Z) :
  ∀ col, col ∈ bot.centerPreference bestMoves acc → col ∈ bestMoves ∨ col ∈ acc.
Proof.
  revert acc. induction bestMoves as [|c rest IH]; intros acc col; simpl; [by right|].
  destruct (c =? 3); [|destruct ((c =? 2) || (c =? 4))]; intros Hin;
    apply IH in Hin as [Hin|Hin]; try (left; by right);
    (apply elem_of_app in Hin as [Hin|Hin]; [by right|]);
    (assert (col = c) as ->
       by (repeat (apply elem_of_cons in Hin as [->|Hin]; [done|]);
           by apply elem_of_nil in Hin));
    left; left.
Qed.

Lemma centerPreference_length (bestMoves acc : list Z) :
  (length acc + length bestMoves ≤ length (bot.centerPreference bestMoves acc))%nat.
Proof.
  revert acc. induction bestMoves as [|c rest IH]; intros acc; simpl; [lia|].
  destruct (c =? 3); [|destruct ((c =? 2) || (c =? 4))];
    (etrans; [|apply IH]); rewrite length_app; simpl; lia.
Qed.

Lemma nth_rand_elem (seed : nat) (l : list Z) :
  l ≠ [] → nth (bot.rand_Intn seed (length l)) l 0 ∈ l.
Proof.
  intros Hl. apply list_elem_of_In, nth_In. unfold bot.rand_Intn.
  apply Nat.mod_upper_bound. by destruct l.
Qed.

(** [rand.Intn(n)] can return every index below [n]. *)
Lemma rand_Intn_any (n k : nat) : (k < n)%nat → bot.rand_Intn k n = k.
Proof. intros Hk. unfold bot.rand_Intn. by apply Nat.mod_small. Qed.


(** C10.  When the snapshot has a legal move, [GetMove] returns one of them:
    a column of [GetValidMoves g], hence at least 0 and below 7 with an
    Empty top cell, and [MakeMove] accepts it.  When there is no legal move
    it returns column 3. *)
Theorem GetMove_legal (b : bot.Bot) (g : Game) (seed : nat) :
  (GetValidMoves g ≠ [] →
     bot.GetMove b g seed ∈ GetValidMoves g ∧
     0 <= bot.GetMove b g seed < Columns ∧
     cell (Board g) 0 (bot.GetMove b g seed) = Empty ∧
     ok_of (MakeMove g (bot.GetMove b g seed)) = true) ∧
  (GetValidMoves g = [] → bot.GetMove b g seed = 3).
Proof.
  split.
  - intros Hne.
    assert (Hin : bot.GetMove b g seed ∈ GetValidMoves g).
    { unfold bot.GetMove.
      destruct (bot.first_winning g (bot.Player b) _) as [col|] eqn:Hw1;
        [by apply first_winning_Some_in in Hw1 as [? _]|].
      destruct (bot.first_winning g (bot.opponent_of b) _) as [col|] eqn:Hw2;
        [by apply first_winning_Some_in in Hw2 as [? _]|].
      pose proof (best_loop_subset b g (bot.opponent_of b) (GetValidMoves g)
                    bot.MinInt32 []) as Hsub.
      destruct (bot.best_loop _ _ _ _ _ _) as [bestScore bestMoves]. simpl in Hsub.
      destruct (length bestMoves =? 0)%nat eqn:Hlen.
      - destruct (0 <? length (GetValidMoves g))%nat eqn:Hlen'.
        + by apply nth_rand_elem.
        + apply Nat.ltb_ge in Hlen'. destruct (GetValidMoves g); [done | simpl in Hlen'; lia].
      - apply Nat.eqb_neq in Hlen.
        assert (Hcp : bot.centerPreference bestMoves [] ≠ []).
        { pose proof (centerPreference_length bestMoves []) as Hl.
          destruct (bot.centerPreference bestMoves []); [simpl in Hl; lia | done]. }
        apply (nth_rand_elem seed) in Hcp.
        apply centerPreference_subset in Hcp as [Hcp|Hcp]; [|by apply elem_of_nil in Hcp].
        apply Hsub in Hcp as [Hcp|Hcp]; [done | by apply elem_of_nil in Hcp]. }
    split; [done|]. pose proof (proj1 (GetValidMoves_spec g _) Hin) as [Hc Hcell].
    split; [done|]. split; [done|]. by apply valid_move_accepted.
  - intros Hnil. unfold bot.GetMove. rewrite Hnil. reflexivity.
Qed.

(** On the position with both threats the returned column is legal; on a
    full board the bot answers 3. *)
Lemma GetMove_legal_witness :
  (bot.GetMove the_bot (after both_threaten) 0 ∈ GetValidMoves (after both_threaten) ∧
   ok_of (MakeMove (after both_threaten) (bot.GetMove the_bot (after both_threaten) 0)) = true) ∧
  bot.GetMove the_bot (game_of (MakeMove (after fill_and_draw_prefix) 0)) 0 = 3.
Proof.
  split.
  - destruct (GetMove_legal the_bot (after both_threaten) 0) as [Hlegal _].
    destruct Hlegal as (Hin & _ & _ & Hok); [vm_compute; discriminate|].
    split; [exact Hin | exact Hok].
  - destruct (GetMove_legal the_bot (game_of (MakeMove (after fill_and_draw_prefix) 0)) 0)
      as [_ Hfull].
    apply Hfull. vm_compute. reflexivity.
Defined.

(** ** Games behind pointers *)

Section StoreFacts.

Variable growcap : nat → nat.

Lemma fresh_array_None (h : mem.heap) :
  mem.arrays h !! fresh (dom (mem.arrays h)) = None.
Proof. apply not_elem_of_dom, is_fresh. Qed.

Lemma fresh_game_None (h : mem.heap) :
  mem.games h !! fresh (dom (mem.games h)) = None.
Proof. apply not_elem_of_dom, is_fresh. Qed.

Lemma elems_length (h : mem.heap) (s : mem.slice) :
  mem.wf_slice h s → length (mem.elems h s) = mem.len s.
Proof.
  intros [Hlen Hptr]. unfold mem.elems, mem.array_of. rewrite length_take.
  destruct (mem.ptr s) as [l|].
  - destruct Hptr as (a & -> & Hcap). simpl. lia.
  - simpl. lia.
Qed.

(** What [append] does, for a slice whose array is not an array of [h0]. *)
Lemma append_spec (h0 h : mem.heap) (s : mem.slice) (m : Move) :
  mem.wf_slice h s →
  (∀ l, mem.ptr s = Some l → mem.arrays h0 !! l = None) →
  (∀ l a, mem.arrays h0 !! l = Some a → mem.arrays h !! l = Some a) →
  let s' := fst (mem.append growcap s m h) in
  let h' := snd (mem.append growcap s m h) in
  mem.games h' = mem.games h ∧
  mem.wf_slice h' s' ∧
  (∀ l, mem.ptr s' = Some l → mem.arrays h0 !! l = None) ∧
  (∀ l a, mem.arrays h0 !! l = Some a → mem.arrays h' !! l = Some a) ∧
  mem.elems h' s' = mem.elems h s ++ [m].
Proof.
  intros Hwf Hnew Hold. pose proof (elems_length h s Hwf) as Hlen.
  destruct Hwf as [Hle Hptr]. unfold mem.append.
  assert (Hfresh : mem.arrays h0 !! fresh (dom (mem.arrays h)) = None).
  { destruct (mem.arrays h0 !! fresh (dom (mem.arrays h))) as [a|] eqn:Ha; [|done].
    apply Hold in Ha. by rewrite fresh_array_None in Ha. }
  destruct (mem.ptr s) as [l|] eqn:Hl.
  - destruct Hptr as (a & Ha & Hcap).
    destruct (mem.len s <? mem.cap s)%nat eqn:Hroom; simpl.
    + apply Nat.ltb_lt in Hroom. split; [done|].
      unfold mem.wf_slice, mem.elems, mem.array_of. simpl. rewrite Hl, Ha. simpl.
      rewrite lookup_insert_eq. split; [|split; [|split]].
      * split; [lia|]. eexists. split; [done|]. by rewrite length_insert.
      * intros l' [= <-]. by apply Hnew.
      * intros l' a' Ha'. rewrite lookup_insert_ne; [by apply Hold|].
        intros <-. rewrite (Hnew l eq_refl) in Ha'. done.
      * simpl. rewrite (take_S_r _ _ m); [|apply list_lookup_insert_eq; lia].
        by rewrite take_insert_ge by lia.
    + apply Nat.ltb_ge in Hroom. split; [done|].
      unfold mem.wf_slice. simpl. rewrite lookup_insert_eq. split; [|split; [|split]].
      * split; [lia|]. eexists. split; [done|].
        rewrite length_app, Hlen. simpl. rewrite length_replicate. lia.
      * intros l' [= <-]. done.
      * intros l' a' Ha'. rewrite lookup_insert_ne; [by apply Hold|].
        intros <-. by rewrite Hfresh in Ha'.
      * unfold mem.elems at 1, mem.array_of. simpl. rewrite lookup_insert_eq. simpl.
        rewrite <- Hlen at 1.
        change (mem.elems h s ++ m :: replicate _ mem.zeroMove)
          with (mem.elems h s ++ [m] ++ replicate
                  (Nat.max (S (mem.len s)) (growcap (mem.cap s)) - S (mem.len s))
                  mem.zeroMove).
        rewrite app_assoc, take_app_length'; [done|].
        rewrite length_app. simpl. lia.
  - simpl. split; [done|].
    unfold mem.wf_slice. simpl. rewrite lookup_insert_eq. split; [|split; [|split]].
    + split; [lia|]. eexists. split; [done|]. simpl. rewrite length_replicate. lia.
    + intros l' [= <-]. done.
    + intros l' a' Ha'. rewrite lookup_insert_ne; [by apply Hold|].
      intros <-. by rewrite Hfresh in Ha'.
    + unfold mem.elems, mem.array_of. simpl. rewrite Hl, lookup_insert_eq. simpl.
      assert (mem.len s = 0%nat) as -> by lia. by rewrite take_0.
Qed.

Lemma frame_store (h0 h : mem.heap) (q : positive) (g : GameOf mem.slice) :
  mem.games h0 !! q = None →
  (∀ p, p ≠ q → mem.games h !! p = mem.games h0 !! p) →
  (∀ l a, mem.arrays h0 !! l = Some a → mem.arrays h !! l = Some a) →
  mem.wf_slice h (Moves g) →
  (∀ l, mem.ptr (Moves g) = Some l → mem.arrays h0 !! l = None) →
  mem.frame h0 (mem.store q g h) q.
Proof.
  intros Hnew Hgames Harrays Hwf Hptr. split; simpl; [done| |done|].
  - intros p Hp. rewrite lookup_insert_ne by done. by apply Hgames.
  - exists g. by rewrite lookup_insert_eq.
Qed.

Lemma frame_exec (h0 h h' : mem.heap) (q : positive) (o : mem.op) :
  mem.frame h0 h q → mem.exec growcap q o h = Some h' → mem.frame h0 h' q.
Proof.
  intros Hfr. pose proof Hfr as [Hnew Hgames Harrays (g & Hg & Hwf & Hptr)].
  destruct o as [column|v|r c v|i m|m|n]; simpl.
  - unfold mem.MakeMove. rewrite Hg. simpl.
    destruct ((column <? 0) || (column >=? Columns)); [by intros [= <-]|].
    destruct (_ =? -1); [by intros [= <-]|].
    set (move := mkMove _ _ _).
    pose proof (append_spec h0 h (Moves g) move Hwf Hptr Harrays)
      as (Hg' & Hwf' & Hptr' & Harrays' & _).
    destruct (mem.append growcap (Moves g) move h) as [s h1]. simpl in *.
    assert (Hgames1 : ∀ p, p ≠ q → mem.games h1 !! p = mem.games h0 !! p)
      by (intros p Hp; rewrite Hg'; by apply Hgames).
    destruct (CheckWin _ _ _); [|destruct (IsBoardFull _);
      [|destruct (CurrentPlayer g =? Player1)]];
      simpl; intros [= <-]; by apply frame_store.
  - rewrite Hg. simpl. intros [= <-]. by apply frame_store.
  - rewrite Hg. simpl. destruct (in_range r c); [|done].
    intros [= <-]. by apply frame_store.
  - rewrite Hg. simpl. destruct (mem.ptr (Moves g)) as [l|] eqn:Hl; [|done].
    destruct (i <? mem.len (Moves g))%nat; [|done]. intros [= <-].
    split; simpl; [done | done | |].
    + intros l' a Ha. rewrite lookup_insert_ne; [by apply Harrays|].
      intros <-. rewrite (Hptr l eq_refl) in Ha. done.
    + exists g. split; [done|].
      split; [|intros l0 Hl0; apply Hptr; congruence].
      destruct Hwf as [Hle Hp]. split; [done|]. rewrite Hl in *.
      destruct Hp as (a & Ha & Hcap). unfold mem.array_of. rewrite Hl, Ha. simpl.
      rewrite lookup_insert_eq. eexists. split; [done|]. by rewrite length_insert.
  - rewrite Hg. simpl.
    pose proof (append_spec h0 h (Moves g) m Hwf Hptr Harrays)
      as (Hg' & Hwf' & Hptr' & Harrays' & _).
    destruct (mem.append growcap (Moves g) m h) as [s h1]. simpl in *.
    intros [= <-]. apply frame_store; try done.
    intros p Hp. rewrite Hg'. by apply Hgames.
  - rewrite Hg. simpl. destruct (n <=? mem.cap (Moves g))%nat eqn:Hn; [|done].
    apply Nat.leb_le in Hn. intros [= <-]. apply frame_store; try done.
    destruct Hwf as [Hle Hp]. split; simpl; [done|].
    destruct (mem.ptr (Moves g)); [done|]. lia.
Qed.

Lemma frame_run (h0 h : mem.heap) (q : positive) (ops : list mem.op) :
  mem.frame h0 h q → mem.frame h0 (mem.run growcap q ops h) q.
Proof.
  revert h. induction ops as [|o ops IH]; intros h Hfr; simpl; [done|].
  destruct (mem.exec growcap q o h) as [h'|] eqn:Hexec; [|done].
  apply IH. by apply (frame_exec h0 h h' q o).
Qed.

(** A game of the old store reads the same in a store framed on it. *)
Lemma frame_view (h0 h : mem.heap) (q p : positive) (g : Game) :
  mem.wf_heap h0 → mem.frame h0 h q →
  mem.view h0 p = Some g → mem.view h p = Some g.
Proof.
  intros Hwf [Hnew Hgames Harrays _]. unfold mem.view.
  destruct (mem.games h0 !! p) as [gs|] eqn:Hgs; [|done]. simpl.
  assert (Hp : p ≠ q) by (intros ->; by rewrite Hnew in Hgs).
  rewrite (Hgames p Hp), Hgs. simpl. intros [= <-]. do 2 f_equal.
  unfold mem.elems, mem.array_of. destruct (Hwf p gs Hgs) as [_ Hptr].
  destruct (mem.ptr (Moves gs)) as [l|]; [|done].
  destruct Hptr as (a & Ha & _). by rewrite (Harrays l a Ha), Ha.
Qed.

(** [Clone] allocates a struct and an array that the store did not have,
    and the clone reads as the value-level [Clone] of the original. *)
Lemma Clone_spec (h : mem.heap) (p : positive) (g : Game) :
  mem.wf_heap h → mem.view h p = Some g →
  ∃ q h1, mem.Clone p h = Some (q, h1) ∧ q ≠ p ∧
          mem.frame h h1 q ∧ mem.view h1 q = Some (Clone g).
Proof.
  intros Hwf Hview. unfold mem.view in Hview. unfold mem.Clone.
  destruct (mem.games h !! p) as [gs|] eqn:Hgs; [|done]. simpl in *.
  injection Hview as <-.
  pose proof (Hwf p gs Hgs) as Hwfs. pose proof (elems_length h _ Hwfs) as Hlen.
  set (q := fresh (dom (mem.games h))). set (l := fresh (dom (mem.arrays h))).
  assert (Hq : mem.games h !! q = None) by apply fresh_game_None.
  assert (Hl : mem.arrays h !! l = None) by apply fresh_array_None.
  eexists q, _. split; [reflexivity|].
  split; [intros ->; by rewrite Hq in Hgs|].
  assert (Hsrc : mem.elems (mem.store_array l (replicate (mem.len (Moves gs)) mem.zeroMove) h)
                           (Moves gs) = mem.elems h (Moves gs)).
  { unfold mem.elems, mem.array_of. simpl. destruct Hwfs as [_ Hptr].
    destruct (mem.ptr (Moves gs)) as [l0|]; [|done].
    destruct Hptr as (a & Ha & _). rewrite lookup_insert_ne; [done|].
    intros <-. by rewrite Hl in Ha. }
  split.
  - split; simpl.
    + done.
    + intros p0 Hp0. by rewrite lookup_insert_ne.
    + intros l0 a Ha. rewrite lookup_insert_ne; [|intros <-; by rewrite Hl in Ha].
      rewrite lookup_insert_ne; [done | intros <-; by rewrite Hl in Ha].
    + eexists. rewrite lookup_insert_eq. split; [done|]. simpl.
      split; [|by intros l0 [= <-]].
      split; simpl; [done|]. rewrite lookup_insert_eq. eexists. split; [done|].
      rewrite Nat.min_id, Hsrc, length_app, length_take, Hlen, length_drop.
      unfold mem.array_of. simpl. rewrite lookup_insert_eq. simpl.
      rewrite length_replicate. lia.
  - unfold mem.view. simpl. rewrite lookup_insert_eq. simpl. unfold Clone, with_Moves.
    simpl. do 2 f_equal.
    unfold mem.elems at 1, mem.array_of at 1. simpl. rewrite lookup_insert_eq. simpl.
    rewrite Nat.min_id, Hsrc. rewrite take_app_length'; [|by rewrite length_take; lia].
    apply take_ge. lia.
Qed.

End StoreFacts.

Lemma mem_MakeMove_eq (growcap : nat → nat) (h : mem.heap) (q : positive)
    (gs : GameOf mem.slice) (c : Z) :
  mem.games h !! q = Some gs →
  mem.MakeMove growcap q c h =
    if (c <? 0) || (c >=? Columns) then Some (-1, false, h)
    else
      let row := lowest_empty (Board gs) c 6 in
      if row =? -1 then Some (-1, false, h)
      else
        let sh := mem.append growcap (Moves gs) (mkMove (CurrentPlayer gs) c row) h in
        let g1 := with_Moves
                    (with_Board gs (set_cell (Board gs) row c (CurrentPlayer gs)))
                    (fst sh) in
        if CheckWin g1 row c
        then Some (row, true,
                   mem.store q (with_IsOver (with_Winner g1 (CurrentPlayer gs)) true) (snd sh))
        else if IsBoardFull g1
        then Some (row, true,
                   mem.store q (with_IsOver (with_IsDraw g1 true) true) (snd sh))
        else Some (row, true,
                   mem.store q (if CurrentPlayer gs =? Player1
                                then with_CurrentPlayer g1 Player2
                                else with_CurrentPlayer g1 Player1) (snd sh)).
Proof.
  intros Hgs. unfold mem.MakeMove. rewrite Hgs. cbn [mbind option_bind].
  destruct ((c <? 0) || (c >=? Columns)); [done|].
  change (Z.to_nat Rows) with 6%nat. cbv zeta.
  destruct (_ =? -1); [done|].
  by destruct (mem.append growcap _ _ h) as [s h1].
Qed.

(** [MakeMove] through a pointer does to the value read through the pointer
    what the value-level [MakeMove] does. *)
Lemma MakeMove_refines (growcap : nat → nat) (h : mem.heap) (q : positive)
    (g : Game) (c : Z) :
  mem.wf_heap h → mem.view h q = Some g →
  ∃ h', mem.MakeMove growcap q c h =
          Some (row_of (MakeMove g c), ok_of (MakeMove g c), h') ∧
        mem.view h' q = Some (game_of (MakeMove g c)).
Proof.
  intros Hwf Hview. unfold mem.view in Hview.
  destruct (mem.games h !! q) as [gs|] eqn:Hgs; [|done].
  cbn [mbind option_bind] in Hview. injection Hview as <-.
  rewrite (mem_MakeMove_eq growcap h q gs c Hgs), MakeMove_eq.
  change (Board (with_Moves gs (mem.elems h (Moves gs)))) with (Board gs).
  destruct ((c <? 0) || (c >=? Columns)).
  { exists h. split; [done|]. unfold mem.view. by rewrite Hgs. }
  cbv zeta. set (row := lowest_empty (Board gs) c 6).
  destruct (row =? -1).
  { exists h. split; [done|]. unfold mem.view. by rewrite Hgs. }
  set (move := mkMove (CurrentPlayer gs) c row).
  pose proof (append_spec growcap (mem.mkHeap ∅ ∅) h (Moves gs) move (Hwf q gs Hgs))
    as Happ.
  destruct Happ as (_ & _ & _ & _ & Helems); [done | done |].
  change (CurrentPlayer (with_Moves gs (mem.elems h (Moves gs))))
    with (CurrentPlayer gs).
  set (sh := mem.append growcap (Moves gs) move h) in *.
  set (g1 := with_Moves (with_Board gs _) (fst sh)).
  set (g1' := placed _ row c).
  assert (Hv : ∀ gs' : GameOf mem.slice, Moves gs' = fst sh →
            mem.view (mem.store q gs' (snd sh)) q =
              Some (with_Moves gs' (mem.elems h (Moves gs) ++ [move]))).
  { intros gs' Hs. unfold mem.view. cbn [mem.games mem.store].
    rewrite lookup_insert_eq. cbn [mbind option_bind]. rewrite Hs.
    change (mem.elems (mem.store q gs' (snd sh)) (fst sh))
      with (mem.elems (snd sh) (fst sh)).
    by rewrite Helems. }
  rewrite (CheckWin_board g1 g1' row c eq_refl).
  rewrite (IsBoardFull_board g1 g1' eq_refl).
  destruct (CheckWin g1' row c); [|destruct (IsBoardFull g1')].
  - eexists. split; [reflexivity|]. by rewrite Hv.
  - eexists. split; [reflexivity|]. by rewrite Hv.
  - eexists. split; [reflexivity|]. unfold game_of, switch_turn. cbn [snd].
    change (CurrentPlayer g1') with (CurrentPlayer gs).
    destruct (CurrentPlayer gs =? Player1); by rewrite Hv.
Qed.

(** C5.  [Clone] returns a new struct whose grid, move history, current
    player and flags equal the original's, and no sequence of [MakeMove]
    calls, field writes and move-list mutations through the clone's pointer
    changes what the original, or any other game of the store, reads as:
    its board, its moves and its [GetValidMoves] stay the same. *)
Theorem Clone_independent (growcap : nat → nat) (h : mem.heap) (p : positive)
    (g : Game) :
  mem.wf_heap h → wf_board (Board g) → mem.view h p = Some g →
  ∃ q h1, mem.Clone p h = Some (q, h1) ∧ q ≠ p ∧
    mem.view h1 q = Some g ∧
    ∀ ops,
      mem.view (mem.run growcap q ops h1) p = Some g ∧
      GetValidMoves <$> mem.view (mem.run growcap q ops h1) p = Some (GetValidMoves g) ∧
      ∀ p' g', mem.view h p' = Some g' →
               mem.view (mem.run growcap q ops h1) p' = Some g'.
Proof.
  intros Hwf Hboard Hview.
  destruct (Clone_spec h p g Hwf Hview) as (q & h1 & Hclone & Hne & Hfr & Hq).
  exists q, h1. split; [done|]. split; [done|].
  split; [by rewrite Hq, Clone_id|].
  intros ops. pose proof (frame_run growcap h h1 q ops Hfr) as Hfr'.
  assert (Hall : ∀ p' g', mem.view h p' = Some g' →
                          mem.view (mem.run growcap q ops h1) p' = Some g')
    by (intros p' g'; by apply (frame_view h _ q)).
  split; [by apply Hall|]. split; [|done]. by rewrite (Hall p g Hview).
Qed.

Lemma wf_one_game_store : mem.wf_heap one_game_store.
Proof.
  intros p gs Hgs. unfold one_game_store in Hgs. cbn [mem.games] in Hgs.
  apply lookup_singleton_Some in Hgs as [<- <-].
  split; simpl; [lia|]. eexists. split; [reflexivity|]. simpl. lia.
Qed.

(** The clone of the game at address 1 is played on, overwritten, appended
    to and resliced; the game at address 1 still reads as before. *)
Lemma Clone_independent_witness :
  ∃ q h1, mem.Clone 1%positive one_game_store = Some (q, h1) ∧
    mem.view h1 q = Some (after [3; 3]) ∧
    mem.view (mem.run double_cap q clone_ops h1) 1%positive = Some (after [3; 3]).
Proof.
  destruct (Clone_independent double_cap one_game_store 1%positive (after [3; 3]))
    as (q & h1 & Hclone & _ & Hq & Hops).
  - exact wf_one_game_store.
  - vm_compute. reflexivity.
  - vm_compute. reflexivity.
  - exists q, h1. split; [exact Hclone|]. split; [exact Hq|].
    exact (proj1 (Hops clone_ops)).
Defined.

(** The operations do change the clone. *)
Example clone_ops_change_clone :
  (let '(q, h1) := default (1%positive, one_game_store) (mem.Clone 1%positive one_game_store) in
   Moves <$> mem.view (mem.run double_cap q clone_ops h1) q)
  = Some [mkMove 9 9 9; mkMove 8 8 8; mkMove 1 0 5].
Proof. vm_compute. reflexivity. Qed.

(** With a copy of the struct alone the array is shared, and a write
    through the copy shows in the original. *)
Example struct_copy_shares_moves :
  (let '(q, h1) := default (1%positive, one_game_store) (struct_copy 1%positive one_game_store) in
   Moves <$> mem.view (mem.run double_cap q [mem.OpSetMove 0 (mkMove 9 9 9)] h1) 1%positive)
  = Some [mkMove 9 9 9; mkMove 2 3 4].
Proof. vm_compute. reflexivity. Qed.

(** ** Game creation *)

Lemma elem_of_Sent_tail (l new : list (string * ws.Message.t)) (x : string * ws.Message.t) :
  x ∈ drop (length l) (l ++ new) ↔ x ∈ new.
Proof. by rewrite drop_app_length. Qed.

(** C9.  [startGame], the one place where games are created, stores under
    the new id a game whose current player is player 1, and what it sends
    is a [game_start] with [YourTurn = true] to player 1 and, when player 2
    is a client, a [game_start] with [YourTurn = false] to player 2.  The
    pairing of [AddPlayer] and the bot fallback of [handleTimeout] are
    calls of [startGame], with the waiting client as player 1. *)
Theorem game_start_player1_first :
  (∀ (s : server.State) (player1 : string) (player2 : option string)
     (isBot : bool) (gameID : string) (now : Z),
     let s' := server.startGame player1 player2 isBot gameID now s in
     let p1 := server.client_at s player1 in
     let p2Name := match player2 with
                   | Some p2 => ws.Client.Username (server.client_at s p2)
                   | None => "Bot"
                   end in
     (∃ g, server.Games s' !! gameID = Some g ∧ CurrentPlayer g = Player1 ∧
           IsOver g = false ∧ Moves g = [] ∧ IsBot g = isBot ∧
           Player1ID g = ws.Client.ID p1 ∧ Player1Name g = ws.Client.Username p1 ∧
           Player2Name g = p2Name) ∧
     server.Sent s' =
       server.Sent s ++
       (if decide (ws.Client.ID p1 ∈ server.Clients s)
        then [(ws.Client.ID p1, server.msg_game_start gameID p2Name true isBot Player1)]
        else []) ++
       match player2 with
       | Some p2 =>
           if decide (ws.Client.ID (server.client_at s p2) ∈ server.Clients s)
           then [(ws.Client.ID (server.client_at s p2),
                  server.msg_game_start gameID (ws.Client.Username p1) false false Player2)]
           else []
       | None => []
       end ∧
     ∀ to m, (to, m) ∈ drop (length (server.Sent s)) (server.Sent s') →
       ws.Message.Type_ m = "game_start" ∧ ws.Message.GameID m = gameID ∧
       ((ws.Message.Player m = Player1 ∧ ws.Message.YourTurn m = true ∧
         to = ws.Client.ID p1) ∨
        (ws.Message.Player m = Player2 ∧ ws.Message.YourTurn m = false ∧
         ∃ p2, player2 = Some p2 ∧ to = ws.Client.ID (server.client_at s p2)))) ∧
  (∀ (s : server.State) (client gameID : string) (now : Z),
     match server.pick_opponent s client (server.WaitingQueue s) with
     | Some (wp, rest) =>
         server.AddPlayer client gameID now s =
           server.startGame wp (Some client) false gameID now
                            (server.with_WaitingQueue s rest)
     | None => server.Games (server.AddPlayer client gameID now s) = server.Games s
     end) ∧
  (∀ (s : server.State) (client gameID : string) (now : Z),
     match server.remove_waiting s (ws.Client.ID (server.client_at s client))
                                 (server.WaitingQueue s) with
     | Some rest =>
         server.handleTimeout client gameID now s =
           server.startGame client None true gameID now
                            (server.with_WaitingQueue s rest)
     | None => server.handleTimeout client gameID now s = s
     end).
Proof.
  split; [|split].
  - intros s player1 player2 isBot gameID now. cbv zeta.
    set (p1 := server.client_at s player1).
    assert (Hsent : ∀ s0 to m,
              server.Sent (server.SendToClient to m s0) =
                server.Sent s0 ++
                (if decide (to ∈ server.Clients s0) then [(to, m)] else [])).
    { intros s0 to m. unfold server.SendToClient.
      destruct (decide (to ∈ server.Clients s0)); simpl; [done | by rewrite app_nil_r]. }
    assert (Hgames : ∀ s0 to m,
              server.Games (server.SendToClient to m s0) = server.Games s0).
    { intros s0 to m. unfold server.SendToClient. by destruct (decide _). }
    assert (Hcl : ∀ s0 to m,
              server.Clients (server.SendToClient to m s0) = server.Clients s0).
    { intros s0 to m. unfold server.SendToClient. by destruct (decide _). }
    assert (Hbot : ∀ g s0, server.Games (server.onGameStart g s0) = server.Games s0
                          ∧ server.Sent (server.onGameStart g s0) = server.Sent s0).
    { intros g s0. unfold server.onGameStart. by destruct (IsBot g). }
    assert (Heq :
      server.Sent (server.startGame player1 player2 isBot gameID now s) =
        server.Sent s ++
        (if decide (ws.Client.ID p1 ∈ server.Clients s)
         then [(ws.Client.ID p1,
                server.msg_game_start gameID
                  match player2 with
                  | Some p2 => ws.Client.Username (server.client_at s p2)
                  | None => "Bot"
                  end true isBot Player1)]
         else []) ++
        match player2 with
        | Some p2 =>
            if decide (ws.Client.ID (server.client_at s p2) ∈ server.Clients s)
            then [(ws.Client.ID (server.client_at s p2),
                   server.msg_game_start gameID (ws.Client.Username p1) false false Player2)]
            else []
        | None => []
        end).
    { unfold server.startGame. cbv zeta. fold p1. rewrite (proj2 (Hbot _ _)).
      destruct player2 as [p2|]; cbn [fmap option_fmap option_map].
      - rewrite Hsent, Hsent, Hcl. simpl. by rewrite <- app_assoc.
      - rewrite Hsent. simpl. by rewrite app_nil_r. }
    split; [|split; [exact Heq|]].
    + unfold server.startGame. cbv zeta. fold p1. rewrite (proj1 (Hbot _ _)).
      destruct player2 as [p2|]; cbn [fmap option_fmap option_map];
        rewrite ?Hgames; simpl; rewrite lookup_insert_eq;
        eexists; (split; [reflexivity|]); simpl; done.
    + intros to m. rewrite Heq, elem_of_Sent_tail. clear Heq. intros Hin.
      apply elem_of_app in Hin as [Hin|Hin].
      * destruct (decide _); [|by apply elem_of_nil in Hin].
        apply list_elem_of_singleton in Hin as [= -> ->]. simpl. tauto.
      * destruct player2 as [p2|]; [|by apply elem_of_nil in Hin].
        destruct (decide _); [|by apply elem_of_nil in Hin].
        apply list_elem_of_singleton in Hin as [= -> ->]. simpl.
        split; [done|]. split; [done|]. right. eauto.
  - intros s client gameID now. unfold server.AddPlayer.
    destruct (server.pick_opponent s client (server.WaitingQueue s)) as [[wp rest]|];
      [done|].
    unfold server.SendToClient. by destruct (decide _).
  - intros s client gameID now. unfold server.handleTimeout.
    by destruct (server.remove_waiting s _ _).
Qed.

(** [startGame] for two connected clients: the game stored under g1 has
    player 1 to move. *)
Lemma game_start_player1_first_witness :
  ∃ g, server.Games
         (server.startGame "c1" (Some "c2") false "g1" 101
            (server.run [server.Connect "c1"; server.Connect "c2"] server.init))
         !! "g1" = Some g ∧
       CurrentPlayer g = Player1.
Proof.
  destruct game_start_player1_first as [Hstart _].
  destruct (Hstart (server.run [server.Connect "c1"; server.Connect "c2"] server.init)
                   "c1" (Some "c2") false "g1" 101) as [(g & Hg & Hp & _) _].
  exists g. split; [exact Hg | exact Hp].
Defined.

(** alice waits, bob joins: game g1 starts with alice as player 1, and the
    two notifications carry [YourTurn] true for alice's connection c1 and
    false for bob's c2.  carol's timer fires: game g2 against the bot, and
    carol is told she moves first. *)
Example game_start_of_the_two_paths :
  (CurrentPlayer <$> server.Games (server.run two_joined server.init) !! "g1") = Some Player1 ∧
  filter (fun x => ws.Message.Type_ x.2 = "game_start")
         (server.Sent (server.run two_joined server.init)) =
    [("c1", server.msg_game_start "g1" "bob" true false Player1);
     ("c2", server.msg_game_start "g1" "alice" false false Player2)] ∧
  (CurrentPlayer <$> server.Games (server.run lone_join server.init) !! "g2") = Some Player1 ∧
  filter (fun x => ws.Message.Type_ x.2 = "game_start")
         (server.Sent (server.run lone_join server.init)) =
    [("c9", server.msg_game_start "g2" "Bot" true true Player1)].
Proof. vm_compute. repeat split. Qed.

(** ** The player index *)

(** C7 fails on the code.  After alice and bob are paired, the index holds
    the two connection ids and no entry for the name alice, who plays in a
    game that is not over; [startGame] never writes an entry keyed by a
    name. *)
Theorem name_index_invariant_fails : ¬ name_index_invariant.
Proof.
  intros Hinv. destruct (Hinv two_joined "alice") as [_ Hmissing].
  assert (Hnone : server.PlayerToGame (server.run two_joined server.init) !! "alice" = None)
    by (vm_compute; reflexivity).
  rewrite Hnone in Hmissing. apply (is_Some_None (A := string)), Hmissing.
  eexists "g1", _. split; [vm_compute; reflexivity|]. split; [reflexivity|]. by left.
Qed.

(** The other direction fails too: an entry keyed by the name is written by
    [handleReconnect], and [endGame] removes the entries keyed by
    [Player1ID] and [Player2ID] only.  After alice reconnects and the game
    is won, the entries of alice and of her second connection are still
    there although no game is live. *)
Example stale_entries_after_endGame :
  let s := server.run reconnect_then_win server.init in
  (IsOver <$> server.Games s !! "g1") = Some true ∧
  (Winner <$> server.Games s !! "g1") = Some Player1 ∧
  map_to_list (server.Games s) = [("g1", default fresh_game (server.Games s !! "g1"))] ∧
  server.PlayerToGame s !! "alice" = Some "g1" ∧
  server.PlayerToGame s !! "c3" = Some "g1" ∧
  server.PlayerToGame s !! "c1" = None ∧
  server.PlayerToGame s !! "c2" = None.
Proof. vm_compute. repeat split. Qed.

(** A player who joins again under her name while her game is live is not
    taken back to it: the lookup of [handleJoin] by user name finds nothing,
    and she is queued for a new match. *)
Example rejoin_by_name_is_queued :
  let s := server.run rejoin_by_name server.init in
  (IsOver <$> server.Games s !! "g1") = Some false ∧
  server.WaitingQueue s = ["c3"] ∧
  last (server.Sent s) = Some ("c3", server.msg_waiting).
Proof. vm_compute. repeat split. Qed.

(** ** The games of the registry are games reachable by play *)

Lemma ID_MakeMove (g : Game) (c : Z) : ID (game_of (MakeMove g c)) = ID g.
Proof.
  destruct (MakeMove_inv g c); unfold game_of; simpl; try done.
  unfold switch_turn. simpl. by destruct (CurrentPlayer g =? Player1).
Qed.

Lemma Games_SendToClient (to : string) (m : ws.Message.t) (s : server.State) :
  server.Games (server.SendToClient to m s) = server.Games s.
Proof. unfold server.SendToClient. by destruct (decide _). Qed.

Lemma registry_ok_same (s s' : server.State) :
  server.Games s' = server.Games s → registry_ok s → registry_ok s'.
Proof. unfold registry_ok. by intros ->. Qed.

Lemma registry_ok_SetGame (s : server.State) (gid : string) (g : Game) :
  registry_ok s → ID g = gid → (IsOver g = false → reachable g) →
  registry_ok (server.SetGame gid g s).
Proof.
  intros Hok Hid Hreach gid' g'. unfold server.SetGame. simpl.
  destruct (decide (gid = gid')) as [<-|Hne].
  - rewrite lookup_insert_eq. by intros [= <-].
  - rewrite lookup_insert_ne by done. apply Hok.
Qed.

Lemma registry_ok_startGame (s : server.State) (player1 : string)
    (player2 : option string) (isBot : bool) (gameID : string) (now : Z) :
  registry_ok s → registry_ok (server.startGame player1 player2 isBot gameID now s).
Proof.
  intros Hok. unfold server.startGame. cbv zeta.
  set (newGame := with_StartTime _ now).
  eapply registry_ok_same;
    [|apply (registry_ok_SetGame s gameID newGame Hok); [done|]].
  - unfold server.onGameStart.
    destruct (IsBot newGame), player2 as [p2|]; simpl;
      rewrite ?Games_SendToClient; simpl; rewrite ?Games_SendToClient; done.
  - intros _. eexists _, _, _, _, _, _, now, []. reflexivity.
Qed.

Lemma registry_ok_endGame (s : server.State) (g : Game) (now : Z) :
  registry_ok s → IsOver g = true → registry_ok (server.endGame g now s).
Proof.
  intros Hok Hover. unfold server.endGame. cbv zeta.
  eapply registry_ok_same;
    [|apply (registry_ok_SetGame s (ID g) (with_EndTime g now) Hok); [done|]].
  - destruct (if IsDraw (with_EndTime g now) then _ else _) as [winnerName reason].
    by destruct (negb (IsBot (with_EndTime g now))).
  - simpl. by rewrite Hover.
Qed.

(** A move applied to a live game of the registry keeps the registry in
    order, with or without the end of the game: the common tail of
    [handleMove] and [makeBotMove]. *)
Lemma registry_ok_move (s s1 : server.State) (gid : string) (g : Game) (c now : Z)
    (m : ws.Message.t) :
  registry_ok s → server.Games s1 = server.Games s →
  server.Games s !! gid = Some g → IsOver g = false →
  ok_of (MakeMove g c) = true →
  let g' := game_of (MakeMove g c) in
  registry_ok
    (let s2 := server.broadcast m (server.SetGame gid g' s1) in
     if IsOver g' then server.endGame g' now s2 else s2).
Proof.
  intros Hok Hsame Hg Hlive Hmove. cbv zeta.
  destruct (Hok gid g Hg) as [Hid Hreach].
  assert (Hok1 : registry_ok s1) by (by apply (registry_ok_same s)).
  assert (Hok2 : registry_ok (server.broadcast m
                   (server.SetGame gid (game_of (MakeMove g c)) s1))).
  { eapply registry_ok_same;
      [|apply (registry_ok_SetGame s1 gid (game_of (MakeMove g c)) Hok1)].
    - done.
    - by rewrite ID_MakeMove.
    - intros _. apply reachable_MakeMove; [by apply Hreach | done]. }
  destruct (IsOver (game_of (MakeMove g c))) eqn:Hover; [|done].
  by apply registry_ok_endGame.
Qed.

Lemma Games_set_fields (s : server.State) (id x : string) :
  server.Games (server.set_Username id x s) = server.Games s ∧
  server.Games (server.set_GameID id x s) = server.Games s ∧
  server.Games (server.SetPlayerGame id x s) = server.Games s ∧
  server.Games (server.CancelDisconnectTimer id s) = server.Games s.
Proof. done. Qed.

Lemma registry_ok_AddPlayer (s : server.State) (client gameID : string) (now : Z) :
  registry_ok s → registry_ok (server.AddPlayer client gameID now s).
Proof.
  intros Hok. unfold server.AddPlayer.
  destruct (server.pick_opponent s client (server.WaitingQueue s)) as [[wp rest]|].
  - apply registry_ok_startGame. by apply (registry_ok_same s).
  - apply (registry_ok_same s); [|done]. by rewrite Games_SendToClient.
Qed.

Lemma registry_ok_handleJoin (s : server.State) (client : string) (msg : ws.Message.t)
    (gameID : string) (now : Z) :
  registry_ok s → registry_ok (server.handleJoin client msg gameID now s).
Proof.
  intros Hok. unfold server.handleJoin.
  destruct (String.eqb (ws.Message.Username msg) EmptyString).
  { apply (registry_ok_same s); [|done]. by rewrite Games_SendToClient. }
  cbv zeta.
  match goal with |- context [match ?r with Some _ => _ | None => _ end] =>
    destruct r as [existingGame|] end.
  - apply (registry_ok_same s); [|done]. by rewrite Games_SendToClient.
  - apply registry_ok_AddPlayer. by apply (registry_ok_same s).
Qed.

Lemma registry_ok_handleMove (s : server.State) (client : string) (msg : ws.Message.t)
    (now : Z) :
  registry_ok s → registry_ok (server.handleMove client msg now s).
Proof.
  intros Hok. unfold server.handleMove. cbv zeta.
  assert (Herr : ∀ to m, registry_ok (server.SendToClient to m s))
    by (intros to m; apply (registry_ok_same s); [by rewrite Games_SendToClient | done]).
  destruct (String.eqb _ EmptyString); [apply Herr|].
  unfold server.GetGame.
  destruct (server.Games s !! _) as [g|] eqn:Hg; [|apply Herr].
  destruct (IsOver g) eqn:Hlive; [apply Herr|].
  destruct (negb _ && negb _); [apply Herr|].
  destruct (negb (CurrentPlayer g =? _)); [apply Herr|].
  destruct (MakeMove g (ws.Message.Column msg)) as [[row valid] g'] eqn:Hmm.
  destruct valid; [|apply Herr]. simpl.
  assert (Hg' : g' = game_of (MakeMove g (ws.Message.Column msg))) by (by rewrite Hmm).
  rewrite Hg'.
  apply (registry_ok_move s s _ g (ws.Message.Column msg) now); try done.
  by rewrite Hmm.
Qed.

Lemma registry_ok_handleReconnect (s : server.State) (client : string)
    (msg : ws.Message.t) :
  registry_ok s → registry_ok (server.handleReconnect client msg s).
Proof.
  intros Hok. unfold server.handleReconnect. cbv zeta.
  assert (Herr : ∀ to m, registry_ok (server.SendToClient to m s))
    by (intros to m; apply (registry_ok_same s); [by rewrite Games_SendToClient | done]).
  destruct (_ || _); [apply Herr|].
  destruct (server.GetGame _ s) as [g|]; [|apply Herr].
  destruct (IsOver g); [apply Herr|].
  destruct (negb _ && negb _); [apply Herr|].
  apply (registry_ok_same s); [|done]. by rewrite Games_SendToClient.
Qed.

Lemma registry_ok_makeBotMove (s : server.State) (gameID : string) (seed : nat) (now : Z) :
  registry_ok s →
  (∀ g, server.Games s !! gameID = Some g → IsOver g = false) →
  registry_ok (server.makeBotMove gameID seed now s).
Proof.
  intros Hok Hlive. unfold server.makeBotMove, server.GetGame.
  destruct (server.Games s !! gameID) as [g|] eqn:Hg; [|done].
  destruct (Hok gameID g Hg) as [Hid _].
  set (sb := match server.BotPlayers s !! ID g with
             | Some b => (b, s)
             | None => _
             end).
  assert (Hsb : server.Games sb.2 = server.Games s)
    by (unfold sb; by destruct (server.BotPlayers s !! ID g)).
  destruct sb as [botPlayer s1]. simpl in Hsb.
  destruct (MakeMove g (bot.GetMove botPlayer g seed)) as [[row valid] g'] eqn:Hmm.
  destruct valid; simpl; [|by apply (registry_ok_same s)].
  assert (Hg' : g' = game_of (MakeMove g (bot.GetMove botPlayer g seed)))
    by (by rewrite Hmm).
  rewrite Hg'.
  apply (registry_ok_move s s1 gameID g (bot.GetMove botPlayer g seed) now); try done.
  - by apply Hlive.
  - by rewrite Hmm.
Qed.

Lemma registry_ok_step (s : server.State) (e : server.event) :
  registry_ok s → registry_ok (server.step s e).
Proof.
  intros Hok. destruct e as [id|id|id msg uuid now|id uuid now|gameID seed now]; simpl.
  - by destruct (server.clients s !! id).
  - done.
  - destruct (server.clients s !! id); [|done].
    destruct (server.Games s !! uuid); [done|].
    unfold server.handleMessage.
    destruct (String.eqb _ "join"); [by apply registry_ok_handleJoin|].
    destruct (String.eqb _ "move"); [by apply registry_ok_handleMove|].
    destruct (String.eqb _ "reconnect"); [by apply registry_ok_handleReconnect|].
    done.
  - destruct (server.clients s !! id); [|done].
    destruct (server.Games s !! uuid); [done|].
    unfold server.handleTimeout.
    destruct (server.remove_waiting s _ _); [|done].
    apply registry_ok_startGame. by apply (registry_ok_same s).
  - destruct (server.Games s !! gameID) as [g|] eqn:Hg; [|done].
    destruct (IsBot g && negb (IsOver g) && (CurrentPlayer g =? Player2)) eqn:Hguard;
      [|done].
    apply registry_ok_makeBotMove; [done|].
    intros g0 Hg0. rewrite Hg in Hg0. injection Hg0 as <-.
    rewrite !andb_true_iff, negb_true_iff in Hguard. tauto.
Qed.

(** In every state the server reaches, the games of the registry that are
    not over are games reachable by play: the snapshots the bot is given
    and the games the handlers move in are such games. *)
Lemma registry_ok_run (events : list server.event) :
  registry_ok (server.run events server.init).
Proof.
  unfold server.run.
  assert (Hinit : registry_ok server.init) by (intros gid g Hg; done).
  revert Hinit. generalize server.init.
  induction events as [|e events IH]; intros s Hs; simpl; [done|].
  apply IH. by apply registry_ok_step.
Qed.

(** * Further properties of the board engine *)

(** ** The win check and four in a row *)

(** X1.  For a cell of the grid, [CheckWin] holds whenever four cells in a
    row that contain the cell hold the cell's value, along the row, the
    column or either diagonal; and whenever [CheckWin] holds, some four
    cells in a row of the board hold the cell's value. *)
Theorem CheckWin_four_in_a_row {M} (g : GameOf M) (row col : Z) :
  0 <= row < Rows → 0 <= col < Columns →
  (four_through (Board g) (cell (Board g) row col) row col → CheckWin g row col = true) ∧
  (CheckWin g row col = true → four_somewhere (Board g) (cell (Board g) row col)).
Proof.
  unfold Rows, Columns. intros Hr Hc. split.
  - by apply CheckWin_complete.
  - by apply CheckWin_sound.
Qed.

Lemma CheckWin_four_in_a_row_witness :
  four_somewhere (Board (game_of (MakeMove (after three_stacked) 0)))
                 (cell (Board (game_of (MakeMove (after three_stacked) 0))) 2 0).
Proof.
  destruct (CheckWin_four_in_a_row (game_of (MakeMove (after three_stacked) 0)) 2 0)
    as [_ Hsound]; [unfold Rows; lia | unfold Columns; lia |].
  apply Hsound. vm_compute. reflexivity.
Defined.

(** ** Legal columns *)

Lemma valid_moves_sorted (P : nat → Prop) `{∀ n, Decision (P n)} (a n : nat) :
  StronglySorted Z.lt (Z.of_nat <$> filter P (seq a n)) ∧
  Forall (fun x => Z.of_nat a <= x) (Z.of_nat <$> filter P (seq a n)).
Proof.
  revert a. induction n as [|n IH]; intros a; simpl.
  - split; constructor.
  - destruct (IH (S a)) as [Hsorted Hge].
    rewrite filter_cons. destruct (decide (P a)); simpl.
    + split.
      * constructor; [done|]. eapply Forall_impl; [exact Hge|].
        intros x Hx. simpl in Hx. lia.
      * constructor; [lia|]. eapply Forall_impl; [exact Hge|].
        intros x Hx. simpl in Hx. lia.
    + split; [done|]. eapply Forall_impl; [exact Hge|].
      intros x Hx. simpl in Hx. lia.
Qed.

(** X2.  [GetValidMoves] lists, in strictly ascending order and so without
    repetition, exactly the columns 0 to 6 whose top cell is Empty; it is
    empty exactly when [IsBoardFull] holds; and [MakeMove] accepts every
    column it lists. *)
Theorem GetValidMoves_IsBoardFull (g : Game) :
  StronglySorted Z.lt (GetValidMoves g) ∧
  (∀ c, c ∈ GetValidMoves g ↔ 0 <= c < Columns ∧ cell (Board g) 0 c = Empty) ∧
  (GetValidMoves g = [] ↔ IsBoardFull g = true) ∧
  (∀ c, c ∈ GetValidMoves g → ok_of (MakeMove g c) = true).
Proof.
  split; [apply valid_moves_sorted|].
  split; [apply GetValidMoves_spec|].
  split; [|apply valid_move_accepted].
  rewrite IsBoardFull_spec. split.
  - intros Hnil c Hc Hcell.
    assert (Hin : c ∈ GetValidMoves g) by (by apply GetValidMoves_spec).
    rewrite Hnil in Hin. by apply elem_of_nil in Hin.
  - intros Hfull. destruct (GetValidMoves g) as [|c l] eqn:Hl; [done|].
    assert (Hin : c ∈ GetValidMoves g) by (rewrite Hl; left).
    apply GetValidMoves_spec in Hin as [Hc Hcell]. by destruct (Hfull c Hc).
Qed.

(** ** The move history and the board *)

Lemma history_inv_MakeMove (g : Game) (c : Z) :
  game_inv g → history_inv g → ok_of (MakeMove g c) = true →
  history_inv (game_of (MakeMove g c)).
Proof.
  intros Hinv [Hcell Hall Hnodup] Hok.
  destruct (MakeMove_ok_effect g c (inv_wf g Hinv) Hok)
    as ((Hc & Hrow & Hempty & _) & (Hnew & Hother) & Hmoves & _).
  cbv zeta in *. set (row := row_of (MakeMove g c)) in *.
  set (g' := game_of (MakeMove g c)) in *.
  assert (Hin : in_range row c = true)
    by (apply in_range_spec; unfold Rows, Columns in *; lia).
  assert (Hold : ∀ m, m ∈ Moves g → (Row m, Column m) ≠ (row, c)).
  { intros m Hm [= Hr Hcol]. destruct (Hcell m Hm) as (_ & Hv & Hp).
    rewrite Hr, Hcol, Hempty in Hv. destruct Hp as [Hp|Hp]; rewrite Hp in Hv; done. }
  pose proof (inv_player g Hinv) as Hplayer.
  split.
  - intros m Hm. rewrite Hmoves in Hm. apply elem_of_app in Hm as [Hm|Hm].
    + destruct (Hcell m Hm) as (? & ? & ?). rewrite Hother by (by apply Hold). done.
    + apply list_elem_of_singleton in Hm as ->. simpl. done.
  - intros r k Hv. destruct (decide ((r, k) = (row, c))) as [[= -> ->]|Hne].
    + exists (mkMove (CurrentPlayer g) c row). rewrite Hmoves.
      split; [apply elem_of_app; right; by apply list_elem_of_singleton | done].
    + rewrite Hother in Hv by done. destruct (Hall r k Hv) as (m & Hm & ? & ?).
      exists m. rewrite Hmoves. split; [apply elem_of_app; by left | done].
  - unfold positions. rewrite Hmoves, fmap_app. apply NoDup_app.
    split; [done|]. split; [|apply NoDup_singleton].
    intros pos Hpos Hlast. simpl in Hlast.
    apply list_elem_of_singleton in Hlast as ->.
    apply list_elem_of_fmap in Hpos as (m & Heq & Hm). by apply (Hold m Hm).
Qed.

Lemma history_inv_play (cols : list Z) (g g' : Game) :
  game_inv g → history_inv g → play g cols = Some g' → history_inv g'.
Proof.
  revert g. induction cols as [|c cols IH]; simpl; intros g Hinv Hhist Hplay.
  - by injection Hplay as <-.
  - pose proof (game_inv_MakeMove g c Hinv) as Hstep.
    pose proof (history_inv_MakeMove g c Hinv Hhist) as Hstep'.
    destruct (MakeMove g c) as [[row ok] g1] eqn:Hmm. unfold ok_of, game_of in *.
    simpl in *. destruct ok; [|done]. apply (IH g1); auto.
Qed.

Lemma history_inv_reachable (g : Game) : reachable g → history_inv g.
Proof.
  intros (id & p1ID & p1Name & p2ID & p2Name & isBot & start & cols & Hplay).
  eapply history_inv_play; [apply game_inv_NewGame | | exact Hplay].
  split; simpl.
  - intros m Hm. by apply elem_of_nil in Hm.
  - intros r c Hv. by rewrite cell_zero_board in Hv.
  - constructor.
Qed.

Lemma elem_of_all_cells (r c : Z) : (r, c) ∈ all_cells ↔ in_range r c = true.
Proof.
  unfold all_cells. rewrite list_elem_of_In, in_prod_iff, <- !list_elem_of_In.
  rewrite !elem_of_seqZ, in_range_spec. unfold Rows, Columns. lia.
Qed.

(** X3.  In a game reachable by play the move history and the board tell
    the same story: every record names a cell of the grid that holds the
    record's player, every non-Empty cell is named by a record, no two
    records name the same cell, and there are at most 42 records. *)
Theorem history_matches_board (g : Game) :
  reachable g →
  (∀ m, m ∈ Moves g →
        0 <= Row m < Rows ∧ 0 <= Column m < Columns ∧
        cell (Board g) (Row m) (Column m) = Player m ∧
        (Player m = Player1 ∨ Player m = Player2)) ∧
  (∀ r c, cell (Board g) r c ≠ Empty →
          ∃ m, m ∈ Moves g ∧ Row m = r ∧ Column m = c) ∧
  NoDup (positions g) ∧
  (length (Moves g) ≤ 42)%nat.
Proof.
  intros Hreach. pose proof (history_inv_reachable g Hreach) as [Hcell Hall Hnodup].
  pose proof (reachable_inv g Hreach) as Hinv.
  split; [|split; [done|split; [done|]]].
  - intros m Hm. destruct (Hcell m Hm) as (Hin & Hv & Hp).
    apply in_range_spec in Hin. unfold Rows, Columns.
    split; [lia|]. split; [lia|]. done.
  - replace (length (Moves g)) with (length (positions g))
      by (unfold positions; by rewrite length_fmap).
    change 42%nat with (length all_cells).
    apply submseteq_length, NoDup_submseteq; [done|].
    intros [r c] Hpos. apply elem_of_all_cells.
    apply list_elem_of_fmap in Hpos as (m & [= -> ->] & Hm).
    by destruct (Hcell m Hm).
Qed.

(** After alice has won with her fourth disc in column 0 the history has
    seven records, and the last one names the top of her column. *)
Lemma history_matches_board_witness :
  (length (Moves (game_of (MakeMove (after three_stacked) 0))) ≤ 42)%nat ∧
  NoDup (positions (game_of (MakeMove (after three_stacked) 0))).
Proof.
  destruct (history_matches_board (game_of (MakeMove (after three_stacked) 0)))
    as (_ & _ & Hnodup & Hlen).
  - apply reachable_MakeMove; [|vm_compute; reflexivity].
    apply reachable_after. vm_compute. discriminate.
  - split; [exact Hlen | exact Hnodup].
Defined.

(** ** Turns *)

Lemma IsOver_MakeMove (g : Game) (c : Z) :
  ok_of (MakeMove g c) = true → IsOver g = true →
  IsOver (game_of (MakeMove g c)) = true.
Proof.
  intros Hok Hover. destruct (MakeMove_ok_cases g c Hok) as (_ & _ & _ & Hcases).
  destruct Hcases as [[_ ->]|[(_ & _ & ->)|(_ & _ & ->)]]; [done | done |].
  unfold switch_turn. simpl. by destruct (CurrentPlayer g =? Player1).
Qed.

Lemma alternates_MakeMove (g : Game) (c : Z) :
  wf_board (Board g) →
  (IsOver g = false → alternates g) → ok_of (MakeMove g c) = true →
  IsOver (game_of (MakeMove g c)) = false → alternates (game_of (MakeMove g c)).
Proof.
  intros Hwf Halt Hok Hlive'.
  assert (Hlive : IsOver g = false).
  { destruct (IsOver g) eqn:Hover; [|done].
    by rewrite (IsOver_MakeMove g c Hok Hover) in Hlive'. }
  destruct (Halt Hlive) as [Hhist Hcur].
  destruct (MakeMove_ok_effect g c Hwf Hok) as (_ & _ & Hmoves & Hturn).
  destruct (terminal_cases g c Hok) as [Hwin Hdraw].
  cbv zeta in *. set (g' := game_of (MakeMove g c)) in *.
  destruct (CheckWin g' _ c) eqn:Hcheck.
  { destruct Hwin as (_ & Hover & _); [done|]. congruence. }
  destruct (IsBoardFull g') eqn:Hfull.
  { destruct Hdraw as (_ & Hover & _); [done|done|]. congruence. }
  simpl in Hturn. split.
  - intros i m Hm. rewrite Hmoves in Hm.
    apply lookup_snoc_Some in Hm as [[Hi Hm]|[-> <-]]; [by apply Hhist|].
    simpl. done.
  - rewrite Hturn, Hmoves, length_app, Hcur. simpl.
    rewrite Nat.add_1_r. unfold mover_of, other_player. rewrite Nat.even_succ.
    rewrite <- Nat.negb_even. by destruct (Nat.even (length (Moves g))).
Qed.

Lemma alternates_play (cols : list Z) (g g' : Game) :
  game_inv g → (IsOver g = false → alternates g) →
  play g cols = Some g' → IsOver g' = false → alternates g'.
Proof.
  revert g. induction cols as [|c cols IH]; simpl; intros g Hinv Halt Hplay.
  - injection Hplay as <-. done.
  - pose proof (game_inv_MakeMove g c Hinv) as Hstep.
    pose proof (alternates_MakeMove g c (inv_wf g Hinv) Halt) as Hstep'.
    destruct (MakeMove g c) as [[row ok] g1] eqn:Hmm. unfold ok_of, game_of in *.
    simpl in *. destruct ok; [|done]. apply (IH g1); auto.
Qed.

(** X4.  In a game reachable by play that is not over, the players of the
    move history alternate starting with player 1, and [CurrentPlayer] is the
    player whose turn comes next: player 1 after an even number of moves,
    player 2 after an odd number. *)
Theorem players_alternate (g : Game) :
  reachable g → IsOver g = false →
  (∀ i m, Moves g !! i = Some m → Player m = mover_of i) ∧
  CurrentPlayer g = mover_of (length (Moves g)).
Proof.
  intros (id & p1ID & p1Name & p2ID & p2Name & isBot & start & cols & Hplay) Hlive.
  eapply alternates_play; [apply game_inv_NewGame | | exact Hplay | exact Hlive].
  intros _. split; [|done]. intros i m Hm. simpl in Hm. by rewrite lookup_nil in Hm.
Qed.

Lemma players_alternate_witness :
  CurrentPlayer (after both_threaten) = mover_of (length (Moves (after both_threaten))).
Proof.
  apply (players_alternate (after both_threaten)).
  - apply reachable_after. vm_compute. discriminate.
  - vm_compute. reflexivity.
Defined.


(** ** The terminal flags *)

Lemma four_somewhere_placed (b : BoardT) (row c v p : Z) :
  cell b row c = Empty → p ≠ Empty →
  four_somewhere b p → four_somewhere (set_cell b row c v) p.
Proof.
  intros Hempty Hp (r0 & c0 & dr & dc & Hdir & Hfour).
  exists r0, c0, dr, dc. split; [done|]. intros i Hi.
  destruct (Hfour i Hi) as [Hin Hv]. split; [done|].
  rewrite cell_set_cell_ne; [done|]. intros [= Hr Hc]. rewrite Hr, Hc in Hv. congruence.
Qed.

(** The flags after a successful move, by the branch taken. *)
Lemma MakeMove_flags (g : Game) (c : Z) :
  ok_of (MakeMove g c) = true →
  let row := row_of (MakeMove g c) in
  let g' := game_of (MakeMove g c) in
  Board g' = set_cell (Board g) row c (CurrentPlayer g) ∧
  ((CheckWin g' row c = true ∧
    Winner g' = CurrentPlayer g ∧ IsOver g' = true ∧ IsDraw g' = IsDraw g) ∨
   (IsBoardFull g' = true ∧
    Winner g' = Winner g ∧ IsOver g' = true ∧ IsDraw g' = true) ∨
   (IsBoardFull g' = false ∧
    Winner g' = Winner g ∧ IsOver g' = IsOver g ∧ IsDraw g' = IsDraw g)).
Proof.
  intros Hok.
  destruct (MakeMove_ok_cases g c Hok) as (_ & _ & Hr & Hcases).
  cbv zeta in *. rewrite Hr. set (row := lowest_empty (Board g) c 6) in *.
  destruct Hcases as [[Hwin ->]|[(Hwin & Hf & ->)|(Hwin & Hf & ->)]].
  - split; [done|]. left. by rewrite <- Hwin.
  - split; [done|]. right; left. by rewrite <- Hf.
  - split; [by rewrite Board_switch_turn|]. right; right.
    rewrite (IsBoardFull_board _ (placed g row c) (Board_switch_turn _)).
    split; [done|]. unfold switch_turn. by destruct (CurrentPlayer _ =? Player1).
Qed.

Lemma flags_inv_MakeMove (g : Game) (c : Z) :
  game_inv g → flags_inv g → ok_of (MakeMove g c) = true →
  flags_inv (game_of (MakeMove g c)).
Proof.
  intros Hinv [Hfull Hover Hwinner Hdraw] Hok.
  pose proof (MakeMove_needs_room g c (inv_gravity g Hinv) Hok) as Hroom.
  assert (Hnodraw : IsDraw g = false).
  { destruct (IsDraw g) eqn:Hd; [|done].
    destruct (Hdraw eq_refl) as [_ Hf]. congruence. }
  destruct (MakeMove_ok_effect g c (inv_wf g Hinv) Hok)
    as ((Hc & Hrow & Hempty & _) & (Hcell & _) & _).
  destruct (MakeMove_flags g c Hok) as [Hb Hcases].
  cbv zeta in *.
  set (row := row_of (MakeMove g c)) in *. set (g' := game_of (MakeMove g c)) in *.
  assert (Hkeep : Winner g ≠ 0 → four_somewhere (Board g') (Winner g)).
  { intros Hw. rewrite Hb. apply four_somewhere_placed; [done | done |]. by apply Hwinner. }
  destruct (inv_player g Hinv) as [Hp|Hp].
  all: destruct Hcases as [(Hwin & HW & HO & HD)|[(Hf & HW & HO & HD)|(Hf & HW & HO & HD)]].
  all: split; rewrite ?HW, ?HO, ?HD, ?Hf; try done; try congruence.
  all: try (by left; rewrite Hp).
  all: try (by right).
  all: try (intros _; split; [done|]; split; [by rewrite Hp; auto|];
            apply CheckWin_sound in Hwin; unfold Rows, Columns in *; [|lia|lia];
            by rewrite Hcell in Hwin).
  all: intros Hw; destruct (Hwinner Hw) as (? & ? & _); split; [done|]; split; [done|];
       by apply Hkeep.
Qed.

Lemma flags_inv_play (cols : list Z) (g g' : Game) :
  game_inv g → flags_inv g → play g cols = Some g' → flags_inv g'.
Proof.
  revert g. induction cols as [|c cols IH]; simpl; intros g Hinv Hflags Hplay.
  - by injection Hplay as <-.
  - pose proof (game_inv_MakeMove g c Hinv) as Hstep.
    pose proof (flags_inv_MakeMove g c Hinv Hflags) as Hstep'.
    destruct (MakeMove g c) as [[row ok] g1] eqn:Hmm. unfold ok_of, game_of in *.
    simpl in *. destruct ok; [|done]. apply (IH g1); auto.
Qed.

Lemma flags_inv_reachable (g : Game) : reachable g → flags_inv g.
Proof.
  intros (id & p1ID & p1Name & p2ID & p2Name & isBot & start & cols & Hplay).
  eapply flags_inv_play; [apply game_inv_NewGame | | exact Hplay].
  split; simpl; done.
Qed.

(** X5.  In a game reachable by play the terminal flags tell the truth
    about the board.  A winner is player 1 or player 2, the game is then
    over and the board holds four in a row of the winner; a draw means the
    game is over and the board is full; a full board means the game is
    over; a game that is over has a winner or is a draw.  While the game is
    not over there is no winner, no draw, no four in a row of any player,
    and a column is still free. *)
Theorem flags_match_board (g : Game) :
  reachable g →
  (Winner g ≠ 0 →
     IsOver g = true ∧ (Winner g = Player1 ∨ Winner g = Player2) ∧
     four_somewhere (Board g) (Winner g)) ∧
  (IsDraw g = true → IsOver g = true ∧ IsBoardFull g = true) ∧
  (IsBoardFull g = true → IsOver g = true) ∧
  (IsOver g = true → Winner g ≠ 0 ∨ IsDraw g = true) ∧
  (IsOver g = false →
     Winner g = 0 ∧ IsDraw g = false ∧ GetValidMoves g ≠ [] ∧
     ∀ p, p ≠ Empty → ¬ four_somewhere (Board g) p).
Proof.
  intros Hreach. pose proof (flags_inv_reachable g Hreach) as [Hfull Hover Hwinner Hdraw].
  pose proof (reachable_inv g Hreach) as Hinv.
  split; [done|]. split; [done|]. split; [done|]. split; [done|].
  intros Hlive. destruct (inv_live g Hinv Hlive) as [Hw Hd].
  split; [done|]. split; [done|]. split; [|by apply (inv_no_four g Hinv)].
  intros Hnil. assert (Hf : IsBoardFull g = true); [|rewrite (Hfull Hf) in Hlive; done].
  rewrite IsBoardFull_spec. intros c Hc Hcell.
  assert (Hin : c ∈ GetValidMoves g) by (by apply GetValidMoves_spec).
  rewrite Hnil in Hin. by apply elem_of_nil in Hin.
Qed.

(** The game alice has won holds four in a row of player 1, and the game
    before her last move has none. *)
Lemma flags_match_board_witness :
  four_somewhere (Board (game_of (MakeMove (after three_stacked) 0))) Player1 ∧
  ¬ four_somewhere (Board (after three_stacked)) Player1.
Proof.
  split.
  - destruct (flags_match_board (game_of (MakeMove (after three_stacked) 0)))
      as [Hwinner _].
    + apply reachable_MakeMove; [|vm_compute; reflexivity].
      apply reachable_after. vm_compute. discriminate.
    + destruct Hwinner as (_ & _ & Hfour); [vm_compute; discriminate|].
      exact Hfour.
  - destruct (flags_match_board (after three_stacked)) as (_ & _ & _ & _ & Hlive).
    + apply reachable_after. vm_compute. discriminate.
    + destruct Hlive as (_ & _ & _ & Hnone); [vm_compute; reflexivity|].
      apply Hnone. discriminate.
Defined.

(** * The bot *)

(** ** The static evaluation *)

Lemma abs_spec (x : Z) : bot.abs x = Z.abs x.
Proof. unfold bot.abs. destruct (Z.ltb_spec x 0); lia. Qed.

Lemma max_spec (a b : Z) : bot.max a b = Z.max a b.
Proof. unfold bot.max. destruct (a >? b) eqn:H; lia. Qed.

Lemma min_spec (a b : Z) : bot.min a b = Z.min a b.
Proof. unfold bot.min. destruct (Z.ltb_spec a b); lia. Qed.

(** A loop that changes the score by at least [lo] and at most [hi] per
    round. *)
Lemma fold_left_bounds {A} (F : Z → A → Z) (lo hi : Z) (l : list A) (s : Z) :
  (∀ s x, x ∈ l → s + lo <= F s x <= s + hi) →
  s + Z.of_nat (length l) * lo <= fold_left F l s <= s + Z.of_nat (length l) * hi.
Proof.
  revert s. induction l as [|x l IH]; intros s HF; simpl fold_left; [simpl; lia|].
  assert (Hx : s + lo <= F s x <= s + hi) by (apply HF; left).
  assert (Hl : ∀ s x, x ∈ l → s + lo <= F s x <= s + hi)
    by (intros s' x' Hin; apply HF; by right).
  specialize (IH (F s x) Hl). rewrite length_cons. lia.
Qed.

Lemma sum_loops_bounds (outer inner : list Z) (f : Z → Z → Z) (lo hi s : Z) :
  (∀ x y, lo <= f x y <= hi) →
  let n := Z.of_nat (length outer) * Z.of_nat (length inner) in
  s + n * lo <= bot.sum_loops outer inner f s <= s + n * hi.
Proof.
  intros Hf n. unfold bot.sum_loops.
  pose proof (fold_left_bounds
    (fun score x => fold_left (fun score y => score + f x y) inner score)
    (Z.of_nat (length inner) * lo) (Z.of_nat (length inner) * hi) outer s) as H.
  unfold n. replace (Z.of_nat (length outer) * Z.of_nat (length inner) * lo)
    with (Z.of_nat (length outer) * (Z.of_nat (length inner) * lo)) by lia.
  replace (Z.of_nat (length outer) * Z.of_nat (length inner) * hi)
    with (Z.of_nat (length outer) * (Z.of_nat (length inner) * hi)) by lia.
  apply H. intros s' x _.
  apply (fold_left_bounds (fun score y => score + f x y) lo hi inner s').
  intros s'' y _. specialize (Hf x y). lia.
Qed.

Lemma evaluateWindow_bounds (b : bot.Bot) (g : Game) (r c dr dc opponent : Z) :
  -200 <= bot.evaluateWindow b g r c dr dc opponent <= 100.
Proof.
  unfold bot.evaluateWindow.
  destruct (fold_left _ _ _) as [[botCount oppCount] emptyCount].
  unfold bot.ThreeScore, bot.TwoScore.
  repeat match goal with |- context [if ?c then _ else _] => destruct c end; lia.
Qed.

Lemma evaluateLines_bounds (b : bot.Bot) (g : Game) (opponent : Z) :
  -13800 <= bot.evaluateLines b g opponent <= 6900.
Proof.
  unfold bot.evaluateLines.
  pose proof (fun outer inner dr dc s =>
    sum_loops_bounds outer inner
      (fun r c => bot.evaluateWindow b g r c dr dc opponent) (-200) 100 s
      (fun r c => evaluateWindow_bounds b g r c dr dc opponent)) as Hrc.
  pose proof (fun outer inner dr dc s =>
    sum_loops_bounds outer inner
      (fun c r => bot.evaluateWindow b g r c dr dc opponent) (-200) 100 s
      (fun c r => evaluateWindow_bounds b g r c dr dc opponent)) as Hcr.
  cbv zeta in *.
  pose proof (Hrc (seqZ 0 Rows) (seqZ 0 (Columns - 4 + 1)) 0 1 0) as H1.
  set (s1 := bot.sum_loops _ _ _ 0) in *.
  pose proof (Hcr (seqZ 0 Columns) (seqZ 0 (Rows - 4 + 1)) 1 0 s1) as H2.
  set (s2 := bot.sum_loops _ _ _ s1) in *.
  pose proof (Hrc (seqZ 0 (Rows - 4 + 1)) (seqZ 0 (Columns - 4 + 1)) 1 1 s2) as H3.
  set (s3 := bot.sum_loops _ _ _ s2) in *.
  pose proof (Hrc (seqZ 0 (Rows - 4 + 1)) (seqZ 3 (Columns - 3)) 1 (-1) s3) as H4.
  set (s4 := bot.sum_loops _ _ _ s3) in *.
  assert (H1' : -4800 <= s1 <= 2400) by exact H1.
  assert (H2' : s1 - 4200 <= s2 <= s1 + 2100) by exact H2.
  assert (H3' : s2 - 2400 <= s3 <= s2 + 1200) by exact H3.
  assert (H4' : s3 - 2400 <= s4 <= s3 + 1200) by exact H4.
  change (-13800 <= s4 <= 6900). lia.
Qed.

Lemma evaluate_cases (b : bot.Bot) (g : Game) (opponent : Z) :
  (Winner g = bot.Player b ∧ bot.evaluate b g opponent = bot.WinScore) ∨
  (Winner g ≠ bot.Player b ∧ Winner g = opponent ∧
   bot.evaluate b g opponent = - bot.WinScore) ∨
  (Winner g ≠ bot.Player b ∧ Winner g ≠ opponent ∧
   -13926 <= bot.evaluate b g opponent <= 7026).
Proof.
  unfold bot.evaluate.
  destruct (Z.eqb_spec (Winner g) (bot.Player b)) as [Hb|Hb]; [by left|].
  destruct (Z.eqb_spec (Winner g) opponent) as [Ho|Ho]; [right; by left|].
  right; right. split; [done|]. split; [done|].
  destruct (IsDraw g); [lia|].
  pose proof (evaluateLines_bounds b g opponent) as Hlines.
  cbv zeta.
  match goal with |- _ <= ?pos + _ <= _ => assert (Hpos : -126 <= pos <= 126) end;
    [|lia].
  match goal with |- _ <= fold_left ?F ?l ?s <= _ =>
    refine (fold_left_bounds F (-18) 18 l s _) end.
  intros s c Hc. apply elem_of_seqZ in Hc.
  match goal with |- _ <= fold_left ?F ?l ?s <= _ =>
    refine (fold_left_bounds F (-3) 3 l s _) end.
  intros s' r _. rewrite abs_spec. unfold bot.CenterBonus, Columns in *.
  repeat match goal with |- context [if ?c then _ else _] => destruct c end; lia.
Qed.

Lemma evaluate_bounds (b : bot.Bot) (g : Game) (opponent : Z) :
  - bot.WinScore <= bot.evaluate b g opponent <= bot.WinScore.
Proof.
  unfold bot.WinScore.
  destruct (evaluate_cases b g opponent) as [[_ H]|[(_ & _ & H)|(_ & _ & H)]];
    unfold bot.WinScore in H; lia.
Qed.

(** ** The cuts of [minimax] *)

Lemma within_refl (alpha beta v : Z) : within alpha beta v v.
Proof. unfold within. lia. Qed.

Lemma plain_max_ge (rec : Game → Z) (b : bot.Bot) (g : Game) (moves : list Z) (M : Z) :
  M <= plain_max rec b g moves M.
Proof.
  revert M. induction moves as [|col rest IH]; intros M; simpl; [lia|].
  destruct (bot.simulate g (bot.Player b) col) as [[row valid] clone].
  destruct valid; simpl; [|apply IH].
  etrans; [|apply IH]. rewrite max_spec. lia.
Qed.

Lemma plain_min_le (rec : Game → Z) (opponent : Z) (g : Game) (moves : list Z) (M : Z) :
  plain_min rec opponent g moves M <= M.
Proof.
  revert M. induction moves as [|col rest IH]; intros M; simpl; [lia|].
  destruct (bot.simulate g opponent col) as [[row valid] clone].
  destruct valid; simpl; [|apply IH].
  etrans; [apply IH|]. rewrite min_spec. lia.
Qed.

(** The maximizing loop.  [a] is the running alpha, [m] the running
    [maxScore], [M] the maximum of the children's values so far. *)
Lemma max_loop_within (rec : Game → Z → Z → Z) (prec : Game → Z) (b : bot.Bot)
    (g : Game) (alpha beta : Z) :
  (∀ clone a, a < beta → within a beta (rec clone a beta) (prec clone)) →
  ∀ moves a m M,
    alpha <= a → a <= Z.max alpha m → a < beta → M <= m → (alpha < m → M = m) →
    within alpha beta (bot.max_loop rec b g moves a beta m) (plain_max prec b g moves M).
Proof.
  intros Hrec. induction moves as [|col rest IH]; intros a m M Ha1 Ha2 Ha3 HM1 HM2; simpl.
  { unfold within. lia. }
  destruct (bot.simulate g (bot.Player b) col) as [[row valid] clone].
  destruct valid; simpl; [|by apply IH].
  destruct (Hrec clone a Ha3) as (Hlow & Hhigh & Hexact).
  rewrite !max_spec. destruct (Z.leb_spec beta (Z.max a (rec clone a beta))) as [Hcut|Hcut].
  - pose proof (plain_max_ge prec b g rest (Z.max M (prec clone))) as Hge.
    unfold within. lia.
  - apply IH; lia.
Qed.

(** The minimizing loop, with the running beta [bt]. *)
Lemma min_loop_within (rec : Game → Z → Z → Z) (prec : Game → Z) (opponent : Z)
    (g : Game) (alpha beta : Z) :
  (∀ clone bt, alpha < bt → within alpha bt (rec clone alpha bt) (prec clone)) →
  ∀ moves bt m M,
    bt <= beta → Z.min beta m <= bt → alpha < bt → m <= M → (m < beta → M = m) →
    within alpha beta (bot.min_loop rec opponent g moves alpha bt m)
           (plain_min prec opponent g moves M).
Proof.
  intros Hrec. induction moves as [|col rest IH]; intros bt m M Hb1 Hb2 Hb3 HM1 HM2; simpl.
  { unfold within. lia. }
  destruct (bot.simulate g opponent col) as [[row valid] clone].
  destruct valid; simpl; [|by apply IH].
  destruct (Hrec clone bt Hb3) as (Hlow & Hhigh & Hexact).
  rewrite !min_spec. destruct (Z.leb_spec (Z.min bt (rec clone alpha bt)) alpha) as [Hcut|Hcut].
  - pose proof (plain_min_le prec opponent g rest (Z.min M (prec clone))) as Hle.
    unfold within. lia.
  - apply IH; lia.
Qed.

Lemma minimax_within (b : bot.Bot) (opponent : Z) (depth : nat) :
  ∀ (g : Game) (alpha beta : Z) (isMaximizing : bool),
    alpha < beta →
    within alpha beta (bot.minimax b depth g alpha beta isMaximizing opponent)
           (full_search b depth g isMaximizing opponent).
Proof.
  induction depth as [|depth IH]; intros g alpha beta isMaximizing Hab; simpl.
  { apply within_refl. }
  destruct (IsOver g); [apply within_refl|].
  destruct (length (GetValidMoves g) =? 0)%nat; [apply within_refl|].
  destruct isMaximizing.
  - apply (max_loop_within _ (fun clone => full_search b depth clone false opponent));
      [intros clone a Ha; by apply IH | lia..].
  - apply (min_loop_within _ (fun clone => full_search b depth clone true opponent));
      [intros clone bt Hbt; by apply IH | lia..].
Qed.

(** ** The range of the search value *)

Lemma simulate_wf (g : Game) (p col : Z) :
  wf_board (Board g) → wf_board (Board (game_of (bot.simulate g p col))).
Proof.
  intros Hwf. unfold bot.simulate. rewrite Clone_id by done.
  destruct (ok_of (MakeMove (with_CurrentPlayer g p) col)) eqn:Hok.
  - destruct (MakeMove_flags _ col Hok) as [-> _]. by apply wf_set_cell.
  - by rewrite (MakeMove_fail_same _ col Hok).
Qed.

Lemma simulate_valid (g : Game) (p col : Z) :
  wf_board (Board g) → col ∈ GetValidMoves g → ok_of (bot.simulate g p col) = true.
Proof.
  intros Hwf Hin. unfold bot.simulate. rewrite Clone_id by done.
  by apply valid_move_accepted.
Qed.

Lemma plain_max_range (rec : Game → Z) (b : bot.Bot) (g : Game) (lo hi : Z)
    (moves : list Z) (M : Z) :
  (∀ col, col ∈ moves → ok_of (bot.simulate g (bot.Player b) col) = true) →
  (∀ col, col ∈ moves → lo <= rec (game_of (bot.simulate g (bot.Player b) col)) <= hi) →
  (M <= lo ∧ moves ≠ []) ∨ lo <= M <= hi →
  lo <= plain_max rec b g moves M <= hi.
Proof.
  revert M. induction moves as [|col rest IH]; intros M Hok Hrec HM; simpl.
  { destruct HM as [[_ ?]|?]; done. }
  pose proof (Hok col ltac:(left)) as Hv.
  pose proof (Hrec col ltac:(left)) as Hr.
  destruct (bot.simulate g (bot.Player b) col) as [[row valid] clone].
  unfold ok_of, game_of in Hv, Hr. simpl in Hv, Hr. subst valid. simpl.
  apply IH; [intros c Hc; apply Hok; by right | intros c Hc; apply Hrec; by right |].
  right. rewrite max_spec. lia.
Qed.

Lemma plain_min_range (rec : Game → Z) (opponent : Z) (g : Game) (lo hi : Z)
    (moves : list Z) (M : Z) :
  (∀ col, col ∈ moves → ok_of (bot.simulate g opponent col) = true) →
  (∀ col, col ∈ moves → lo <= rec (game_of (bot.simulate g opponent col)) <= hi) →
  (hi <= M ∧ moves ≠ []) ∨ lo <= M <= hi →
  lo <= plain_min rec opponent g moves M <= hi.
Proof.
  revert M. induction moves as [|col rest IH]; intros M Hok Hrec HM; simpl.
  { destruct HM as [[_ ?]|?]; done. }
  pose proof (Hok col ltac:(left)) as Hv.
  pose proof (Hrec col ltac:(left)) as Hr.
  destruct (bot.simulate g opponent col) as [[row valid] clone].
  unfold ok_of, game_of in Hv, Hr. simpl in Hv, Hr. subst valid. simpl.
  apply IH; [intros c Hc; apply Hok; by right | intros c Hc; apply Hrec; by right |].
  right. rewrite min_spec. lia.
Qed.

Lemma full_search_range (b : bot.Bot) (opponent : Z) (depth : nat) :
  ∀ (g : Game) (isMaximizing : bool),
    wf_board (Board g) →
    - bot.WinScore <= full_search b depth g isMaximizing opponent <= bot.WinScore.
Proof.
  induction depth as [|depth IH]; intros g isMaximizing Hwf; simpl.
  { apply evaluate_bounds. }
  destruct (IsOver g); [apply evaluate_bounds|].
  destruct (length (GetValidMoves g) =? 0)%nat eqn:Hlen; [unfold bot.WinScore; lia|].
  assert (Hne : GetValidMoves g ≠ [])
    by (intros Hnil; rewrite Hnil in Hlen; discriminate).
  destruct isMaximizing.
  - apply plain_max_range;
      [intros col Hcol; by apply simulate_valid
      |intros col Hcol; by apply IH, simulate_wf
      |left; split; [unfold bot.MinInt32, bot.WinScore; lia | done]].
  - apply plain_min_range;
      [intros col Hcol; by apply simulate_valid
      |intros col Hcol; by apply IH, simulate_wf
      |left; split; [unfold bot.MaxInt32, bot.WinScore; lia | done]].
Qed.

Lemma minimax_exact (b : bot.Bot) (opponent : Z) (depth : nat) (g : Game)
    (isMaximizing : bool) :
  wf_board (Board g) →
  bot.minimax b depth g bot.MinInt32 bot.MaxInt32 isMaximizing opponent =
  full_search b depth g isMaximizing opponent.
Proof.
  intros Hwf.
  pose proof (full_search_range b opponent depth g isMaximizing Hwf) as Hrange.
  destruct (minimax_within b opponent depth g bot.MinInt32 bot.MaxInt32 isMaximizing)
    as (Hlow & Hhigh & Hexact); [done|].
  unfold bot.MinInt32, bot.MaxInt32, bot.WinScore in *. lia.
Qed.

(** ** The third loop of [GetMove] *)

Lemma best_loop_spec (b : bot.Bot) (g : Game) (opponent : Z) (sc : Z → Z) (cols : list Z) :
  (∀ col, sc col = bot.minimax b (Z.to_nat (bot.MaxDepth - 1))
                     (game_of (bot.simulate g (bot.Player b) col))
                     bot.MinInt32 bot.MaxInt32 false opponent) →
  ∀ seen bestScore bestMoves,
    (∀ c, c ∈ seen → ok_of (bot.simulate g (bot.Player b) c) = true → sc c <= bestScore) →
    (∀ c, c ∈ bestMoves ↔
          c ∈ seen ∧ ok_of (bot.simulate g (bot.Player b) c) = true ∧ sc c = bestScore) →
    sublist bestMoves seen →
    bestMoves ≠ [] ∨ bestScore = bot.MinInt32 →
    let r := bot.best_loop b g opponent cols bestScore bestMoves in
    (∀ c, c ∈ seen ++ cols → ok_of (bot.simulate g (bot.Player b) c) = true →
          sc c <= fst r) ∧
    (∀ c, c ∈ snd r ↔
          c ∈ seen ++ cols ∧ ok_of (bot.simulate g (bot.Player b) c) = true ∧
          sc c = fst r) ∧
    sublist (snd r) (seen ++ cols) ∧
    (snd r ≠ [] ∨ fst r = bot.MinInt32).
Proof.
  intros Hsc. induction cols as [|col rest IH];
    intros seen bestScore bestMoves Hle Hbest Hsub Hne; cbv zeta.
  { simpl. rewrite app_nil_r. done. }
  simpl bot.best_loop. specialize (Hsc col).
  pose proof (IH (seen ++ [col])) as IH'. cbv zeta in IH'.
  rewrite <- (app_assoc seen [col] rest) in IH'. simpl in IH'.
  destruct (bot.simulate g (bot.Player b) col) as [[row valid] clone] eqn:Hsim.
  unfold ok_of, game_of in *. simpl in Hsc.
  destruct valid; simpl.
  - rewrite <- Hsc.
    destruct (Z.gtb_spec (sc col) bestScore) as [Hgt|Hngt];
      [|destruct (Z.eqb_spec (sc col) bestScore) as [Heq|Hneq]].
    + apply IH'.
      * intros c Hc Hok. apply elem_of_app in Hc as [Hc|Hc].
        -- specialize (Hle c Hc Hok). lia.
        -- apply list_elem_of_singleton in Hc as ->. lia.
      * intros c. rewrite list_elem_of_singleton, elem_of_app, list_elem_of_singleton.
        split.
        -- intros ->. rewrite Hsim. simpl. auto.
        -- intros ([Hc| ->] & Hok & Heq); [|done].
           specialize (Hle c Hc Hok). lia.
      * apply (sublist_app [] seen [col] [col]); [apply sublist_nil_l | done].
      * by left.
    + apply IH'.
      * intros c Hc Hok. apply elem_of_app in Hc as [Hc|Hc]; [by apply Hle|].
        apply list_elem_of_singleton in Hc as ->. lia.
      * intros c. rewrite !elem_of_app, list_elem_of_singleton, Hbest. split.
        -- intros [(Hc & Hok & Hs)| ->]; [auto|]. rewrite Hsim. simpl. auto.
        -- intros ([Hc| ->] & Hok & Hs); [left; auto | by right].
      * by apply sublist_app.
      * left. by destruct bestMoves.
    + apply IH'.
      * intros c Hc Hok. apply elem_of_app in Hc as [Hc|Hc]; [by apply Hle|].
        apply list_elem_of_singleton in Hc as ->. lia.
      * intros c. rewrite elem_of_app, list_elem_of_singleton, Hbest. split.
        -- intros (Hc & Hok & Hs). auto.
        -- intros ([Hc| ->] & Hok & Hs); [auto | done].
      * by apply sublist_inserts_r.
      * done.
  - apply IH'.
    + intros c Hc Hok. apply elem_of_app in Hc as [Hc|Hc]; [by apply Hle|].
      apply list_elem_of_singleton in Hc as ->. rewrite Hsim in Hok. done.
    + intros c. rewrite elem_of_app, list_elem_of_singleton, Hbest. split.
      * intros (Hc & Hok & Hs). auto.
      * intros ([Hc| ->] & Hok & Hs); [auto|]. rewrite Hsim in Hok. done.
    + by apply sublist_inserts_r.
    + done.
Qed.

Lemma valid_moves_NoDup (g : Game) : NoDup (GetValidMoves g).
Proof.
  unfold GetValidMoves. apply (NoDup_fmap_2 _).
  apply NoDup_filter, NoDup_seq.
Qed.

Lemma centerPreference_count (bestMoves acc : list Z) (c : Z) :
  count_occ Z.eq_dec (bot.centerPreference bestMoves acc) c =
  (count_occ Z.eq_dec acc c + weight c * count_occ Z.eq_dec bestMoves c)%nat.
Proof.
  revert acc. induction bestMoves as [|col rest IH]; intros acc; simpl bot.centerPreference.
  { simpl. lia. }
  assert (Hone : ∀ k : nat, count_occ Z.eq_dec (col :: rest) c =
            ((if Z.eq_dec col c then 1 else 0) + count_occ Z.eq_dec rest c)%nat).
  { intros _. simpl. by destruct (Z.eq_dec col c). }
  rewrite (Hone 0%nat).
  destruct (Z.eqb_spec col 3) as [H3|H3];
    [|destruct (Z.eqb_spec col 2) as [H2|H2]; [|destruct (Z.eqb_spec col 4) as [H4|H4]]];
    simpl orb; cbv iota; rewrite IH, count_occ_app; simpl count_occ;
    (destruct (Z.eq_dec col c) as [Hc|Hc]; [|lia]);
    subst c; unfold weight;
    repeat match goal with |- context [Z.eqb ?x ?y] => destruct (Z.eqb_spec x y) end;
    simpl; lia.
Qed.

(** The list the last line of [GetMove] draws from, when the first two
    loops find nothing. *)
Lemma GetMove_third_phase (b : bot.Bot) (g : Game) :
  wf_board (Board g) → GetValidMoves g ≠ [] → no_immediate_win b g →
  ∃ bestMoves,
    bestMoves ≠ [] ∧ NoDup bestMoves ∧
    (∀ col, col ∈ bestMoves ↔ best_column b g col) ∧
    ∀ seed, bot.GetMove b g seed =
            nth (bot.rand_Intn seed (length (bot.centerPreference bestMoves [])))
                (bot.centerPreference bestMoves []) 0.
Proof.
  intros Hwf Hne Hnone.
  assert (Hsc : ∀ col, score_of b g col =
            bot.minimax b (Z.to_nat (bot.MaxDepth - 1))
              (game_of (bot.simulate g (bot.Player b) col))
              bot.MinInt32 bot.MaxInt32 false (bot.opponent_of b)).
  { intros col. unfold score_of. symmetry. by apply minimax_exact, simulate_wf. }
  destruct (best_loop_spec b g (bot.opponent_of b) (score_of b g) (GetValidMoves g) Hsc
              [] bot.MinInt32 [])
    as (Hle & Hbest & Hsub & Hnil); [by intros c Hc%elem_of_nil | | done | by right |].
  { intros c. split; [by intros Hc%elem_of_nil | by intros [Hc%elem_of_nil _]]. }
  simpl app in *.
  assert (Hw1 : bot.first_winning g (bot.Player b) (GetValidMoves g) = None)
    by (apply first_winning_None; intros col Hcol; apply (Hnone col Hcol)).
  assert (Hw2 : bot.first_winning g (bot.opponent_of b) (GetValidMoves g) = None)
    by (apply first_winning_None; intros col Hcol; apply (Hnone col Hcol)).
  assert (Hget : ∀ seed, bot.GetMove b g seed =
            let '(_, bestMoves) :=
              bot.best_loop b g (bot.opponent_of b) (GetValidMoves g) bot.MinInt32 [] in
            if (length bestMoves =? 0)%nat
            then if (0 <? length (GetValidMoves g))%nat
                 then nth (bot.rand_Intn seed (length (GetValidMoves g))) (GetValidMoves g) 0
                 else 3
            else nth (bot.rand_Intn seed (length (bot.centerPreference bestMoves [])))
                     (bot.centerPreference bestMoves []) 0).
  { intros seed. unfold bot.GetMove. rewrite Hw1, Hw2. done. }
  destruct (bot.best_loop b g (bot.opponent_of b) (GetValidMoves g) bot.MinInt32 [])
    as [bestScore bestMoves]. simpl in Hle, Hbest, Hsub, Hnil.
  assert (Hvalid : ∀ c, c ∈ GetValidMoves g →
            ok_of (bot.simulate g (bot.Player b) c) = true)
    by (intros c Hc; by apply simulate_valid).
  assert (Hlow : ∀ c, bot.MinInt32 < score_of b g c).
  { intros c. unfold score_of.
    pose proof (full_search_range b (bot.opponent_of b) (Z.to_nat (bot.MaxDepth - 1))
                  (game_of (bot.simulate g (bot.Player b) c)) false
                  (simulate_wf g (bot.Player b) c Hwf)) as Hr.
    unfold bot.MinInt32, bot.WinScore in *. lia. }
  assert (Hms : bestMoves ≠ []).
  { destruct Hnil as [?| ->]; [done|]. exfalso.
    destruct (GetValidMoves g) as [|c0 rest] eqn:Hmoves; [done|].
    specialize (Hle c0 ltac:(left) (Hvalid c0 ltac:(left))).
    specialize (Hlow c0). lia. }
  exists bestMoves. split; [done|]. split; [|split].
  - eapply sublist_NoDup; [apply valid_moves_NoDup | exact Hsub].
  - intros col. rewrite Hbest. unfold best_column. split.
    + intros (Hc & _ & Hs). split; [done|]. intros c' Hc'. rewrite Hs. by apply Hle, Hvalid.
    + intros [Hc Hmax]. split; [done|]. split; [by apply Hvalid|].
      destruct bestMoves as [|c0 ?]; [done|].
      destruct (proj1 (Hbest c0) ltac:(left)) as (Hc0 & _ & Hs0).
      specialize (Hmax c0 Hc0). specialize (Hle col Hc (Hvalid col Hc)). lia.
  - intros seed. rewrite Hget. destruct bestMoves; [done|]. done.
Qed.

Lemma centerPreference_superset (bestMoves : list Z) (col : Z) :
  col ∈ bestMoves → col ∈ bot.centerPreference bestMoves [].
Proof.
  intros Hin. apply list_elem_of_In, (count_occ_In Z.eq_dec).
  rewrite centerPreference_count. simpl.
  apply list_elem_of_In, (count_occ_In Z.eq_dec) in Hin.
  assert (0 < weight col)%nat
    by (unfold weight; destruct (col =? 3); [|destruct ((col =? 2) || (col =? 4))]; lia).
  nia.
Qed.

(** ** Properties of the bot *)

(** X6.  [evaluate] returns [WinScore] exactly when the bot is the winner
    of the position and, when the bot is not the winner, [-WinScore]
    exactly when the opponent is.  For a position without either as winner
    the result is 0 for a draw and otherwise at least -13926 and at most
    7026: the heuristic never reaches the score of a decided game. *)
Theorem evaluate_decided_outranks (b : bot.Bot) (g : Game) (opponent : Z) :
  (bot.evaluate b g opponent = bot.WinScore ↔ Winner g = bot.Player b) ∧
  (Winner g ≠ bot.Player b →
     (bot.evaluate b g opponent = - bot.WinScore ↔ Winner g = opponent)) ∧
  (Winner g ≠ bot.Player b → Winner g ≠ opponent →
     -13926 <= bot.evaluate b g opponent <= 7026 ∧
     (IsDraw g = true → bot.evaluate b g opponent = 0)).
Proof.
  pose proof (evaluate_cases b g opponent) as Hcases. unfold bot.WinScore in *.
  split; [|split].
  - split; [|intros Hw; destruct Hcases as [[_ ?]|[(? & _)|(? & _)]]; done].
    intros He. destruct Hcases as [[? _]|[(_ & _ & ?)|(_ & _ & ?)]]; [done|lia|lia].
  - intros Hb. split.
    + intros He. destruct Hcases as [[? _]|[(_ & ? & _)|(_ & _ & ?)]]; [done|done|lia].
    + intros Ho. destruct Hcases as [[? _]|[(_ & _ & ?)|(_ & ? & _)]]; done.
  - intros Hb Ho. destruct Hcases as [[? _]|[(_ & ? & _)|(_ & _ & ?)]]; [done|done|].
    split; [done|]. intros Hd. unfold bot.evaluate.
    destruct (Z.eqb_spec (Winner g) (bot.Player b)); [done|].
    destruct (Z.eqb_spec (Winner g) opponent); [done|]. by rewrite Hd.
Qed.

(** X7.  The alpha and beta cuts of [minimax] are sound.  For a window
    with [alpha < beta], let [r] be the result of [minimax] and [v] the
    value of the same search without cuts.  If [r] lies strictly inside
    the window then [v = r]; if [r <= alpha] then [v <= r]; if
    [beta <= r] then [r <= v]. *)
Theorem minimax_cuts_sound (b : bot.Bot) (depth : nat) (g : Game)
    (alpha beta : Z) (isMaximizing : bool) (opponent : Z) :
  alpha < beta →
  let r := bot.minimax b depth g alpha beta isMaximizing opponent in
  let v := full_search b depth g isMaximizing opponent in
  (alpha < r < beta → v = r) ∧ (r <= alpha → v <= r) ∧ (beta <= r → r <= v).
Proof.
  intros Hab.
  destruct (minimax_within b opponent depth g alpha beta isMaximizing Hab)
    as (Hlow & Hhigh & Hexact).
  cbv zeta. auto.
Qed.

Lemma minimax_cuts_sound_witness :
  let r := bot.minimax the_bot 2 (after one_threat) (-50) 50 true Player1 in
  let v := full_search the_bot 2 (after one_threat) true Player1 in
  (-50 < r < 50 → v = r) ∧ (r <= -50 → v <= r) ∧ (50 <= r → r <= v).
Proof.
  apply (minimax_cuts_sound the_bot 2 (after one_threat) (-50) 50 true Player1). lia.
Defined.

(** X8.  On a board of 6 rows and 7 columns, [minimax] called with the
    window [(MinInt32, MaxInt32)], as [GetMove] calls it, returns the value
    of the search without cuts, and that value lies between [-WinScore]
    and [WinScore]. *)
Theorem minimax_full_window (b : bot.Bot) (depth : nat) (g : Game)
    (isMaximizing : bool) (opponent : Z) :
  wf_board (Board g) →
  bot.minimax b depth g bot.MinInt32 bot.MaxInt32 isMaximizing opponent =
    full_search b depth g isMaximizing opponent ∧
  - bot.WinScore <=
    bot.minimax b depth g bot.MinInt32 bot.MaxInt32 isMaximizing opponent <= bot.WinScore.
Proof.
  intros Hwf. rewrite minimax_exact by done. split; [done|].
  by apply full_search_range.
Qed.

Lemma minimax_full_window_witness :
  bot.minimax the_bot 5 fresh_game bot.MinInt32 bot.MaxInt32 false Player1 =
    full_search the_bot 5 fresh_game false Player1 ∧
  - bot.WinScore <=
    bot.minimax the_bot 5 fresh_game bot.MinInt32 bot.MaxInt32 false Player1
    <= bot.WinScore.
Proof.
  apply (minimax_full_window the_bot 5 fresh_game false Player1).
  vm_compute. reflexivity.
Defined.

(** X9.  When no legal column wins at once for the bot or for its
    opponent, [GetMove] returns a legal column whose score, the depth-5
    search value of the position after the bot's disc, is the highest among
    the legal columns; and every legal column of highest score is returned
    for some outcome of the random draw. *)
Theorem GetMove_best_score (b : bot.Bot) (g : Game) :
  wf_board (Board g) → GetValidMoves g ≠ [] → no_immediate_win b g →
  (∀ seed,
     bot.GetMove b g seed ∈ GetValidMoves g ∧
     ∀ col, col ∈ GetValidMoves g →
            score_of b g col <= score_of b g (bot.GetMove b g seed)) ∧
  (∀ col, best_column b g col → ∃ seed, bot.GetMove b g seed = col).
Proof.
  intros Hwf Hne Hnone.
  destruct (GetMove_third_phase b g Hwf Hne Hnone) as (ms & Hms & _ & Hbest & Hget).
  split.
  - intros seed. apply Hbest. rewrite Hget.
    assert (Hcp : bot.centerPreference ms [] ≠ []).
    { pose proof (centerPreference_length ms []) as Hl.
      destruct (bot.centerPreference ms []); [|done].
      destruct ms; [done | simpl in Hl; lia]. }
    apply (nth_rand_elem seed) in Hcp.
    apply centerPreference_subset in Hcp as [Hcp|Hcp]; [done | by apply elem_of_nil in Hcp].
  - intros col Hcol. apply Hbest, centerPreference_superset in Hcol.
    apply list_elem_of_In, (In_nth _ _ 0) in Hcol as (k & Hk & Hnth).
    exists k. by rewrite Hget, rand_Intn_any.
Qed.

Lemma no_immediate_win_fresh : no_immediate_win the_bot fresh_game.
Proof.
  intros col Hcol. split.
  - apply (proj1 (first_winning_None fresh_game Player2 (GetValidMoves fresh_game)));
      [vm_compute; reflexivity | exact Hcol].
  - apply (proj1 (first_winning_None fresh_game Player1 (GetValidMoves fresh_game)));
      [vm_compute; reflexivity | exact Hcol].
Defined.

Lemma GetMove_best_score_witness :
  bot.GetMove the_bot fresh_game 0 ∈ GetValidMoves fresh_game ∧
  score_of the_bot fresh_game 3 <=
    score_of the_bot fresh_game (bot.GetMove the_bot fresh_game 0).
Proof.
  destruct (GetMove_best_score the_bot fresh_game) as [Hbest _].
  - vm_compute. reflexivity.
  - vm_compute. discriminate.
  - exact no_immediate_win_fresh.
  - destruct (Hbest 0%nat) as [Hin Hmax]. split; [exact Hin|].
    apply Hmax. apply (list_elem_of_lookup_2 _ 3%nat). reflexivity.
Defined.

(** X10.  When no legal column wins at once for the bot or for its
    opponent, [GetMove] draws its result, with the index [rand.Intn] gives,
    from a list in which a legal column of highest score occurs three
    times if it is column 3, twice if it is column 2 or 4, and once
    otherwise, and in which no other column occurs. *)
Theorem GetMove_center_weights (b : bot.Bot) (g : Game) :
  wf_board (Board g) → GetValidMoves g ≠ [] → no_immediate_win b g →
  ∃ centerPreference : list Z,
    centerPreference ≠ [] ∧
    (∀ seed, bot.GetMove b g seed =
             nth (bot.rand_Intn seed (length centerPreference)) centerPreference 0) ∧
    ∀ col,
      (best_column b g col →
         count_occ Z.eq_dec centerPreference col =
           if col =? 3 then 3%nat else if (col =? 2) || (col =? 4) then 2%nat else 1%nat) ∧
      (¬ best_column b g col → count_occ Z.eq_dec centerPreference col = 0%nat).
Proof.
  intros Hwf Hne Hnone.
  destruct (GetMove_third_phase b g Hwf Hne Hnone) as (ms & Hms & Hnodup & Hbest & Hget).
  exists (bot.centerPreference ms []). split; [|split; [done|]].
  - pose proof (centerPreference_length ms []) as Hl.
    destruct (bot.centerPreference ms []); [|done].
    destruct ms; [done | simpl in Hl; lia].
  - intros col. rewrite centerPreference_count. simpl. split.
    + intros Hcol. apply Hbest in Hcol.
      apply NoDup_ListNoDup in Hnodup.
      rewrite (proj1 (NoDup_count_occ' Z.eq_dec ms) Hnodup col)
        by (by apply list_elem_of_In).
      fold (weight col). lia.
    + intros Hcol.
      rewrite (proj1 (count_occ_not_In Z.eq_dec ms col)); [lia|].
      intros Hin. apply Hcol, Hbest. by apply list_elem_of_In.
Qed.

Lemma GetMove_center_weights_witness :
  ∃ centerPreference : list Z,
    centerPreference ≠ [] ∧
    (∀ seed, bot.GetMove the_bot fresh_game seed =
             nth (bot.rand_Intn seed (length centerPreference)) centerPreference 0) ∧
    ∀ col,
      (best_column the_bot fresh_game col →
         count_occ Z.eq_dec centerPreference col =
           if col =? 3 then 3%nat else if (col =? 2) || (col =? 4) then 2%nat else 1%nat) ∧
      (¬ best_column the_bot fresh_game col →
         count_occ Z.eq_dec centerPreference col = 0%nat).
Proof.
  apply (GetMove_center_weights the_bot fresh_game).
  - vm_compute. reflexivity.
  - vm_compute. discriminate.
  - exact no_immediate_win_fresh.
Defined.

(** * The server *)

(** ** What the handlers do to the registry *)

Lemma SendToClient_fields (to : string) (m : ws.Message.t) (s : server.State) :
  server.Games (server.SendToClient to m s) = server.Games s ∧
  server.PlayerToGame (server.SendToClient to m s) = server.PlayerToGame s ∧
  server.Broadcast (server.SendToClient to m s) = server.Broadcast s ∧
  server.BotPlayers (server.SendToClient to m s) = server.BotPlayers s ∧
  server.WaitingQueue (server.SendToClient to m s) = server.WaitingQueue s ∧
  server.Sent (server.SendToClient to m s) =
    server.Sent s ++ (if decide (to ∈ server.Clients s) then [(to, m)] else []).
Proof.
  unfold server.SendToClient. destruct (decide _); simpl; by rewrite ?app_nil_r.
Qed.

Lemma handleMove_cases (s : server.State) (client : string) (msg : ws.Message.t) (now : Z) :
  let c := server.client_at s client in
  (∃ text, (∀ g, ¬ move_accepted s client msg g) ∧
           server.handleMove client msg now s =
             server.SendToClient (ws.Client.ID c) (server.msg_error text) s) ∨
  (∃ g, move_accepted s client msg g ∧
        server.handleMove client msg now s =
          let r := MakeMove g (ws.Message.Column msg) in
          after_move (ws.Client.GameID c) (game_of r)
            (server.msg_move (ws.Client.GameID c) (ws.Message.Column msg) (row_of r)
                             (expectedPlayer g c) (Board (game_of r)))
            now s).
Proof.
  cbv zeta. unfold server.handleMove, move_accepted, server.GetGame. cbv zeta.
  set (c := server.client_at s client).
  destruct (String.eqb_spec (ws.Client.GameID c) EmptyString) as [Hgid|Hgid].
  { left. eexists. split; [|done]. intros g (? & _). done. }
  destruct (server.Games s !! ws.Client.GameID c) as [g|] eqn:Hg.
  2: { left. eexists. split; [|done]. intros g (_ & ? & _). done. }
  destruct (IsOver g) eqn:Hover.
  { left. eexists. split; [|done]. intros g0 (_ & [= <-] & ? & _). congruence. }
  fold (isPlayer1 g c) (isPlayer2 g c).
  destruct (negb (isPlayer1 g c) && negb (isPlayer2 g c)) eqn:Hpl.
  { left. eexists. split; [|done]. intros g0 (_ & [= <-] & _ & Hor & _).
    apply andb_true_iff in Hpl as [H1 H2]. apply negb_true_iff in H1, H2.
    destruct Hor; congruence. }
  fold (expectedPlayer g c).
  destruct (Z.eqb_spec (CurrentPlayer g) (expectedPlayer g c)) as [Hturn|Hturn]; simpl.
  2: { left. eexists. split; [|done]. by intros g0 (_ & [= <-] & _ & _ & ? & _). }
  destruct (MakeMove g (ws.Message.Column msg)) as [[row valid] g'] eqn:Hmm.
  destruct valid; simpl.
  2: { left. eexists. split; [|done]. intros g0 (_ & [= <-] & _ & _ & _ & Hok).
       rewrite Hmm in Hok. done. }
  right. exists g. rewrite Hmm. split; [|done].
  split; [done|]. split; [done|]. split; [done|]. split; [|done].
  apply andb_false_iff in Hpl as [H|H]; apply negb_false_iff in H; auto.
Qed.

Lemma makeBotMove_eq (s : server.State) (gameID : string) (seed : nat) (now : Z) (g : Game) :
  server.Games s !! gameID = Some g →
  let botPlayer := default (bot.mkBot Player2) (server.BotPlayers s !! ID g) in
  let s1 := match server.BotPlayers s !! ID g with
            | Some _ => s
            | None => server.with_BotPlayers s
                        (<[ID g := bot.mkBot Player2]> (server.BotPlayers s))
            end in
  let r := MakeMove g (bot.GetMove botPlayer g seed) in
  server.Games s1 = server.Games s ∧
  server.makeBotMove gameID seed now s =
    if ok_of r
    then after_move gameID (game_of r)
           (server.msg_move (ID (game_of r)) (bot.GetMove botPlayer g seed) (row_of r)
                            Player2 (Board (game_of r)))
           now s1
    else s1.
Proof.
  intros Hg. cbv zeta. unfold server.makeBotMove, server.GetGame. rewrite Hg.
  destruct (server.BotPlayers s !! ID g) as [b|]; simpl;
    (split; [done|]);
    destruct (MakeMove g _) as [[row valid] g']; by destruct valid.
Qed.

(** The three ways an event acts on the registry: not at all, by a new
    game under a key not in use, or by a move in a game that is not over. *)
Lemma step_Games_cases (s : server.State) (e : server.event) :
  server.Games (server.step s e) = server.Games s ∨
  (∃ player1 player2 isBot uuid now s0,
     server.Games s0 = server.Games s ∧ server.Games s !! uuid = None ∧
     server.step s e = server.startGame player1 player2 isBot uuid now s0) ∨
  (∃ gid g c m now s1,
     server.Games s1 = server.Games s ∧ server.Games s !! gid = Some g ∧
     IsOver g = false ∧ ok_of (MakeMove g c) = true ∧
     server.step s e = after_move gid (game_of (MakeMove g c)) m now s1).
Proof.
  destruct e as [id|id|id msg uuid now|id uuid now|gameID seed now]; simpl.
  - left. by destruct (server.clients s !! id).
  - by left.
  - destruct (server.clients s !! id); [|by left].
    destruct (server.Games s !! uuid) eqn:Huuid; [by left|].
    unfold server.handleMessage.
    destruct (String.eqb _ "join").
    { unfold server.handleJoin.
      destruct (String.eqb (ws.Message.Username msg) EmptyString).
      { left. apply SendToClient_fields. }
      cbv zeta.
      match goal with |- context [match ?r with Some _ => _ | None => _ end] =>
        destruct r as [existingGame|] end.
      { left. by rewrite (proj1 (SendToClient_fields _ _ _)). }
      unfold server.AddPlayer.
      destruct (server.pick_opponent _ id _) as [[wp rest]|] eqn:Hpick.
      - right; left. eexists _, _, _, _, _, _. split; [|split; [|reflexivity]]; done.
      - left. by rewrite (proj1 (SendToClient_fields _ _ _)). }
    destruct (String.eqb _ "move").
    { destruct (handleMove_cases s id msg now) as [(text & _ & ->)|(g & Hacc & ->)].
      - left. apply SendToClient_fields.
      - right; right. destruct Hacc as (_ & Hg & Hlive & _ & _ & Hok).
        eexists _, g, _, _, _, s. split; [done|]. split; [exact Hg|].
        split; [done|]. split; [exact Hok|]. reflexivity. }
    destruct (String.eqb _ "reconnect"); [|by left].
    left. unfold server.handleReconnect. cbv zeta.
    destruct (_ || _); [apply SendToClient_fields|].
    destruct (server.GetGame _ s) as [g|]; [|apply SendToClient_fields].
    destruct (IsOver g); [apply SendToClient_fields|].
    destruct (negb _ && negb _); [apply SendToClient_fields|].
    by rewrite (proj1 (SendToClient_fields _ _ _)).
  - destruct (server.clients s !! id); [|by left].
    destruct (server.Games s !! uuid) eqn:Huuid; [by left|].
    unfold server.handleTimeout.
    destruct (server.remove_waiting s _ _) as [rest|]; [|by left].
    right; left. eexists _, _, _, _, _, _. split; [|split; [|reflexivity]]; done.
  - destruct (server.Games s !! gameID) as [g|] eqn:Hg; [|by left].
    destruct (IsBot g && negb (IsOver g) && (CurrentPlayer g =? Player2)) eqn:Hguard;
      [|by left].
    rewrite !andb_true_iff, negb_true_iff in Hguard. destruct Hguard as [[_ Hlive] _].
    destruct (makeBotMove_eq s gameID seed now g Hg) as [Hs1 ->]. cbv zeta.
    destruct (ok_of (MakeMove g _)) eqn:Hok; [|by left].
    right; right. eexists _, g, _, _, _, _. split; [exact Hs1|]. split; [exact Hg|].
    split; [done|]. split; [exact Hok|]. reflexivity.
Qed.

(** ** Invariants of the registry, in general *)

Section RegistryInvariant.

Variable P : string → Game → Prop.

Hypothesis P_new : ∀ gameID p1ID p1Name p2ID p2Name isBot now,
  P gameID (with_StartTime (NewGame gameID p1ID p1Name p2ID p2Name isBot) now).
Hypothesis P_move : ∀ gid g c,
  P gid g → IsOver g = false → ok_of (MakeMove g c) = true →
  P gid (game_of (MakeMove g c)).
Hypothesis P_end : ∀ gid g t, P gid g → IsOver g = true → P (ID g) (with_EndTime g t).
Hypothesis P_id : ∀ gid g, P gid g → ID g = gid.

Lemma registry_all_same (s s' : server.State) :
  server.Games s' = server.Games s → registry_all P s → registry_all P s'.
Proof. unfold registry_all. by intros ->. Qed.

Lemma registry_all_SetGame (s : server.State) (gid : string) (g : Game) :
  registry_all P s → P gid g → registry_all P (server.SetGame gid g s).
Proof.
  intros Hall Hg gid' g'. unfold server.SetGame. simpl.
  destruct (decide (gid = gid')) as [<-|Hne].
  - rewrite lookup_insert_eq. by intros [= <-].
  - rewrite lookup_insert_ne by done. apply Hall.
Qed.

Lemma registry_all_startGame (s : server.State) (player1 : string)
    (player2 : option string) (isBot : bool) (gameID : string) (now : Z) :
  registry_all P s → registry_all P (server.startGame player1 player2 isBot gameID now s).
Proof.
  intros Hall. unfold server.startGame. cbv zeta.
  set (newGame := with_StartTime _ now).
  eapply registry_all_same;
    [|apply (registry_all_SetGame s gameID newGame Hall); apply P_new].
  unfold server.onGameStart.
  destruct (IsBot newGame), player2 as [p2|]; simpl;
    rewrite ?Games_SendToClient; simpl; rewrite ?Games_SendToClient; done.
Qed.

Lemma registry_all_endGame (s : server.State) (g : Game) (now : Z) :
  registry_all P s → P (ID g) g → IsOver g = true →
  registry_all P (server.endGame g now s).
Proof.
  intros Hall Hg Hover. unfold server.endGame. cbv zeta.
  eapply registry_all_same;
    [|apply (registry_all_SetGame s (ID g) (with_EndTime g now) Hall)].
  - destruct (if IsDraw (with_EndTime g now) then _ else _) as [winnerName reason].
    by destruct (negb (IsBot (with_EndTime g now))).
  - by apply (P_end (ID g)).
Qed.

Lemma registry_all_after_move (s s1 : server.State) (gid : string) (g : Game)
    (c now : Z) (m : ws.Message.t) :
  registry_all P s → server.Games s1 = server.Games s →
  server.Games s !! gid = Some g → IsOver g = false →
  ok_of (MakeMove g c) = true →
  registry_all P (after_move gid (game_of (MakeMove g c)) m now s1).
Proof.
  intros Hall Hsame Hg Hlive Hmove. unfold after_move. cbv zeta.
  pose proof (P_move gid g c (Hall gid g Hg) Hlive Hmove) as Hg'.
  assert (Hall2 : registry_all P (server.broadcast m
                    (server.SetGame gid (game_of (MakeMove g c)) s1))).
  { eapply registry_all_same;
      [|apply (registry_all_SetGame s1 gid (game_of (MakeMove g c)))];
      [done | by apply (registry_all_same s) | done]. }
  destruct (IsOver (game_of (MakeMove g c))) eqn:Hover; [|done].
  apply registry_all_endGame; [done | | done].
  by rewrite (P_id gid _ Hg').
Qed.

Lemma registry_all_step (s : server.State) (e : server.event) :
  registry_all P s → registry_all P (server.step s e).
Proof.
  intros Hall.
  destruct (step_Games_cases s e)
    as [Hsame|[(p1 & p2 & isBot & uuid & now & s0 & Hs0 & _ & ->)
              |(gid & g & c & m & now & s1 & Hs1 & Hg & Hlive & Hok & ->)]].
  - by apply (registry_all_same s).
  - apply registry_all_startGame. by apply (registry_all_same s).
  - by apply (registry_all_after_move s).
Qed.

Lemma registry_all_run (events : list server.event) (s : server.State) :
  registry_all P s → registry_all P (server.run events s).
Proof.
  unfold server.run. revert s.
  induction events as [|e events IH]; intros s Hs; simpl; [done|].
  apply IH. by apply registry_all_step.
Qed.

End RegistryInvariant.

(** ** The games of the registry are played games *)

Lemma played_registry_run (events : list server.event) :
  registry_all (fun gid g => ID g = gid ∧ played g) (server.run events server.init).
Proof.
  apply registry_all_run.
  - intros gameID p1ID p1Name p2ID p2Name isBot now. split; [done|].
    eexists. split; [|by left]. eexists _, _, _, _, _, _, now, []. reflexivity.
  - intros gid g c [Hid (g0 & Hreach & Hg)] Hlive Hok. split; [by rewrite ID_MakeMove|].
    destruct Hg as [->|(t & Hover & ->)]; [|simpl in Hlive; congruence].
    eexists. split; [|by left]. by apply reachable_MakeMove.
  - intros gid g t [Hid (g0 & Hreach & Hg)] Hover. split; [done|].
    exists g0. split; [done|]. right.
    destruct Hg as [->|(t0 & Hover0 & ->)]; [by exists t | by exists t].
  - by intros gid g [Hid _].
  - intros gid g Hg. done.
Qed.

(** X11.  After every sequence of events, a game of the hub's registry is
    stored under its own id and is a played game: a game reachable by play
    from [NewGame], or such a game that is over with its end time stamped.
    So a registered game that is not over is reachable by play, a winner in
    it has four in a row on its board, a draw has a full board, and a full
    board means the game is over. *)
Theorem registry_games_played (events : list server.event) (gid : string) (g : Game) :
  server.Games (server.run events server.init) !! gid = Some g →
  ID g = gid ∧ played g ∧
  (IsOver g = false → reachable g) ∧
  (Winner g ≠ 0 →
     IsOver g = true ∧ (Winner g = Player1 ∨ Winner g = Player2) ∧
     four_somewhere (Board g) (Winner g)) ∧
  (IsDraw g = true → IsOver g = true ∧ IsBoardFull g = true) ∧
  (IsBoardFull g = true → IsOver g = true).
Proof.
  intros Hg. destruct (played_registry_run events gid g Hg) as [Hid Hplayed].
  split; [done|]. split; [done|].
  destruct Hplayed as (g0 & Hreach & Hg0).
  pose proof (flags_inv_reachable g0 Hreach) as [Hfull Hover Hwinner Hdraw].
  assert (Hfields : Winner g = Winner g0 ∧ IsOver g = IsOver g0 ∧ IsDraw g = IsDraw g0 ∧
                    Board g = Board g0)
    by (destruct Hg0 as [->|(t & _ & ->)]; done).
  destruct Hfields as (-> & -> & -> & Hb).
  rewrite (IsBoardFull_board g g0 Hb), Hb.
  split; [|done].
  intros Hlive. destruct Hg0 as [->|(t & Hover0 & ->)]; [done | congruence].
Qed.

Lemma registry_games_played_witness :
  ID (default fresh_game (server.Games (server.run reconnect_then_win server.init) !! "g1"))
    = "g1" ∧
  four_somewhere
    (Board (default fresh_game
              (server.Games (server.run reconnect_then_win server.init) !! "g1")))
    Player1.
Proof.
  destruct (registry_games_played reconnect_then_win "g1"
              (default fresh_game
                 (server.Games (server.run reconnect_then_win server.init) !! "g1")))
    as (Hid & _ & _ & Hwinner & _).
  - vm_compute. reflexivity.
  - split; [exact Hid|].
    destruct Hwinner as (_ & _ & Hfour); [vm_compute; discriminate|].
    exact Hfour.
Defined.

(** ** Games stay, and finished games stay as they are *)

Lemma startGame_Games (s : server.State) (player1 : string) (player2 : option string)
    (isBot : bool) (gameID : string) (now : Z) :
  ∃ newGame,
    server.Games (server.startGame player1 player2 isBot gameID now s) =
      <[gameID := newGame]> (server.Games s).
Proof.
  unfold server.startGame. cbv zeta. set (newGame := with_StartTime _ now).
  exists newGame. unfold server.onGameStart.
  destruct (IsBot newGame), player2 as [p2|]; simpl;
    rewrite ?Games_SendToClient; simpl; rewrite ?Games_SendToClient; done.
Qed.

Lemma endGame_fields (g : Game) (now : Z) (s : server.State) :
  server.Games (server.endGame g now s) = <[ID g := with_EndTime g now]> (server.Games s) ∧
  server.Broadcast (server.endGame g now s) =
    server.Broadcast s ++ [server.msg_game_end (ID g) (announced g).1 (announced g).2] ∧
  server.Sent (server.endGame g now s) = server.Sent s ∧
  server.BotPlayers (server.endGame g now s) = delete (ID g) (server.BotPlayers s) ∧
  server.PlayerToGame (server.endGame g now s) =
    if IsBot g then delete (Player1ID g) (server.PlayerToGame s)
    else delete (Player2ID g) (delete (Player1ID g) (server.PlayerToGame s)).
Proof.
  unfold server.endGame, announced. cbv zeta. simpl.
  destruct (IsDraw g); [|destruct (Winner g =? Player1); [|destruct (Winner g =? Player2)]];
    destruct (IsBot g); done.
Qed.

Lemma after_move_fields (gid : string) (g' : Game) (m : ws.Message.t) (now : Z)
    (s : server.State) :
  ID g' = gid →
  server.Games (after_move gid g' m now s) =
    <[gid := if IsOver g' then with_EndTime g' now else g']> (server.Games s) ∧
  server.Broadcast (after_move gid g' m now s) =
    server.Broadcast s ++ m ::
      (if IsOver g'
       then [server.msg_game_end gid (announced g').1 (announced g').2]
       else []) ∧
  server.Sent (after_move gid g' m now s) = server.Sent s ∧
  server.BotPlayers (after_move gid g' m now s) =
    (if IsOver g' then delete gid (server.BotPlayers s) else server.BotPlayers s) ∧
  server.PlayerToGame (after_move gid g' m now s) =
    if IsOver g'
    then if IsBot g' then delete (Player1ID g') (server.PlayerToGame s)
         else delete (Player2ID g') (delete (Player1ID g') (server.PlayerToGame s))
    else server.PlayerToGame s.
Proof.
  intros Hid. unfold after_move. cbv zeta. destruct (IsOver g'); [|done].
  destruct (endGame_fields g' now
              (server.broadcast m (server.SetGame gid g' s)))
    as (-> & -> & -> & -> & ->).
  rewrite Hid. simpl. rewrite insert_insert_eq, <- app_assoc. done.
Qed.

Lemma step_keeps_games (s : server.State) (e : server.event) (gid : string) (g : Game) :
  registry_ok s → server.Games s !! gid = Some g →
  is_Some (server.Games (server.step s e) !! gid) ∧
  (IsOver g = true → server.Games (server.step s e) !! gid = Some g).
Proof.
  intros Hok Hg.
  destruct (step_Games_cases s e)
    as [->|[(p1 & p2 & isBot & uuid & now & s0 & Hs0 & Hfresh & ->)
           |(gid' & g0 & c & m & now & s1 & Hs1 & Hg0 & Hlive & Hmove & ->)]].
  - by rewrite Hg.
  - destruct (startGame_Games s0 p1 p2 isBot uuid now) as [newGame ->].
    rewrite Hs0, lookup_insert_ne by congruence. by rewrite Hg.
  - destruct (after_move_fields gid' (game_of (MakeMove g0 c)) m now s1) as [-> _].
    { rewrite ID_MakeMove. by apply (Hok gid' g0). }
    rewrite Hs1. destruct (decide (gid' = gid)) as [->|Hne].
    + rewrite lookup_insert_eq. split; [done|].
      pose proof (eq_trans (eq_sym Hg0) Hg) as [= ->]. intros Hover. congruence.
    + rewrite lookup_insert_ne by done. by rewrite Hg.
Qed.

Lemma run_keeps_games (more : list server.event) (s : server.State) (gid : string)
    (g : Game) :
  registry_ok s → server.Games s !! gid = Some g →
  is_Some (server.Games (server.run more s) !! gid) ∧
  (IsOver g = true → server.Games (server.run more s) !! gid = Some g).
Proof.
  unfold server.run. revert s g.
  induction more as [|e more IH]; intros s g Hok Hg; simpl; [by rewrite Hg|].
  destruct (step_keeps_games s e gid g Hok Hg) as [[g1 Hg1] Hsame].
  pose proof (registry_ok_step s e Hok) as Hok1.
  destruct (IH _ g1 Hok1 Hg1) as [Hsome _]. split; [done|].
  intros Hover. apply (IH _ g Hok1); [by apply Hsame | done].
Qed.

(** X12.  The registry never loses a game, and a game that is over is
    never changed again: a game registered after some events is still
    registered after any further events, and if it was over it is the same
    struct value, whatever messages, timeouts, connects and disconnects
    follow, and whatever bot moves, which run only in a bot game that is
    not over when it is player 2's turn. *)
Theorem finished_games_frozen (events more : list server.event) (gid : string) (g : Game) :
  server.Games (server.run events server.init) !! gid = Some g →
  is_Some (server.Games (server.run (events ++ more) server.init) !! gid) ∧
  (IsOver g = true →
   server.Games (server.run (events ++ more) server.init) !! gid = Some g).
Proof.
  intros Hg. unfold server.run. rewrite fold_left_app.
  apply (run_keeps_games more); [apply registry_ok_run | exact Hg].
Qed.

Lemma finished_games_frozen_witness :
  server.Games
    (server.run (reconnect_then_win ++ [server.Receive "c2" (move_msg 1) "u9" 110])
                server.init) !! "g1" =
  server.Games (server.run reconnect_then_win server.init) !! "g1".
Proof.
  destruct (finished_games_frozen reconnect_then_win
              [server.Receive "c2" (move_msg 1) "u9" 110] "g1"
              (default fresh_game
                 (server.Games (server.run reconnect_then_win server.init) !! "g1")))
    as [_ Hsame].
  - vm_compute. reflexivity.
  - rewrite Hsame; [|vm_compute; reflexivity]. vm_compute. reflexivity.
Defined.

(** ** Move messages *)

Lemma MakeMove_seats (g : Game) (c : Z) :
  let g' := game_of (MakeMove g c) in
  Player1ID g' = Player1ID g ∧ Player2ID g' = Player2ID g ∧
  Player1Name g' = Player1Name g ∧ Player2Name g' = Player2Name g ∧
  IsBot g' = IsBot g.
Proof.
  cbv zeta. destruct (MakeMove_inv g c); unfold game_of; simpl; try done.
  unfold switch_turn. simpl. by destruct (CurrentPlayer g =? Player1).
Qed.

Lemma handleMove_accepted_eq (s : server.State) (client : string) (msg : ws.Message.t)
    (now : Z) (g : Game) :
  move_accepted s client msg g →
  let c := server.client_at s client in
  let r := MakeMove g (ws.Message.Column msg) in
  server.handleMove client msg now s =
    after_move (ws.Client.GameID c) (game_of r)
      (server.msg_move (ws.Client.GameID c) (ws.Message.Column msg) (row_of r)
                       (CurrentPlayer g) (Board (game_of r)))
      now s.
Proof.
  intros Hacc. cbv zeta.
  destruct (handleMove_cases s client msg now) as [(text & Hnone & _)|(g0 & Hacc0 & ->)].
  - by destruct (Hnone g).
  - destruct Hacc as (_ & Hg & _ & _ & Hturn & _), Hacc0 as (_ & Hg0 & _).
    pose proof (eq_trans (eq_sym Hg0) Hg) as [= ->]. cbv zeta. by rewrite Hturn.
Qed.

(** X13.  [handleMove] plays a column only when the sender's [GameID]
    names a registered game that is not over, the sender is one of its
    players, it is the sender's turn and [MakeMove] accepts the column.
    Then the game under that id is replaced by the game after the move
    (with its end time when the move ends it), nothing is sent to the
    sender, and a [move] message with the column, the row, the player of
    the disc and the new board is broadcast.  In every other case no game,
    no index entry and no broadcast changes, and the sender, when
    registered, is sent exactly one [error] message. *)
Theorem handleMove_guarded (s : server.State) (client : string) (msg : ws.Message.t)
    (now : Z) :
  registry_ok s →
  let c := server.client_at s client in
  let gid := ws.Client.GameID c in
  let s' := server.handleMove client msg now s in
  (∀ g, move_accepted s client msg g →
     let r := MakeMove g (ws.Message.Column msg) in
     server.Games s' =
       <[gid := if IsOver (game_of r) then with_EndTime (game_of r) now else game_of r]>
         (server.Games s) ∧
     server.Sent s' = server.Sent s ∧
     ∃ rest,
       server.Broadcast s' =
         server.Broadcast s ++
         server.msg_move gid (ws.Message.Column msg) (row_of r) (CurrentPlayer g)
                         (Board (game_of r)) :: rest) ∧
  ((∀ g, ¬ move_accepted s client msg g) →
     server.Games s' = server.Games s ∧
     server.PlayerToGame s' = server.PlayerToGame s ∧
     server.Broadcast s' = server.Broadcast s ∧
     ∃ text,
       server.Sent s' =
         server.Sent s ++
         (if decide (ws.Client.ID c ∈ server.Clients s)
          then [(ws.Client.ID c, server.msg_error text)] else [])).
Proof.
  intros Hok. cbv zeta. split.
  - intros g Hacc. rewrite (handleMove_accepted_eq s client msg now g Hacc). cbv zeta.
    destruct Hacc as (_ & Hg & _).
    destruct (after_move_fields (ws.Client.GameID (server.client_at s client))
                (game_of (MakeMove g (ws.Message.Column msg)))
                (server.msg_move (ws.Client.GameID (server.client_at s client))
                   (ws.Message.Column msg) (row_of (MakeMove g (ws.Message.Column msg)))
                   (CurrentPlayer g) (Board (game_of (MakeMove g (ws.Message.Column msg)))))
                now s)
      as (-> & -> & -> & _).
    { rewrite ID_MakeMove. by apply (Hok _ g). }
    split; [done|]. split; [done|]. eauto.
  - intros Hnone.
    destruct (handleMove_cases s client msg now) as [(text & _ & ->)|(g & Hacc & _)];
      [|by destruct (Hnone g)].
    destruct (SendToClient_fields (ws.Client.ID (server.client_at s client))
                (server.msg_error text) s) as (-> & -> & -> & _ & _ & ->).
    eauto.
Qed.

(** bob moves out of turn right after the pairing: nothing changes but the
    error he is sent; alice's move is played. *)
Lemma handleMove_guarded_witness :
  let s := server.run two_joined server.init in
  server.Games (server.handleMove "c2" (move_msg 3) 102 s) = server.Games s ∧
  server.Games (server.handleMove "c1" (move_msg 3) 102 s) =
    <["g1" := game_of (MakeMove (default fresh_game (server.Games s !! "g1")) 3)]>
      (server.Games s).
Proof.
  cbv zeta.
  destruct (handleMove_guarded (server.run two_joined server.init) "c2" (move_msg 3) 102
              (registry_ok_run two_joined)) as [_ Hrej].
  destruct (handleMove_guarded (server.run two_joined server.init) "c1" (move_msg 3) 102
              (registry_ok_run two_joined)) as [Hacc _].
  split.
  - destruct Hrej as [Hsame _]; [|exact Hsame].
    intros g (_ & Hg & _ & _ & Hturn & _).
    assert (Hg1 : g = default fresh_game
                        (server.Games (server.run two_joined server.init) !! "g1")).
    { apply (inj Some). rewrite <- Hg. vm_compute. reflexivity. }
    subst g. vm_compute in Hturn. discriminate.
  - destruct (Hacc (default fresh_game
                      (server.Games (server.run two_joined server.init) !! "g1")))
      as [Hgames _]; [|exact Hgames].
    unfold move_accepted; cbv zeta;
      (split; [vm_compute; discriminate|]); (split; [vm_compute; reflexivity|]);
      (split; [vm_compute; reflexivity|]); (split; [left; vm_compute; reflexivity|]);
      (split; vm_compute; reflexivity).
Defined.

Lemma live_has_moves (g : Game) :
  reachable g → IsOver g = false → GetValidMoves g ≠ [].
Proof.
  intros Hreach Hlive Hnil.
  pose proof (flags_inv_reachable g Hreach) as [Hfull _ _ _].
  assert (Hf : IsBoardFull g = true); [|rewrite (Hfull Hf) in Hlive; done].
  rewrite IsBoardFull_spec. intros c Hc Hcell.
  assert (Hin : c ∈ GetValidMoves g) by (by apply GetValidMoves_spec).
  rewrite Hnil in Hin. by apply elem_of_nil in Hin.
Qed.

(** X14.  When an accepted move message ends a game, the broadcast is the
    [move] message followed by one [game_end] message for that game: for a
    draw with reason draw and no winner, otherwise with reason connect4 and
    the name of the player who moved, who is the winner of the game.  The
    index entries of the ids of both players (of player 1 only in a bot
    game) and the bot of the game are removed. *)
Theorem game_end_names_the_mover (s : server.State) (client : string)
    (msg : ws.Message.t) (now : Z) (g : Game) :
  registry_ok s → move_accepted s client msg g →
  let gid := ws.Client.GameID (server.client_at s client) in
  let r := MakeMove g (ws.Message.Column msg) in
  let s' := server.handleMove client msg now s in
  IsOver (game_of r) = true →
  (∃ winner reason,
     server.Broadcast s' =
       server.Broadcast s ++
       [server.msg_move gid (ws.Message.Column msg) (row_of r) (CurrentPlayer g)
                        (Board (game_of r));
        server.msg_game_end gid winner reason] ∧
     ((IsDraw (game_of r) = true ∧ Winner (game_of r) = 0 ∧
       winner = EmptyString ∧ reason = "draw") ∨
      (IsDraw (game_of r) = false ∧ Winner (game_of r) = CurrentPlayer g ∧
       winner = (if CurrentPlayer g =? Player1 then Player1Name g else Player2Name g) ∧
       reason = "connect4"))) ∧
  server.PlayerToGame s' !! Player1ID g = None ∧
  (IsBot g = false → server.PlayerToGame s' !! Player2ID g = None) ∧
  server.BotPlayers s' !! gid = None.
Proof.
  intros Hok Hacc. cbv zeta. intros Hover.
  rewrite (handleMove_accepted_eq s client msg now g Hacc). cbv zeta.
  destruct Hacc as (_ & Hg & Hlive & _ & _ & Hmove).
  destruct (Hok _ g Hg) as [Hid Hreach]. specialize (Hreach Hlive).
  pose proof (reachable_inv g Hreach) as Hinv.
  destruct (inv_live g Hinv Hlive) as [Hw Hd].
  destruct (MakeMove_seats g (ws.Message.Column msg)) as (Hp1 & Hp2 & Hn1 & Hn2 & Hbot).
  cbv zeta in *.
  set (r := MakeMove g (ws.Message.Column msg)) in *.
  destruct (after_move_fields (ws.Client.GameID (server.client_at s client)) (game_of r)
              (server.msg_move (ws.Client.GameID (server.client_at s client))
                 (ws.Message.Column msg) (row_of r) (CurrentPlayer g) (Board (game_of r)))
              now s)
    as (_ & -> & _ & -> & ->).
  { unfold r. rewrite ID_MakeMove. done. }
  rewrite Hover, Hp1, Hp2, Hbot. split; [|split; [|split]].
  - eexists _, _. split; [reflexivity|]. unfold announced. rewrite Hn1, Hn2.
    destruct (MakeMove_flags g (ws.Message.Column msg) Hmove) as [_ Hcases].
    cbv zeta in Hcases. fold r in Hcases.
    destruct Hcases as [(_ & HW & _ & HD)|[(_ & HW & _ & HD)|(_ & _ & HO & _)]];
      [| |congruence].
    + right. rewrite HD, Hd, HW. split; [done|]. split; [done|].
      destruct (inv_player g Hinv) as [-> | ->]; done.
    + left. rewrite HD, HW, Hw. done.
  - destruct (IsBot g); [by rewrite lookup_delete_eq|].
    destruct (decide (Player2ID g = Player1ID g)) as [->|Hne];
      [by rewrite lookup_delete_eq|].
    rewrite lookup_delete_ne by done. by rewrite lookup_delete_eq.
  - intros ->. by rewrite lookup_delete_eq.
  - by rewrite lookup_delete_eq.
Qed.

Lemma game_end_names_the_mover_witness :
  let s := server.run before_the_win server.init in
  let g := default fresh_game (server.Games s !! "g1") in
  server.PlayerToGame (server.handleMove "c1" (move_msg 0) 109 s) !! Player1ID g = None ∧
  server.PlayerToGame (server.handleMove "c1" (move_msg 0) 109 s) !! Player2ID g = None.
Proof.
  cbv zeta.
  destruct (game_end_names_the_mover (server.run before_the_win server.init) "c1"
              (move_msg 0) 109
              (default fresh_game
                 (server.Games (server.run before_the_win server.init) !! "g1")))
    as (_ & Hp1 & Hp2 & _).
  - apply registry_ok_run.
  - unfold move_accepted; cbv zeta;
      (split; [vm_compute; discriminate|]); (split; [vm_compute; reflexivity|]);
      (split; [vm_compute; reflexivity|]); (split; [left; vm_compute; reflexivity|]);
      (split; vm_compute; reflexivity).
  - vm_compute. reflexivity.
  - split; [exact Hp1|]. apply Hp2. vm_compute. reflexivity.
Defined.

(** ** The bot's move in the server *)

Lemma GetMove_valid_column (b : bot.Bot) (g : Game) (seed : nat) :
  GetValidMoves g ≠ [] → bot.GetMove b g seed ∈ GetValidMoves g.
Proof.
  intros Hne. unfold bot.GetMove.
  destruct (bot.first_winning g (bot.Player b) _) as [col|] eqn:Hw1;
    [by apply first_winning_Some_in in Hw1 as [? _]|].
  destruct (bot.first_winning g (bot.opponent_of b) _) as [col|] eqn:Hw2;
    [by apply first_winning_Some_in in Hw2 as [? _]|].
  pose proof (best_loop_subset b g (bot.opponent_of b) (GetValidMoves g)
                bot.MinInt32 []) as Hsub.
  destruct (bot.best_loop _ _ _ _ _ _) as [bestScore bestMoves]. simpl in Hsub.
  destruct (length bestMoves =? 0)%nat eqn:Hlen.
  - destruct (0 <? length (GetValidMoves g))%nat eqn:Hlen'.
    + by apply nth_rand_elem.
    + apply Nat.ltb_ge in Hlen'. destruct (GetValidMoves g); [done | simpl in Hlen'; lia].
  - apply Nat.eqb_neq in Hlen.
    assert (Hcp : bot.centerPreference bestMoves [] ≠ []).
    { pose proof (centerPreference_length bestMoves []) as Hl.
      destruct (bot.centerPreference bestMoves []); [simpl in Hl; lia | done]. }
    apply (nth_rand_elem seed) in Hcp.
    apply centerPreference_subset in Hcp as [Hcp|Hcp]; [|by apply elem_of_nil in Hcp].
    apply Hsub in Hcp as [Hcp|Hcp]; [done | by apply elem_of_nil in Hcp].
Qed.

(** X15.  [makeBotMove] on a registered game that is not over is never
    rejected: the column [GetMove] returns is a legal column, [MakeMove]
    accepts it, the game under the id is replaced by the game after the
    move (with its end time when the move ends it), and a [move] message
    for player 2 with that column and the row of the disc is broadcast. *)
Theorem makeBotMove_never_rejected (s : server.State) (gameID : string) (seed : nat)
    (now : Z) (g : Game) :
  registry_ok s → server.Games s !! gameID = Some g → IsOver g = false →
  let botPlayer := default (bot.mkBot Player2) (server.BotPlayers s !! gameID) in
  let column := bot.GetMove botPlayer g seed in
  let r := MakeMove g column in
  let s' := server.makeBotMove gameID seed now s in
  column ∈ GetValidMoves g ∧ ok_of r = true ∧
  server.Games s' =
    <[gameID := if IsOver (game_of r) then with_EndTime (game_of r) now else game_of r]>
      (server.Games s) ∧
  ∃ rest,
    server.Broadcast s' =
      server.Broadcast s ++
      server.msg_move gameID column (row_of r) Player2 (Board (game_of r)) :: rest.
Proof.
  intros Hok Hg Hlive. cbv zeta.
  destruct (Hok gameID g Hg) as [Hid Hreach]. specialize (Hreach Hlive). subst gameID.
  destruct (makeBotMove_eq s (ID g) seed now g Hg) as [Hs1 ->]. cbv zeta.
  set (botPlayer := default (bot.mkBot Player2) (server.BotPlayers s !! ID g)).
  assert (Hin : bot.GetMove botPlayer g seed ∈ GetValidMoves g)
    by (by apply GetMove_valid_column, live_has_moves).
  pose proof (valid_move_accepted g _ Hin) as Hmove.
  split; [done|]. split; [done|]. rewrite Hmove.
  set (s1 := match server.BotPlayers s !! ID g with Some _ => s | None => _ end) in *.
  assert (Hb1 : server.Broadcast s1 = server.Broadcast s)
    by (unfold s1; by destruct (server.BotPlayers s !! ID g)).
  destruct (after_move_fields (ID g) (game_of (MakeMove g (bot.GetMove botPlayer g seed)))
              (server.msg_move (ID (game_of (MakeMove g (bot.GetMove botPlayer g seed))))
                 (bot.GetMove botPlayer g seed)
                 (row_of (MakeMove g (bot.GetMove botPlayer g seed))) Player2
                 (Board (game_of (MakeMove g (bot.GetMove botPlayer g seed)))))
              now s1)
    as (-> & -> & _).
  { by rewrite ID_MakeMove. }
  rewrite Hs1, Hb1, ID_MakeMove. split; [done|]. eauto.
Qed.

(** carol plays column 3 against the bot; the bot's answer is accepted. *)
Lemma makeBotMove_never_rejected_witness :
  let s := server.run (lone_join ++ [server.Receive "c9" (move_msg 3) "u1" 211])
                      server.init in
  let g := default fresh_game (server.Games s !! "g2") in
  ok_of (MakeMove g (bot.GetMove
                       (default (bot.mkBot Player2) (server.BotPlayers s !! "g2")) g 0))
    = true.
Proof.
  cbv zeta.
  destruct (makeBotMove_never_rejected
              (server.run (lone_join ++ [server.Receive "c9" (move_msg 3) "u1" 211])
                          server.init)
              "g2" 0 212
              (default fresh_game
                 (server.Games
                    (server.run (lone_join ++ [server.Receive "c9" (move_msg 3) "u1" 211])
                                server.init) !! "g2")))
    as (_ & Hmove & _).
  - apply registry_ok_run.
  - vm_compute. reflexivity.
  - vm_compute. reflexivity.
  - exact Hmove.
Defined.

(** ** Matchmaking *)

Lemma eligible_test (s : server.State) (client wp : string) :
  negb (String.eqb (ws.Client.ID (server.client_at s wp))
                   (ws.Client.ID (server.client_at s client)))
  && negb (String.eqb (ws.Client.Username (server.client_at s wp))
                      (ws.Client.Username (server.client_at s client))) = true
  ↔ eligible s client wp.
Proof.
  unfold eligible. rewrite andb_true_iff, !negb_true_iff.
  split; intros [H1 H2]; split.
  - by apply String.eqb_neq.
  - by apply String.eqb_neq.
  - by apply String.eqb_neq.
  - by apply String.eqb_neq.
Qed.

Lemma pick_opponent_first (s : server.State) (client wp : string) (pre post : list string) :
  (∀ w, w ∈ pre → ¬ eligible s client w) → eligible s client wp →
  server.pick_opponent s client (pre ++ wp :: post) = Some (wp, pre ++ post).
Proof.
  intros Hpre Hwp. induction pre as [|w pre IH]; simpl.
  - by rewrite (proj2 (eligible_test s client wp) Hwp).
  - destruct (negb _ && negb _) eqn:Htest.
    + apply eligible_test in Htest. destruct (Hpre w); [left | done].
    + rewrite IH; [done|]. intros w' Hw'. apply Hpre. by right.
Qed.

Lemma pick_opponent_none (s : server.State) (client : string) (queue : list string) :
  (∀ w, w ∈ queue → ¬ eligible s client w) →
  server.pick_opponent s client queue = None.
Proof.
  intros Hq. induction queue as [|w queue IH]; simpl; [done|].
  destruct (negb _ && negb _) eqn:Htest.
  - apply eligible_test in Htest. destruct (Hq w); [left | done].
  - rewrite IH; [done|]. intros w' Hw'. apply Hq. by right.
Qed.

Lemma startGame_fields (s : server.State) (player1 : string) (player2 : option string)
    (isBot : bool) (gameID : string) (now : Z) :
  let p1 := server.client_at s player1 in
  let s' := server.startGame player1 player2 isBot gameID now s in
  server.Games s' =
    <[gameID :=
        with_StartTime
          (NewGame gameID (ws.Client.ID p1) (ws.Client.Username p1)
             (match player2 with
              | Some p2 => ws.Client.ID (server.client_at s p2)
              | None => "bot-" +:+ gameID
              end)
             (match player2 with
              | Some p2 => ws.Client.Username (server.client_at s p2)
              | None => "Bot"
              end)
             isBot)
          now]> (server.Games s) ∧
  server.WaitingQueue s' = server.WaitingQueue s ∧
  server.Broadcast s' = server.Broadcast s ∧
  server.BotPlayers s' =
    (if isBot then <[gameID := bot.mkBot Player2]> (server.BotPlayers s)
     else server.BotPlayers s) ∧
  server.PlayerToGame s' =
    match player2 with
    | Some p2 =>
        <[ws.Client.ID (server.client_at s p2) := gameID]>
          (<[ws.Client.ID p1 := gameID]> (server.PlayerToGame s))
    | None => <[ws.Client.ID p1 := gameID]> (server.PlayerToGame s)
    end.
Proof.
  cbv zeta. unfold server.startGame. cbv zeta. unfold server.onGameStart.
  destruct player2 as [p2|]; cbn [fmap option_fmap option_map];
    destruct isBot; simpl;
    repeat match goal with
           | |- context [server.SendToClient ?to ?m ?s0] =>
               destruct (SendToClient_fields to m s0) as (-> & -> & -> & -> & -> & _)
           end; simpl; done.
Qed.

(** X16.  [AddPlayer] pairs the newcomer with the client that has waited
    longest among those with another id and another user name: that client
    leaves the queue, the others keep their order, and the new game has the
    waiting client as player 1 and the newcomer as player 2, is not a bot
    game and has player 1 to move.  When no waiting client qualifies, no
    game is created and the newcomer is appended to the queue, also when it
    is waiting there already. *)
Theorem AddPlayer_pairs_longest_waiting (s : server.State) (client gameID : string)
    (now : Z) :
  let s' := server.AddPlayer client gameID now s in
  let c := server.client_at s client in
  (∀ pre wp post,
     server.WaitingQueue s = pre ++ wp :: post →
     (∀ w, w ∈ pre → ¬ eligible s client w) → eligible s client wp →
     server.WaitingQueue s' = pre ++ post ∧
     ∃ g, server.Games s' = <[gameID := g]> (server.Games s) ∧
          Player1ID g = ws.Client.ID (server.client_at s wp) ∧
          Player1Name g = ws.Client.Username (server.client_at s wp) ∧
          Player2ID g = ws.Client.ID c ∧ Player2Name g = ws.Client.Username c ∧
          IsBot g = false ∧ CurrentPlayer g = Player1 ∧ Moves g = [] ∧
          IsOver g = false) ∧
  ((∀ w, w ∈ server.WaitingQueue s → ¬ eligible s client w) →
     server.WaitingQueue s' = server.WaitingQueue s ++ [client] ∧
     server.Games s' = server.Games s ∧
     server.PlayerToGame s' = server.PlayerToGame s).
Proof.
  cbv zeta. split.
  - intros pre wp post Hq Hpre Hwp. unfold server.AddPlayer.
    rewrite Hq, (pick_opponent_first s client wp pre post Hpre Hwp).
    destruct (startGame_fields (server.with_WaitingQueue s (pre ++ post)) wp (Some client)
                false gameID now) as (HG & HQ & _).
    cbv zeta in HG, HQ. rewrite HQ, HG. split; [done|].
    eexists. split; [reflexivity|]. done.
  - intros Hnone. unfold server.AddPlayer.
    rewrite (pick_opponent_none s client _ Hnone).
    destruct (SendToClient_fields
                (ws.Client.ID (server.client_at
                   (server.with_WaitingQueue s (server.WaitingQueue s ++ [client])) client))
                server.msg_waiting
                (server.with_WaitingQueue s (server.WaitingQueue s ++ [client])))
      as (-> & -> & _ & _ & -> & _).
    done.
Qed.

(** bob joins while alice waits: alice is player 1 of the game. *)
Lemma AddPlayer_pairs_longest_waiting_witness :
  let s := server.set_Username "c2" "bob" (server.run (take 3 two_joined) server.init) in
  ∃ g, server.Games (server.AddPlayer "c2" "g1" 101 s) = <["g1" := g]> (server.Games s) ∧
       Player1Name g = "alice".
Proof.
  cbv zeta.
  destruct (AddPlayer_pairs_longest_waiting
              (server.set_Username "c2" "bob" (server.run (take 3 two_joined) server.init))
              "c2" "g1" 101) as [Hpair _].
  destruct (Hpair [] "c1" []) as (_ & g & Hg & _ & Hname & _).
  - vm_compute. reflexivity.
  - intros w Hw. by apply elem_of_nil in Hw.
  - split; vm_compute; discriminate.
  - exists g. split; [exact Hg|]. rewrite Hname. vm_compute. reflexivity.
Defined.

Lemma remove_waiting_first (s : server.State) (id wp : string) (pre post : list string) :
  (∀ w, w ∈ pre → ws.Client.ID (server.client_at s w) ≠ id) →
  ws.Client.ID (server.client_at s wp) = id →
  server.remove_waiting s id (pre ++ wp :: post) = Some (pre ++ post).
Proof.
  intros Hpre Hwp. induction pre as [|w pre IH]; simpl.
  - by rewrite (proj2 (String.eqb_eq _ _) Hwp).
  - rewrite (proj2 (String.eqb_neq _ _) (Hpre w ltac:(left))).
    rewrite IH; [done|]. intros w' Hw'. apply Hpre. by right.
Qed.

Lemma remove_waiting_none (s : server.State) (id : string) (queue : list string) :
  (∀ w, w ∈ queue → ws.Client.ID (server.client_at s w) ≠ id) →
  server.remove_waiting s id queue = None.
Proof.
  intros Hq. induction queue as [|w queue IH]; simpl; [done|].
  rewrite (proj2 (String.eqb_neq _ _) (Hq w ltac:(left))).
  rewrite IH; [done|]. intros w' Hw'. apply Hq. by right.
Qed.

(** X17.  When the matchmaking timer of a client fires and the client is
    still in the queue, its first entry leaves the queue, the others keep
    their order, and a bot game starts: the game stored under the new id
    has the client as player 1, the name Bot and the id bot- followed by
    the game id for player 2, is a bot game with player 1 to move, a bot
    for player 2 is kept under the game id, and the index maps the client's
    id to the game.  When the client is not in the queue any more, nothing
    happens. *)
Theorem handleTimeout_starts_bot_game (s : server.State) (client gameID : string)
    (now : Z) :
  let c := server.client_at s client in
  let s' := server.handleTimeout client gameID now s in
  (∀ pre wp post,
     server.WaitingQueue s = pre ++ wp :: post →
     (∀ w, w ∈ pre → ws.Client.ID (server.client_at s w) ≠ ws.Client.ID c) →
     ws.Client.ID (server.client_at s wp) = ws.Client.ID c →
     server.WaitingQueue s' = pre ++ post ∧
     server.BotPlayers s' !! gameID = Some (bot.mkBot Player2) ∧
     server.PlayerToGame s' = <[ws.Client.ID c := gameID]> (server.PlayerToGame s) ∧
     ∃ g, server.Games s' = <[gameID := g]> (server.Games s) ∧
          IsBot g = true ∧ CurrentPlayer g = Player1 ∧ IsOver g = false ∧ Moves g = [] ∧
          Player1ID g = ws.Client.ID c ∧ Player1Name g = ws.Client.Username c ∧
          Player2ID g = ("bot-" +:+ gameID) ∧ Player2Name g = "Bot") ∧
  ((∀ w, w ∈ server.WaitingQueue s →
         ws.Client.ID (server.client_at s w) ≠ ws.Client.ID c) →
   s' = s).
Proof.
  cbv zeta. split.
  - intros pre wp post Hq Hpre Hwp. unfold server.handleTimeout.
    rewrite Hq, (remove_waiting_first s _ wp pre post Hpre Hwp).
    destruct (startGame_fields (server.with_WaitingQueue s (pre ++ post)) client None
                true gameID now) as (HG & HQ & _ & HB & HP).
    cbv zeta in HG, HQ, HB, HP. rewrite HQ, HG, HB, HP.
    split; [done|]. split; [by rewrite lookup_insert_eq|]. split; [done|].
    eexists. split; [reflexivity|]. done.
  - intros Hnone. unfold server.handleTimeout.
    by rewrite (remove_waiting_none s _ _ Hnone).
Qed.

Lemma handleTimeout_starts_bot_game_witness :
  let s := server.run (take 2 lone_join) server.init in
  server.WaitingQueue (server.handleTimeout "c9" "g2" 210 s) = [] ∧
  server.BotPlayers (server.handleTimeout "c9" "g2" 210 s) !! "g2"
    = Some (bot.mkBot Player2).
Proof.
  cbv zeta.
  destruct (handleTimeout_starts_bot_game (server.run (take 2 lone_join) server.init)
              "c9" "g2" 210) as [Hstart _].
  destruct (Hstart [] "c9" []) as (Hq & Hb & _).
  - vm_compute. reflexivity.
  - intros w Hw. by apply elem_of_nil in Hw.
  - reflexivity.
  - split; [exact Hq | exact Hb].
Defined.

(** ** Reconnection *)

Lemma client_at_set (s : server.State) (id x : string) :
  server.client_at (server.set_Username id x s) id =
    ws.Client.mk (ws.Client.ID (server.client_at s id)) x
                 (ws.Client.GameID (server.client_at s id)) ∧
  server.client_at (server.set_GameID id x s) id =
    ws.Client.mk (ws.Client.ID (server.client_at s id))
                 (ws.Client.Username (server.client_at s id)) x.
Proof.
  split.
  - unfold server.set_Username. unfold server.client_at at 1. simpl.
    by rewrite lookup_insert_eq.
  - unfold server.set_GameID. unfold server.client_at at 1. simpl.
    by rewrite lookup_insert_eq.
Qed.

Lemma handleReconnect_fields (s : server.State) (client : string) (msg : ws.Message.t) :
  server.Games (server.handleReconnect client msg s) = server.Games s ∧
  server.Broadcast (server.handleReconnect client msg s) = server.Broadcast s ∧
  server.WaitingQueue (server.handleReconnect client msg s) = server.WaitingQueue s.
Proof.
  unfold server.handleReconnect. cbv zeta.
  destruct (_ || _); [|destruct (server.GetGame _ s) as [g|];
                       [destruct (IsOver g); [|destruct (negb _ && negb _)]|]];
    match goal with |- context [server.SendToClient ?to ?m ?s0] =>
      destruct (SendToClient_fields to m s0) as (-> & _ & -> & _ & -> & _)
    end; done.
Qed.

(** X18.  [handleReconnect] never changes a game, the queue or the
    broadcasts.  It accepts a message exactly when game id and user name
    are not empty, the game is registered and not over and the user name is
    one of its two player names, whoever the sender is: then the sender's
    struct gets that user name and game id, the index maps the sender's id
    and the user name to the game, the disconnect timer of the user name is
    gone, and the sender, when registered, is sent one [game_reconnected]
    message with the board.  Otherwise the index and the client structs
    stay as they are and the sender, when registered, is sent one [error]
    message. *)
Theorem handleReconnect_guarded (s : server.State) (client : string) (msg : ws.Message.t) :
  let c := server.client_at s client in
  let gameID := ws.Message.GameID msg in
  let username := ws.Message.Username msg in
  let s' := server.handleReconnect client msg s in
  (server.Games s' = server.Games s ∧ server.Broadcast s' = server.Broadcast s ∧
   server.WaitingQueue s' = server.WaitingQueue s) ∧
  (∀ g, reconnect_accepted s msg g →
     server.client_at s' client = ws.Client.mk (ws.Client.ID c) username gameID ∧
     server.PlayerToGame s' =
       <[username := gameID]> (<[ws.Client.ID c := gameID]> (server.PlayerToGame s)) ∧
     (username ∉ server.DisconnectTimers s') ∧
     server.Sent s' =
       server.Sent s ++
       (if decide (ws.Client.ID c ∈ server.Clients s)
        then [(ws.Client.ID c, server.reconnected_for gameID g username)] else [])) ∧
  ((∀ g, ¬ reconnect_accepted s msg g) →
     server.PlayerToGame s' = server.PlayerToGame s ∧
     server.clients s' = server.clients s ∧
     ∃ text,
       server.Sent s' =
         server.Sent s ++
         (if decide (ws.Client.ID c ∈ server.Clients s)
          then [(ws.Client.ID c, server.msg_error text)] else [])).
Proof.
  cbv zeta. unfold reconnect_accepted, server.handleReconnect, server.GetGame. cbv zeta.
  set (c := server.client_at s client).
  assert (Herr : ∀ text,
    let s' := server.SendToClient (ws.Client.ID c) (server.msg_error text) s in
    (server.Games s' = server.Games s ∧ server.Broadcast s' = server.Broadcast s ∧
     server.WaitingQueue s' = server.WaitingQueue s) ∧
    (server.PlayerToGame s' = server.PlayerToGame s ∧
     server.clients s' = server.clients s ∧
     ∃ text,
       server.Sent s' =
         server.Sent s ++
         (if decide (ws.Client.ID c ∈ server.Clients s)
          then [(ws.Client.ID c, server.msg_error text)] else []))).
  { intros text. cbv zeta.
    destruct (SendToClient_fields (ws.Client.ID c) (server.msg_error text) s)
      as (-> & -> & -> & _ & -> & ->).
    split; [done|]. split; [done|]. split; [|eauto].
    unfold server.SendToClient. by destruct (decide _). }
  destruct (String.eqb_spec (ws.Message.GameID msg) EmptyString) as [Hgid|Hgid]; simpl.
  { destruct (Herr "Game ID and username are required for reconnection") as [H1 H2].
    split; [exact H1|]. split; [|by intros _]. intros g (? & _). done. }
  destruct (String.eqb_spec (ws.Message.Username msg) EmptyString) as [Hname|Hname]; simpl.
  { destruct (Herr "Game ID and username are required for reconnection") as [H1 H2].
    split; [exact H1|]. split; [|by intros _]. intros g (_ & ? & _). done. }
  destruct (server.Games s !! ws.Message.GameID msg) as [g|] eqn:Hg.
  2: { destruct (Herr "Game not found") as [H1 H2].
       split; [exact H1|]. split; [|by intros _]. intros g (_ & _ & ? & _). done. }
  destruct (IsOver g) eqn:Hover.
  { destruct (Herr "Game is already over") as [H1 H2].
    split; [exact H1|]. split; [|by intros _].
    intros g0 (_ & _ & [= <-] & ? & _). congruence. }
  destruct (String.eqb_spec (Player1Name g) (ws.Message.Username msg)) as [Hn1|Hn1];
    [|destruct (String.eqb_spec (Player2Name g) (ws.Message.Username msg)) as [Hn2|Hn2]];
    simpl.
  3: { destruct (Herr "You are not a player in this game") as [H1 H2].
       split; [exact H1|]. split; [|by intros _].
       intros g0 (_ & _ & [= <-] & _ & [?|?]); done. }
  all: match goal with |- context [server.SendToClient ?to ?m ?s0] =>
         destruct (SendToClient_fields to m s0) as (-> & -> & -> & _ & -> & ->);
         assert (Hcl : server.clients (server.SendToClient to m s0) = server.clients s0)
           by (unfold server.SendToClient; by destruct (decide _))
       end.
  all: split; [done|]; split; [|intros Hnone; exfalso; apply (Hnone g); split_and!; auto].
  all: intros g0 (_ & _ & [= <-] & _ & _).
  all: split;
         [unfold server.client_at at 1; rewrite Hcl;
          change (server.client_at
                    (server.set_GameID client (ws.Message.GameID msg)
                       (server.set_Username client (ws.Message.Username msg) s)) client =
                  ws.Client.mk (ws.Client.ID c) (ws.Message.Username msg)
                               (ws.Message.GameID msg));
          rewrite (proj2 (client_at_set _ _ _)), (proj1 (client_at_set _ _ _)); done|].
  all: split; [done|]; split; [|done].
  all: unfold server.SendToClient; destruct (decide _); simpl;
    intros [_ Hnot]%elem_of_difference; apply Hnot; by apply elem_of_singleton.
Qed.

(** A third connection takes alice's seat in g1 with the game id and her
    name. *)
Lemma handleReconnect_guarded_witness :
  let s := server.run (two_joined ++ [server.Connect "c3"]) server.init in
  server.client_at (server.handleReconnect "c3" (reconnect_msg "g1" "alice") s) "c3" =
    ws.Client.mk "c3" "alice" "g1".
Proof.
  cbv zeta.
  destruct (handleReconnect_guarded
              (server.run (two_joined ++ [server.Connect "c3"]) server.init)
              "c3" (reconnect_msg "g1" "alice")) as (_ & Hacc & _).
  destruct (Hacc (default fresh_game
                    (server.Games
                       (server.run (two_joined ++ [server.Connect "c3"]) server.init)
                       !! "g1"))) as [Hclient _].
  - unfold reconnect_accepted.
    split; [vm_compute; discriminate|]. split; [vm_compute; discriminate|].
    split; [vm_compute; reflexivity|]. split; [vm_compute; reflexivity|].
    left. vm_compute. reflexivity.
  - rewrite Hclient. vm_compute. reflexivity.
Defined.

(** ** Who changes a game *)

(** X19.  Only a move message and a bot move change a registered game.
    A connect, a disconnect, a join, a reconnect, any other message and a
    matchmaking timeout leave every game of the registry as it is: in
    particular a disconnect never ends or forfeits a game. *)
Theorem only_moves_change_games (s : server.State) (e : server.event) (gid : string)
    (g : Game) :
  plays_a_disc e = false → server.Games s !! gid = Some g →
  server.Games (server.step s e) !! gid = Some g.
Proof.
  intros He Hg.
  assert (Hstart : ∀ p1 p2 isBot uuid now s0,
            server.Games s0 = server.Games s → server.Games s !! uuid = None →
            server.Games (server.startGame p1 p2 isBot uuid now s0) !! gid = Some g).
  { intros p1 p2 isBot uuid now s0 Hs0 Hfresh.
    destruct (startGame_Games s0 p1 p2 isBot uuid now) as [newGame ->].
    rewrite Hs0, lookup_insert_ne by congruence. done. }
  destruct e as [id|id|id msg uuid now|id uuid now|gameID seed now]; simpl in *.
  - by destruct (server.clients s !! id).
  - done.
  - destruct (server.clients s !! id); [|done].
    destruct (server.Games s !! uuid) eqn:Huuid; [done|].
    unfold server.handleMessage. rewrite He.
    destruct (String.eqb _ "join").
    { unfold server.handleJoin.
      destruct (String.eqb (ws.Message.Username msg) EmptyString).
      { by rewrite (proj1 (SendToClient_fields _ _ _)). }
      cbv zeta.
      match goal with |- context [match ?r with Some _ => _ | None => _ end] =>
        destruct r as [existingGame|] end.
      { by rewrite (proj1 (SendToClient_fields _ _ _)). }
      unfold server.AddPlayer.
      destruct (server.pick_opponent _ id _) as [[wp rest]|].
      - by apply Hstart.
      - by rewrite (proj1 (SendToClient_fields _ _ _)). }
    destruct (String.eqb _ "reconnect"); [|done].
    destruct (handleReconnect_fields s id msg) as [-> _]. done.
  - destruct (server.clients s !! id); [|done].
    destruct (server.Games s !! uuid) eqn:Huuid; [done|].
    unfold server.handleTimeout.
    destruct (server.remove_waiting s _ _) as [rest|]; [|done].
    by apply Hstart.
  - done.
Qed.

(** alice's connection drops: game g1 stays as it is. *)
Lemma only_moves_change_games_witness :
  server.Games (server.step (server.run two_joined server.init) (server.Disconnect "c1"))
    !! "g1" =
  Some (default fresh_game (server.Games (server.run two_joined server.init) !! "g1")).
Proof.
  apply (only_moves_change_games (server.run two_joined server.init)
           (server.Disconnect "c1") "g1").
  - reflexivity.
  - vm_compute. reflexivity.
Defined.

(** ** Join messages *)

(** X20.  [handleJoin] with an empty user name changes nothing and sends
    the sender, when registered, one [error] message.  With a user name for
    which the index holds the id of a registered game that is not over, it
    creates no game and leaves the queue alone: the sender's struct gets
    the user name and that game id, the index maps the sender's id to the
    game, and the sender is sent one [game_reconnected] message.  In every
    other case it stores the user name in the sender's struct and hands the
    sender to [AddPlayer]. *)
Theorem handleJoin_paths (s : server.State) (client : string) (msg : ws.Message.t)
    (gameID : string) (now : Z) :
  let c := server.client_at s client in
  let username := ws.Message.Username msg in
  let s' := server.handleJoin client msg gameID now s in
  (username = EmptyString →
     server.Games s' = server.Games s ∧ server.WaitingQueue s' = server.WaitingQueue s ∧
     server.PlayerToGame s' = server.PlayerToGame s ∧
     server.clients s' = server.clients s ∧
     server.Sent s' =
       server.Sent s ++
       (if decide (ws.Client.ID c ∈ server.Clients s)
        then [(ws.Client.ID c, server.msg_error "Username is required")] else [])) ∧
  (username ≠ EmptyString →
     (∀ gid g,
        server.PlayerToGame s !! username = Some gid → gid ≠ EmptyString →
        server.Games s !! gid = Some g → IsOver g = false →
        server.Games s' = server.Games s ∧
        server.WaitingQueue s' = server.WaitingQueue s ∧
        server.client_at s' client = ws.Client.mk (ws.Client.ID c) username gid ∧
        server.PlayerToGame s' = <[ws.Client.ID c := gid]> (server.PlayerToGame s) ∧
        server.Sent s' =
          server.Sent s ++
          (if decide (ws.Client.ID c ∈ server.Clients s)
           then [(ws.Client.ID c, server.reconnected_for gid g username)] else [])) ∧
     ((∀ gid g,
         server.PlayerToGame s !! username = Some gid →
         server.Games s !! gid = Some g → gid = EmptyString ∨ IsOver g = true) →
      s' = server.AddPlayer client gameID now (server.set_Username client username s))).
Proof.
  cbv zeta. unfold server.handleJoin.
  destruct (String.eqb_spec (ws.Message.Username msg) EmptyString) as [Hname|Hname].
  { split; [|done]. intros _.
    destruct (SendToClient_fields (ws.Client.ID (server.client_at s client))
                (server.msg_error "Username is required") s)
      as (-> & -> & _ & _ & -> & ->).
    split; [done|]. split; [done|]. split; [done|]. split; [|done].
    unfold server.SendToClient. by destruct (decide _). }
  split; [done|]. intros _. cbv zeta.
  unfold server.GetPlayerGame, server.GetGame.
  change (server.PlayerToGame (server.set_Username client (ws.Message.Username msg) s))
    with (server.PlayerToGame s).
  change (server.Games (server.set_Username client (ws.Message.Username msg) s))
    with (server.Games s).
  split.
  - intros gid g Hidx Hgid Hg Hlive. rewrite Hidx. simpl.
    rewrite (proj2 (String.eqb_neq _ _) Hgid). simpl.
    destruct (server.Games s !! gid) as [g0|]; [|done].
    injection Hg as ->. rewrite Hlive. simpl.
    set (s2 := server.set_GameID client gid
                 (server.set_Username client (ws.Message.Username msg) s)).
    assert (Hc : server.client_at s2 client =
                 ws.Client.mk (ws.Client.ID (server.client_at s client))
                              (ws.Message.Username msg) gid).
    { unfold s2. by rewrite (proj2 (client_at_set _ _ _)), (proj1 (client_at_set _ _ _)). }
    change (server.client_at
              (server.CancelDisconnectTimer (ws.Message.Username msg)
                 (server.SetPlayerGame (ws.Client.ID (server.client_at s2 client)) gid s2))
              client)
      with (server.client_at s2 client).
    rewrite Hc. simpl ws.Client.ID.
    match goal with |- context [server.SendToClient ?to ?m ?s0] =>
      destruct (SendToClient_fields to m s0) as (-> & -> & _ & _ & -> & ->);
      assert (Hcl : server.clients (server.SendToClient to m s0) = server.clients s0)
        by (unfold server.SendToClient; by destruct (decide _))
    end.
    split; [done|]. split; [done|]. split; [|done].
    unfold server.client_at at 1. rewrite Hcl. exact Hc.
  - intros Hnone.
    destruct (server.PlayerToGame s !! ws.Message.Username msg) as [gid|] eqn:Hidx;
      simpl; [|done].
    destruct (String.eqb_spec gid EmptyString) as [Hgid|Hgid]; simpl; [done|].
    destruct (server.Games s !! gid) as [g|] eqn:Hg; [|done].
    destruct (Hnone gid g eq_refl Hg) as [?| ->]; done.
Qed.

(** alice, with an entry under her name after a reconnect, joins again on
    a fourth connection and is taken back to game g1. *)
Lemma handleJoin_paths_witness :
  let s := server.run (take 6 reconnect_then_win ++ [server.Connect "c4"]) server.init in
  server.client_at (server.handleJoin "c4" (join_msg "alice") "u9" 103 s) "c4" =
    ws.Client.mk "c4" "alice" "g1".
Proof.
  cbv zeta.
  destruct (handleJoin_paths
              (server.run (take 6 reconnect_then_win ++ [server.Connect "c4"]) server.init)
              "c4" (join_msg "alice") "u9" 103) as [_ Hname].
  destruct Hname as [Hrejoin _]; [vm_compute; discriminate|].
  destruct (Hrejoin "g1"
              (default fresh_game
                 (server.Games
                    (server.run (take 6 reconnect_then_win ++ [server.Connect "c4"])
                                server.init) !! "g1")))
    as (_ & _ & Hclient & _).
  - vm_compute. reflexivity.
  - discriminate.
  - vm_compute. reflexivity.
  - vm_compute. reflexivity.
  - rewrite Hclient. vm_compute. reflexivity.
Defined.

(** * The hub and the channels *)

Lemma channels_ok_set_object (s : hub.State) (id : string) (c : hub.Client) :
  channels_ok s →
  (id ∈ hub.Clients s → hub.closed (hub.Send c) = false) →
  (length (hub.queue (hub.Send c)) ≤ hub.capacity)%nat →
  channels_ok (hub.set_object id c s).
Proof.
  intros [Hopen Hcap] Hc1 Hc2. split; simpl.
  - intros id' Hin. destruct (decide (id = id')) as [<-|Hne].
    + exists c. rewrite lookup_insert_eq. auto.
    + rewrite lookup_insert_ne by done. by apply Hopen.
  - intros id' c'. destruct (decide (id = id')) as [<-|Hne].
    + rewrite lookup_insert_eq. by intros [= <-].
    + rewrite lookup_insert_ne by done. apply Hcap.
Qed.

Lemma channels_ok_delete_set (s : hub.State) (id : string) (c : hub.Client) :
  channels_ok s →
  (length (hub.queue (hub.Send c)) ≤ hub.capacity)%nat →
  channels_ok (hub.delete_client id (hub.set_object id c s)).
Proof.
  intros [Hopen Hcap] Hc. split; simpl.
  - intros id' [Hin Hne]%elem_of_difference.
    rewrite lookup_insert_ne by (intros ->; apply Hne; by apply elem_of_singleton).
    by apply Hopen.
  - intros id' c'. destruct (decide (id = id')) as [<-|Hne].
    + rewrite lookup_insert_eq. by intros [= <-].
    + rewrite lookup_insert_ne by done. apply Hcap.
Qed.

Lemma try_send_open (ch : hub.chan) (data : ws.Message.t) :
  hub.closed ch = false → (length (hub.queue ch) ≤ hub.capacity)%nat →
  ∃ ch' sent, hub.try_send ch data = inr (ch', sent) ∧
              hub.closed ch' = false ∧
              (length (hub.queue ch') ≤ hub.capacity)%nat ∧
              (sent = false → ch' = ch).
Proof.
  intros Hopen Hlen. unfold hub.try_send. rewrite Hopen.
  destruct (Nat.ltb_spec (length (hub.queue ch)) hub.capacity) as [Hlt|Hge].
  - eexists _, _. split; [done|]. simpl. rewrite length_app. simpl.
    split; [done|]. split; [lia | done].
  - eexists _, _. split; [done|]. auto.
Qed.

(** One client of the loop of [broadcastToGame]. *)
Lemma deliver_spec (msg : ws.Message.t) (s : hub.State) (id : string) (c : hub.Client) :
  channels_ok s → id ∈ hub.Clients s → hub.objects s !! id = Some c →
  ∃ s', hub.deliver msg s id = inr s' ∧ channels_ok s' ∧
        hub.Games s' = hub.Games s ∧
        hub.objects s' = <[id := (delivered msg c).1]> (hub.objects s) ∧
        hub.Clients s' =
          (if (delivered msg c).2 then hub.Clients s else hub.Clients s ∖ {[id]}).
Proof.
  intros Hok Hin Hc. pose proof Hok as [Hopen Hcap].
  destruct (Hopen id Hin) as (c' & Hc' & Hnotclosed).
  rewrite Hc in Hc'. injection Hc' as <-.
  pose proof (Hcap id c Hc) as Hlen.
  unfold hub.deliver, delivered. rewrite Hc.
  destruct (String.eqb (hub.GameID c) (ws.Message.GameID msg)).
  2: { exists s. split; [done|]. split; [done|]. split; [done|].
       split; [by rewrite insert_id | done]. }
  unfold hub.try_send. rewrite Hnotclosed.
  destruct (Nat.ltb_spec (length (hub.queue (hub.Send c))) hub.capacity) as [Hlt|Hge].
  - eexists. split; [done|]. split; [|done].
    apply channels_ok_set_object; [done | done |]. simpl. rewrite length_app. simpl. lia.
  - unfold hub.close. rewrite Hnotclosed.
    eexists. split; [done|]. split; [|done].
    by apply channels_ok_delete_set.
Qed.

(** The loop of [broadcastToGame] over ids that are registered and
    pairwise different. *)
Lemma for_each_deliver (msg : ws.Message.t) (ids : list string) :
  ∀ s, channels_ok s → NoDup ids → (∀ id, id ∈ ids → id ∈ hub.Clients s) →
  ∃ s', hub.for_each (hub.deliver msg) ids s = inr s' ∧ channels_ok s' ∧
        hub.Games s' = hub.Games s ∧
        (∀ id, hub.objects s' !! id =
               if decide (id ∈ ids)
               then (fun c => (delivered msg c).1) <$> hub.objects s !! id
               else hub.objects s !! id) ∧
        (∀ id, id ∈ hub.Clients s' ↔
               id ∈ hub.Clients s ∧
               (id ∈ ids → ∀ c, hub.objects s !! id = Some c →
                                (delivered msg c).2 = true)).
Proof.
  induction ids as [|id0 ids IH]; intros s Hok Hnodup Hreg; simpl.
  { exists s. split; [done|]. split; [done|]. split; [done|]. split.
    - intros id. destruct (decide (id ∈ [])) as [Hin|_]; [by apply elem_of_nil in Hin|done].
    - intros id. split; [|tauto]. intros Hin. split; [done|].
      intros Hnil. by apply elem_of_nil in Hnil. }
  apply NoDup_cons in Hnodup as [Hfresh Hnodup].
  assert (Hin0 : id0 ∈ hub.Clients s) by (apply Hreg; left).
  destruct (proj1 Hok id0 Hin0) as (c0 & Hc0 & _).
  destruct (deliver_spec msg s id0 c0 Hok Hin0 Hc0) as (s1 & -> & Hok1 & HG1 & HO1 & HC1).
  destruct (IH s1 Hok1 Hnodup) as (s' & -> & Hok' & HG' & HO' & HC').
  { intros id Hid. rewrite HC1. destruct (delivered msg c0).2; [apply Hreg; by right|].
    apply elem_of_difference. split; [apply Hreg; by right|].
    intros ->%elem_of_singleton. done. }
  exists s'. split; [done|]. split; [done|]. split; [congruence|]. split.
  - intros id. rewrite HO', HO1.
    destruct (decide (id = id0)) as [->|Hne].
    + rewrite lookup_insert_eq, Hc0.
      destruct (decide (id0 ∈ ids)) as [?|_]; [done|].
      destruct (decide (id0 ∈ id0 :: ids)) as [_|Hn]; [done|]. destruct Hn. left.
    + rewrite lookup_insert_ne by done.
      destruct (decide (id ∈ ids)) as [Hin|Hnin].
      * destruct (decide (id ∈ id0 :: ids)) as [_|Hn]; [done|]. destruct Hn. by right.
      * destruct (decide (id ∈ id0 :: ids)) as [Hin|_]; [|done].
        apply elem_of_cons in Hin as [?|?]; done.
  - intros id. rewrite HC', HO1, HC1.
    destruct (decide (id = id0)) as [->|Hne].
    + rewrite lookup_insert_eq. split.
      * intros [Hin _]. destruct (delivered msg c0).2 eqn:Hd.
        -- split; [done|]. intros _ c Hc. congruence.
        -- apply elem_of_difference in Hin as [_ Hn]. destruct Hn.
           by apply elem_of_singleton.
      * intros [Hin Hkeep]. rewrite (Hkeep ltac:(left) c0 Hc0). split; [done|]. done.
    + rewrite lookup_insert_ne by done. split.
      * intros [Hin Hkeep]. split.
        -- destruct (delivered msg c0).2; [done|]. by apply elem_of_difference in Hin as [? _].
        -- intros Hcons. apply Hkeep. apply elem_of_cons in Hcons as [?|?]; done.
      * intros [Hin Hkeep]. split.
        -- destruct (delivered msg c0).2; [done|]. apply elem_of_difference.
           split; [done|]. by intros ?%elem_of_singleton.
        -- intros Hids. apply Hkeep. by right.
Qed.

Lemma channels_ok_step (s : hub.State) (e : hub.event) :
  channels_ok s →
  match hub.step s e with
  | inr s' => channels_ok s'
  | inl f => f = hub.SendOnClosed ∧ is_late_send e = true
  end.
Proof.
  intros Hok. pose proof Hok as [Hopen Hcap].
  destruct e as [id|id|msg|id msg|id msg|id|id gameID|gameID]; simpl.
  - unfold hub.Register. destruct (hub.objects s !! id) as [c|] eqn:Hc; [done|].
    split; simpl.
    + intros id' [->%elem_of_singleton|Hin]%elem_of_union.
      * exists (hub.mkClient EmptyString hub.make). by rewrite lookup_insert_eq.
      * destruct (Hopen id' Hin) as (c' & Hc' & Hcl). exists c'.
        rewrite lookup_insert_ne by congruence. done.
    + intros id' c'. destruct (decide (id = id')) as [<-|Hne].
      * rewrite lookup_insert_eq. intros [= <-]. simpl. unfold hub.capacity. lia.
      * rewrite lookup_insert_ne by done. apply Hcap.
  - unfold hub.Unregister. destruct (decide (id ∈ hub.Clients s)) as [Hin|Hnin]; [|done].
    cbv zeta. simpl. destruct (Hopen id Hin) as (c & Hc & Hcl). rewrite Hc.
    unfold hub.close. rewrite Hcl.
    apply (channels_ok_delete_set s id (hub.mkClient (hub.GameID c)
                                          (hub.mkChan (hub.queue (hub.Send c)) true)));
      [done|]. simpl. by apply (Hcap id).
  - unfold hub.broadcastToGame. destruct (decide _); [|done].
    destruct (for_each_deliver msg (elements (hub.Clients s)) s Hok)
      as (s' & -> & Hok' & _); [apply NoDup_elements | |done].
    intros id. by rewrite elem_of_elements.
  - unfold hub.SendToClient. destruct (decide (id ∈ hub.Clients s)) as [Hin|Hnin]; [|done].
    unfold hub.send_on. destruct (Hopen id Hin) as (c & Hc & Hcl). rewrite Hc.
    destruct (try_send_open (hub.Send c) msg Hcl (Hcap id c Hc))
      as (ch' & sent & -> & Hcl' & Hlen' & _).
    by apply channels_ok_set_object.
  - unfold hub.send_on. destruct (hub.objects s !! id) as [c|] eqn:Hc; [|done].
    destruct (hub.closed (hub.Send c)) eqn:Hcl.
    + unfold hub.try_send. rewrite Hcl. done.
    + destruct (try_send_open (hub.Send c) msg Hcl (Hcap id c Hc))
        as (ch' & sent & -> & Hcl' & Hlen' & _).
      by apply channels_ok_set_object.
  - destruct (hub.objects s !! id) as [c|] eqn:Hc; [|done].
    apply channels_ok_set_object; [done | |]; simpl.
    + intros Hin. destruct (Hopen id Hin) as (c' & Hc' & Hcl). congruence.
    + pose proof (Hcap id c Hc). destruct (hub.queue (hub.Send c)); simpl in *; lia.
  - destruct (hub.objects s !! id) as [c|] eqn:Hc; [|done].
    apply channels_ok_set_object; [done | |]; simpl.
    + intros Hin. destruct (Hopen id Hin) as (c' & Hc' & Hcl). congruence.
    + by apply (Hcap id).
  - done.
Qed.

Lemma channels_ok_run (events : list hub.event) (s : hub.State) :
  channels_ok s →
  match hub.run events s with
  | inr s' => channels_ok s'
  | inl f => f = hub.SendOnClosed ∧ ∃ e, e ∈ events ∧ is_late_send e = true
  end.
Proof.
  revert s. induction events as [|e events IH]; intros s Hok; simpl; [done|].
  pose proof (channels_ok_step s e Hok) as Hstep.
  destruct (hub.step s e) as [f|s1].
  - destruct Hstep as [-> Hlate]. split; [done|]. exists e. split; [left | done].
  - specialize (IH s1 Hstep). destruct (hub.run events s1) as [f|s'].
    + destruct IH as [-> (e' & Hin & Hlate)]. split; [done|]. exists e'.
      split; [by right | done].
    + done.
Qed.

Lemma channels_ok_NewHub : channels_ok hub.NewHub.
Proof.
  split; simpl; [intros id Hin; by apply elem_of_empty in Hin|].
  intros id c Hc. by rewrite lookup_empty in Hc.
Qed.

(** X21.  Whatever the events, the hub never closes a channel that is
    closed already, and the only run-time fault is a send on a closed
    channel by a [SendToClient] call whose lookup was made before the
    client was unregistered.  As long as no fault has occurred, every
    registered client has an open channel and no channel holds more than
    256 messages. *)
Theorem hub_channels_safe (events : list hub.event) :
  match hub.run events hub.NewHub with
  | inr s =>
      (∀ id, id ∈ hub.Clients s →
             ∃ c, hub.objects s !! id = Some c ∧ hub.closed (hub.Send c) = false) ∧
      (∀ id c, hub.objects s !! id = Some c →
               (length (hub.queue (hub.Send c)) ≤ 256)%nat)
  | inl f => f = hub.SendOnClosed ∧ ∃ id msg, hub.EvLateSend id msg ∈ events
  end.
Proof.
  pose proof (channels_ok_run events hub.NewHub channels_ok_NewHub) as Hrun.
  destruct (hub.run events hub.NewHub) as [f|s]; [|exact Hrun].
  destruct Hrun as [-> (e & Hin & Hlate)]. split; [done|].
  destruct e; try discriminate Hlate. eauto.
Qed.

(** X22.  [broadcastToGame], in a state where the registered clients have
    open channels within capacity, does not fault.  For a game id that is
    not registered it changes nothing.  Otherwise every registered client
    whose [GameID] is the game id of the message gets the message at the
    end of its channel when the channel has room, and is closed and
    unregistered when the channel is full; every other client, its channel
    and its registration stay as they are. *)
Theorem broadcastToGame_delivers (msg : ws.Message.t) (s : hub.State) :
  channels_ok s →
  ∃ s', hub.broadcastToGame msg s = inr s' ∧ channels_ok s' ∧
        hub.Games s' = hub.Games s ∧
        (ws.Message.GameID msg ∉ hub.Games s → s' = s) ∧
        (ws.Message.GameID msg ∈ hub.Games s →
         ∀ id c, hub.objects s !! id = Some c →
           if decide (id ∈ hub.Clients s ∧ hub.GameID c = ws.Message.GameID msg)
           then
             if decide (length (hub.queue (hub.Send c)) < hub.capacity)%nat
             then hub.objects s' !! id =
                    Some (hub.mkClient (hub.GameID c)
                            (hub.mkChan (hub.queue (hub.Send c) ++ [msg]) false)) ∧
                  id ∈ hub.Clients s'
             else hub.objects s' !! id =
                    Some (hub.mkClient (hub.GameID c)
                            (hub.mkChan (hub.queue (hub.Send c)) true)) ∧
                  id ∉ hub.Clients s'
           else hub.objects s' !! id = Some c ∧
                (id ∈ hub.Clients s' ↔ id ∈ hub.Clients s)).
Proof.
  intros Hok. unfold hub.broadcastToGame.
  destruct (decide (ws.Message.GameID msg ∈ hub.Games s)) as [Hgame|Hgame].
  2: { exists s. split; [done|]. split; [done|]. split; [done|]. split; done. }
  destruct (for_each_deliver msg (elements (hub.Clients s)) s Hok)
    as (s' & -> & Hok' & HG & HO & HC); [apply NoDup_elements | |].
  { intros id. by rewrite elem_of_elements. }
  exists s'. split; [done|]. split; [done|]. split; [done|]. split; [done|].
  intros _ id c Hc. specialize (HO id). specialize (HC id).
  rewrite Hc in HO. simpl in HO.
  assert (Hel : id ∈ elements (hub.Clients s) ↔ id ∈ hub.Clients s)
    by apply elem_of_elements.
  assert (HC2 : id ∈ hub.Clients s' ↔
                id ∈ hub.Clients s ∧ (id ∈ hub.Clients s → (delivered msg c).2 = true)).
  { rewrite HC, Hel. split; intros [Hin Hkeep]; (split; [done|]).
    - intros _. by apply Hkeep.
    - intros _ c' Hc'. rewrite Hc in Hc'. injection Hc' as <-. by apply Hkeep. }
  clear HC. unfold delivered in *.
  destruct (decide (id ∈ elements (hub.Clients s))) as [Hin'|Hnin'];
    destruct (String.eqb_spec (hub.GameID c) (ws.Message.GameID msg)) as [Hgid|Hgid];
    destruct (Nat.ltb_spec (length (hub.queue (hub.Send c))) hub.capacity) as [Hlt|Hge];
    simpl in *;
    (destruct (decide (id ∈ hub.Clients s ∧ hub.GameID c = ws.Message.GameID msg))
      as [[Hin Hg]|Hnot]; [destruct (decide (_ < _)%nat); [|try lia]; try lia|]);
    try tauto; try (split; [done|]; tauto).
  split; [done|]. intros Hin''. apply HC2 in Hin'' as [_ Hkeep]. by specialize (Hkeep Hin).
Qed.

Lemma channels_ok_example : channels_ok hub_example.
Proof.
  unfold hub_example.
  pose proof (channels_ok_run hub_session hub.NewHub channels_ok_NewHub) as Hrun.
  destruct (hub.run hub_session hub.NewHub) as [f|s]; [apply channels_ok_NewHub | exact Hrun].
Qed.

(** A broadcast for g1 reaches c1 and c2 and leaves c3 alone. *)
Lemma broadcastToGame_delivers_witness :
  ∃ s', hub.broadcastToGame (server.msg_game_end "g1" "alice" "connect4") hub_example
          = inr s' ∧
        channels_ok s'.
Proof.
  destruct (broadcastToGame_delivers (server.msg_game_end "g1" "alice" "connect4")
              hub_example channels_ok_example) as (s' & Hrun & Hok & _).
  exists s'. split; [exact Hrun | exact Hok].
Defined.

Example broadcast_reaches_the_game :
  (λ s, (λ c, hub.queue (hub.Send c)) <$> hub.objects s) <$>
    match hub.broadcastToGame (server.msg_game_end "g1" "alice" "connect4") hub_example with
    | inr s => Some s
    | inl _ => None
    end =
  Some ({[ "c1" := [server.msg_game_end "g1" "alice" "connect4"];
           "c2" := [server.msg_game_end "g1" "alice" "connect4"];
           "c3" := [] ]} : gmap string (list ws.Message.t)).
Proof. vm_compute. reflexivity. Qed.

(** The send of a [SendToClient] call that found its client before the
    client was unregistered meets a closed channel. *)
Example late_send_on_closed_channel :
  hub.run [hub.EvRegister "c1"; hub.EvUnregister "c1";
           hub.EvLateSend "c1" server.msg_waiting] hub.NewHub
  = inl hub.SendOnClosed.
Proof. vm_compute. reflexivity. Qed.
